(** * mcp-lite: the Connection Hub, the Conversation Orchestrator and the Batch Runner

    A shallow embedding of [McpHub] (mcp/hub.ts), [ChatEngine]
    (chat/engine.ts) and [BatchProcessor] (the batch runner), followed by the
    properties of the orchestration core.

    Asynchronous methods are embedded as computations of a state-and-exception
    monad: every [await] is a point where the external world (tool servers,
    the LLM) answers, and a rejected promise is a thrown [Error]. *)

From Stdlib Require Import String Ascii List ZArith QArith Bool Arith Lia.
From Stdlib Require Import DecimalString.
Import ListNotations.
Close Scope Q_scope.
Open Scope string_scope.

Set Implicit Arguments.
Set Warnings "-register-all".

(* ================================================================== *)
(** ** Data model (types/index.ts) *)

(** A JSON value: tool arguments and input schemas ([Record<string, unknown>]). *)
Inductive Json : Type :=
| JNull
| JBool (b : bool)
| JNum (z : Z)
| JStr (s : string)
| JArr (items : list Json)
| JObj (fields : list (string * Json)).

(** [McpServerWithName]: one server descriptor.  [cfg_type] is ['stdio' | 'sse']
    for the type checker; [createConnection] still guards any other string. *)
Record McpServerWithName : Type := {
  cfg_name : string;
  cfg_type : string;
  cfg_command : option string;
  cfg_args : option (list string);
  cfg_env : option (list (string * string));
  cfg_url : option string;
  cfg_disabled : bool;
  cfg_timeout : Z;
  cfg_autoApprove : list string
}.

Record McpTool : Type := {
  tool_name : string;
  tool_description : option string;
  tool_inputSchema : Json
}.

Record McpResource : Type := {
  res_uri : string;
  res_name : option string;
  res_description : option string;
  res_mimeType : option string
}.

Inductive Role : Type := user | assistant | system.

(** [ToolCall]; the constant field [type: 'function'] carries no information. *)
Record ToolCall : Type := {
  tc_id : string;
  tc_function_name : string;
  tc_function_arguments : string
}.

Record ToolResult : Type := {
  tr_toolCallId : string;
  tr_content : string;
  tr_isError : option bool
}.

Record Message : Type := {
  msg_role : Role;
  msg_content : string;
  msg_toolCalls : option (list ToolCall);
  msg_toolResults : option (list ToolResult)
}.

Record McpToolCallRequest : Type := {
  req_serverName : string;
  req_toolName : string;
  req_arguments : Json
}.

Record McpResourceRequest : Type := {
  rreq_serverName : string;
  rreq_uri : string
}.

Record ContentItem : Type := {
  ci_type : string;
  ci_text : option string;
  ci_data : option string;
  ci_mimeType : option string
}.

Record McpToolResponse : Type := {
  resp_content : list ContentItem;
  resp_isError : option bool
}.

Record ResourceContent : Type := {
  rc_uri : string;
  rc_mimeType : option string;
  rc_text : option string;
  rc_blob : option string
}.

Record McpResourceResponse : Type := {
  rresp_contents : list ResourceContent
}.

(** [LLMResponse] (llm/base.ts). *)
Record LLMResponse : Type := {
  llm_content : string;
  llm_toolCalls : option (list ToolCall);
  llm_usage : option (Z * Z * Z)
}.

(** The options the engine hands to [BaseLLM.chat]: both always present. *)
Record LlmOptions : Type := {
  lo_temperature : Q;
  lo_maxTokens : Z
}.

(* ================================================================== *)
(** ** Thrown values *)

(** Every [throw new Error(...)] of the hub and of the engine is one
    constructor, so that the site an error comes from can be told apart;
    [error_message] renders the template literal of the source.  Errors raised
    by collaborators (the SDK client, the LLM, [JSON.parse], an observer) are
    [ExternalError name message], or [NonErrorThrown] when the thrown value is
    not an [Error] instance. *)
Inductive Error : Type :=
| ExternalError (name message : string)
| NonErrorThrown (repr : string)
| ServerNotConnected (serverName : string)
| ToolNotFoundOnServer (toolName serverName : string)
| FailedToCallTool (toolName : string) (cause : Error)
| FailedToReadResource (uri : string) (cause : Error)
| StdioRequiresCommand
| SseRequiresUrl
| UnknownTransportType (type : string)
| ToolNotFound (toolName : string)
| NoServerCouldExecute (toolName : string)
| ToolCallNotFound (toolCallId : string).

(** [Error.prototype.toString]: the name, a colon and the message, either
    alone when the other is empty. *)
Definition name_colon_message (n m : string) : string :=
  if String.eqb n "" then m
  else if String.eqb m "" then n
  else n ++ ": " ++ m.

Definition error_name (e : Error) : string :=
  match e with
  | ExternalError n _ => n
  | _ => "Error"
  end.

(** [error.message]; an error wrapping a [cause] interpolates [`${cause}`]. *)
Fixpoint error_message (e : Error) : string :=
  match e with
  | ExternalError _ m => m
  | NonErrorThrown r => r
  | ServerNotConnected s => "Server " ++ s ++ " not connected"
  | ToolNotFoundOnServer t s => "Tool " ++ t ++ " not found on server " ++ s
  | FailedToCallTool t c =>
      "Failed to call tool " ++ t ++ ": " ++
      match c with
      | NonErrorThrown r => r
      | _ => name_colon_message (error_name c) (error_message c)
      end
  | FailedToReadResource u c =>
      "Failed to read resource " ++ u ++ ": " ++
      match c with
      | NonErrorThrown r => r
      | _ => name_colon_message (error_name c) (error_message c)
      end
  | StdioRequiresCommand => "STDIO transport requires a command"
  | SseRequiresUrl => "SSE transport requires a URL in the config"
  | UnknownTransportType t => "Unknown transport type: " ++ t
  | ToolNotFound t => "Tool " ++ t ++ " not found"
  | NoServerCouldExecute t => "No server could execute tool " ++ t
  | ToolCallNotFound i => "Tool call " ++ i ++ " not found"
  end.

(** [error instanceof Error ? error.message : String(error)]. *)
Definition error_text (e : Error) : string := error_message e.

(** The error classes the design names. *)
Definition is_not_connected (e : Error) : bool :=
  match e with ServerNotConnected _ => true | _ => false end.

Definition is_tool_not_found (e : Error) : bool :=
  match e with ToolNotFoundOnServer _ _ => true | _ => false end.

Definition is_tool_execution (e : Error) : bool :=
  match e with FailedToCallTool _ _ | FailedToReadResource _ _ => true | _ => false end.

(** What a computation settles to: a fulfilled value or a thrown error. *)
Inductive Outcome (A : Type) : Type :=
| Returned (a : A)
| Thrown (e : Error).

Arguments Returned {A} a.
Arguments Thrown {A} e.

(* ================================================================== *)
(** ** The SDK client seen from the hub *)

(** Third argument of [Client.request]: the per-request options of the SDK. *)
Record RequestOptions : Type := {
  ro_timeout : option Z
}.

Inductive ClientRequest : Type :=
| ToolsList
| ResourcesList
| ToolsCall (name : string) (arguments : Json)
| ResourcesRead (uri : string).

Record ListToolsResult : Type := { lt_tools : option (list McpTool) }.
Record ListResourcesResult : Type := { lr_resources : option (list McpResource) }.
Record CallToolResult : Type := {
  raw_content : option (list ContentItem);
  raw_isError : option bool
}.
Record ReadResourceResult : Type := { raw_contents : option (list ResourceContent) }.

(** Handle of a spawned child process ([McpConnection.process]). *)
Record ChildProcess : Type := { proc_pid : Z; proc_killed : bool }.

(** [McpConnection].  The [client] and [transport] objects are opaque SDK
    handles built from [config]; the model names them by that descriptor. *)
Record McpConnection : Type := {
  conn_config : McpServerWithName;
  conn_process : option ChildProcess;
  conn_connected : bool;
  conn_tools : list McpTool;
  conn_resources : list McpResource
}.

(** Calls made on collaborators, in the order they were issued. *)
Inductive Event : Type :=
| EvConnect (client : McpServerWithName)
| EvRequest (client : McpServerWithName) (req : ClientRequest)
            (options : option RequestOptions)
| EvClose (client : McpServerWithName)
| EvKill (client : McpServerWithName)
| EvLlmChat (transcript : list Message) (tools : list McpTool) (opts : LlmOptions).

(** A JavaScript number as far as a comparison with an integer can tell:
    a rational (every finite double is one), an infinity or [NaN]. *)
Inductive JsNumber : Type :=
| Finite (q : Q)
| PlusInfinity
| MinusInfinity
| NaN.

(** Lines written with [console.log] / [console.error], kept symbolic. *)
Inductive LogLine : Type :=
| LogConnected (name : string)
| LogTools (names : list string)
| LogResources (uris : list string)
| LogDisconnected (name : string)
| LogErrorClosingClient (e : Error)
| LogExecuted (n : nat)
| LogResultLine (toolCallId : string) (isError : bool)
| LogToolCallsRequested
| LogRequestedCall (name arguments : string)
| LogReachedMaximumTurns (maxTurns : Z)
| LogReachedMaximumTurnsAt (maxTurns : JsNumber).

(** The collaborators of the core: the SDK client of a server (named by its
    descriptor), the LLM capability ([BaseLLM.chat]) and the JavaScript
    built-ins the core calls.  Each answers from, and may change, the state of
    the outside world. *)
Class Collaborators (World : Type) : Type := {
  new_URL : string -> option Error;
  client_connect : McpServerWithName -> World -> option Error * World;
  client_close : McpServerWithName -> World -> option Error * World;
  request_tools_list :
    McpServerWithName -> option RequestOptions -> World ->
    Outcome ListToolsResult * World;
  request_resources_list :
    McpServerWithName -> option RequestOptions -> World ->
    Outcome ListResourcesResult * World;
  request_tools_call :
    McpServerWithName -> string -> Json -> option RequestOptions -> World ->
    Outcome CallToolResult * World;
  request_resources_read :
    McpServerWithName -> string -> option RequestOptions -> World ->
    Outcome ReadResourceResult * World;
  llm_chat :
    list Message -> list McpTool -> LlmOptions -> World ->
    Outcome LLMResponse * World;
  JSON_parse : string -> Outcome Json;
  JSON_stringify : Json -> string;
  Date_now : World -> Z * World
}.

(* ================================================================== *)
(** ** Program state and the monad of asynchronous methods *)

Section Core.

(** [Host] is the state of the caller, which an execution observer may write to. *)
Context {World : Type} {collab : Collaborators World} {Host : Type}.

(** [hub_connections] is the [Map<string, McpConnection>] of the hub as the
    list of its entries in insertion order, [chat_messages] the transcript of
    the engine; [trace] and [console] record what was sent outside. *)
Record State : Type := {
  hub_connections : list (string * McpConnection);
  hub_timeoutMs : Z;
  chat_messages : list Message;
  world : World;
  trace : list Event;
  console : list LogLine;
  host : Host
}.

Definition set_connections (c : list (string * McpConnection)) (s : State) : State :=
  {| hub_connections := c; hub_timeoutMs := hub_timeoutMs s;
     chat_messages := chat_messages s; world := world s; trace := trace s;
     console := console s; host := host s |}.

Definition set_messages (m : list Message) (s : State) : State :=
  {| hub_connections := hub_connections s; hub_timeoutMs := hub_timeoutMs s;
     chat_messages := m; world := world s; trace := trace s;
     console := console s; host := host s |}.

Definition set_world (w : World) (s : State) : State :=
  {| hub_connections := hub_connections s; hub_timeoutMs := hub_timeoutMs s;
     chat_messages := chat_messages s; world := w; trace := trace s;
     console := console s; host := host s |}.

Definition set_trace (t : list Event) (s : State) : State :=
  {| hub_connections := hub_connections s; hub_timeoutMs := hub_timeoutMs s;
     chat_messages := chat_messages s; world := world s; trace := t;
     console := console s; host := host s |}.

Definition set_console (c : list LogLine) (s : State) : State :=
  {| hub_connections := hub_connections s; hub_timeoutMs := hub_timeoutMs s;
     chat_messages := chat_messages s; world := world s; trace := trace s;
     console := c; host := host s |}.

Definition set_host (h : Host) (s : State) : State :=
  {| hub_connections := hub_connections s; hub_timeoutMs := hub_timeoutMs s;
     chat_messages := chat_messages s; world := world s; trace := trace s;
     console := console s; host := h |}.

Definition M (A : Type) : Type := State -> Outcome A * State.

Definition ret {A} (a : A) : M A := fun s => (Returned a, s).

Definition throw {A} (e : Error) : M A := fun s => (Thrown e, s).

Definition bind {A B} (m : M A) (k : A -> M B) : M B :=
  fun s =>
    match m s with
    | (Returned a, s') => k a s'
    | (Thrown e, s') => (Thrown e, s')
    end.

(** [try { m } catch (error) { h error }]. *)
Definition try_catch {A} (m : M A) (h : Error -> M A) : M A :=
  fun s =>
    match m s with
    | (Returned a, s') => (Returned a, s')
    | (Thrown e, s') => h e s'
    end.

Definition get_state : M State := fun s => (Returned s, s).

Definition modify (f : State -> State) : M unit := fun s => (Returned tt, f s).

Notation "x <- m ;; k" := (bind m (fun x => k))
  (at level 61, m at next level, right associativity).
Notation "m ;;; k" := (bind m (fun _ => k))
  (at level 61, right associativity).

Definition emit (e : Event) : M unit :=
  modify (fun s => set_trace (trace s ++ [e])%list s).

Definition console_log (l : LogLine) : M unit :=
  modify (fun s => set_console (console s ++ [l])%list s).

(** Run an answer of the outside world as a step of the monad. *)
Definition ask {A} (f : World -> Outcome A * World) : M A :=
  fun s => let (r, w) := f (world s) in (r, set_world w s).

Definition ask_void (f : World -> option Error * World) : M unit :=
  fun s =>
    let (r, w) := f (world s) in
    (match r with None => Returned tt | Some e => Thrown e end, set_world w s).

(** [client.request(req, schema)] and friends: log the call, then let the
    server answer. *)
Definition client_request_tools_list (c : McpServerWithName)
    (o : option RequestOptions) : M ListToolsResult :=
  emit (EvRequest c ToolsList o) ;;; ask (request_tools_list c o).

Definition client_request_resources_list (c : McpServerWithName)
    (o : option RequestOptions) : M ListResourcesResult :=
  emit (EvRequest c ResourcesList o) ;;; ask (request_resources_list c o).

Definition client_request_tools_call (c : McpServerWithName) (name : string)
    (args : Json) (o : option RequestOptions) : M CallToolResult :=
  emit (EvRequest c (ToolsCall name args) o) ;;;
  ask (request_tools_call c name args o).

Definition client_request_resources_read (c : McpServerWithName) (uri : string)
    (o : option RequestOptions) : M ReadResourceResult :=
  emit (EvRequest c (ResourcesRead uri) o) ;;;
  ask (request_resources_read c uri o).

(* ================================================================== *)
(** ** [Map<string, McpConnection>] as an insertion-ordered list *)

Definition Connections : Type := list (string * McpConnection).

Definition map_get (k : string) (m : Connections) : option McpConnection :=
  match find (fun kv => String.eqb (fst kv) k) m with
  | Some kv => Some (snd kv)
  | None => None
  end.

Definition map_has (k : string) (m : Connections) : bool :=
  existsb (fun kv => String.eqb (fst kv) k) m.

Definition map_delete (k : string) (m : Connections) : Connections :=
  filter (fun kv => negb (String.eqb (fst kv) k)) m.

(** [Map.prototype.set]: an existing key keeps its place, a new one goes last. *)
Fixpoint map_set (k : string) (v : McpConnection) (m : Connections) : Connections :=
  match m with
  | [] => [(k, v)]
  | (k', v') :: rest =>
      if String.eqb k' k then (k, v) :: rest else (k', v') :: map_set k v rest
  end.

Definition map_keys (m : Connections) : list string := map fst m.

Definition map_values (m : Connections) : list McpConnection := map snd m.

(** JavaScript truthiness of an optional string: [undefined] and [''] are falsy. *)
Definition truthy (o : option string) : bool :=
  match o with
  | Some s => negb (String.eqb s "")
  | None => false
  end.


(* ================================================================== *)
(** ** McpHub (mcp/hub.ts) *)

Definition set_connected (b : bool) (c : McpConnection) : McpConnection :=
  {| conn_config := conn_config c; conn_process := conn_process c;
     conn_connected := b; conn_tools := conn_tools c;
     conn_resources := conn_resources c |}.

Definition set_killed (c : McpConnection) : McpConnection :=
  {| conn_config := conn_config c;
     conn_process :=
       match conn_process c with
       | Some p => Some {| proc_pid := proc_pid p; proc_killed := true |}
       | None => None
       end;
     conn_connected := conn_connected c; conn_tools := conn_tools c;
     conn_resources := conn_resources c |}.

(** A write to a field of the connection object held by the map under [name]. *)
Definition update_entry (name : string) (f : McpConnection -> McpConnection)
    (m : Connections) : Connections :=
  map (fun kv => if String.eqb (fst kv) name then (fst kv, f (snd kv)) else kv) m.

Definition set_entry (name : string) (f : McpConnection -> McpConnection) : M unit :=
  modify (fun s => set_connections (update_entry name f (hub_connections s)) s).

(** [disconnectConnection(connection)], for the connection object the map
    holds under [name]: the object is shared with the map, so the final
    [connection.connected = false] is visible through the map. *)
Definition disconnectConnection (name : string) (connection : McpConnection) : M unit :=
  try_catch
    (emit (EvClose (conn_config connection)) ;;;
     ask_void (client_close (conn_config connection)))
    (fun error => console_log (LogErrorClosingClient error)) ;;;
  match conn_process connection with
  | Some p =>
      if negb (proc_killed p)
      then emit (EvKill (conn_config connection)) ;;; set_entry name set_killed
      else ret tt
  | None => ret tt
  end ;;;
  set_entry name (set_connected false).

(** [await p] kept as a settled outcome, for promises combined by [Promise.all]. *)
Definition settle {A} (m : M A) : M (Outcome A) :=
  fun s =>
    match m s with
    | (Returned a, s') => (Returned (Returned a), s')
    | (Thrown e, s') => (Returned (Thrown e), s')
    end.

Definition unsettle {A} (o : Outcome A) : M A :=
  match o with
  | Returned a => ret a
  | Thrown e => throw e
  end.

Definition copyTool (tool : McpTool) : McpTool :=
  {| tool_name := tool_name tool; tool_description := tool_description tool;
     tool_inputSchema := tool_inputSchema tool |}.

Definition copyResource (resource : McpResource) : McpResource :=
  {| res_uri := res_uri resource; res_name := res_name resource;
     res_description := res_description resource;
     res_mimeType := res_mimeType resource |}.

(** [createConnection(config)].  Both discovery requests are sent before
    [Promise.all] is awaited; only the resource request has its own [catch].
    The local [process] is declared and never assigned. *)
Definition createConnection (config : McpServerWithName) : M McpConnection :=
  (if String.eqb (cfg_type config) "stdio" then
     if negb (truthy (cfg_command config)) then throw StdioRequiresCommand
     else ret tt
   else if String.eqb (cfg_type config) "sse" then
     if negb (truthy (cfg_url config)) then throw SseRequiresUrl
     else
       match cfg_url config with
       | Some url =>
           match new_URL url with
           | Some e => throw e
           | None => ret tt
           end
       | None => ret tt
       end
   else throw (UnknownTransportType (cfg_type config))) ;;;
  emit (EvConnect config) ;;;
  ask_void (client_connect config) ;;;
  toolsOutcome <- settle (client_request_tools_list config None) ;;
  resourcesResult <-
    try_catch (client_request_resources_list config None)
              (fun _ => ret {| lr_resources := Some [] |}) ;;
  toolsResult <- unsettle toolsOutcome ;;
  let tools :=
    match lt_tools toolsResult with
    | Some l => map copyTool l
    | None => []
    end in
  let resources :=
    match lr_resources resourcesResult with
    | Some l => map copyResource l
    | None => []
    end in
  ret {| conn_config := config; conn_process := None; conn_connected := true;
         conn_tools := tools; conn_resources := resources |}.

Definition removeServer (name : string) : M unit :=
  s <- get_state ;;
  match map_get name (hub_connections s) with
  | None => ret tt
  | Some connection =>
      disconnectConnection name connection ;;;
      modify (fun s => set_connections (map_delete name (hub_connections s)) s) ;;;
      console_log (LogDisconnected name)
  end.

Definition addServer (config : McpServerWithName) : M unit :=
  s <- get_state ;;
  (if map_has (cfg_name config) (hub_connections s)
   then removeServer (cfg_name config)
   else ret tt) ;;;
  connection <- createConnection config ;;
  modify (fun s =>
            set_connections
              (map_set (cfg_name config) connection (hub_connections s)) s) ;;;
  console_log (LogConnected (cfg_name config)) ;;;
  console_log (LogTools (map tool_name (conn_tools connection))) ;;;
  console_log (LogResources (map res_uri (conn_resources connection))).

Definition getServerNames (s : State) : list string :=
  map_keys (hub_connections s).

(** The [for ... of this.connections.values()] loops, pushing onto a result. *)
Definition collect {A} (f : McpConnection -> list A) (m : Connections) : list A :=
  fold_left
    (fun acc connection =>
       if conn_connected connection then (acc ++ f connection)%list else acc)
    (map_values m) [].

Definition getAvailableTools (s : State) : list McpTool :=
  collect conn_tools (hub_connections s).

Definition getAvailableResources (s : State) : list McpResource :=
  collect conn_resources (hub_connections s).

Definition callTool (request : McpToolCallRequest) : M McpToolResponse :=
  s <- get_state ;;
  match map_get (req_serverName request) (hub_connections s) with
  | None => throw (ServerNotConnected (req_serverName request))
  | Some connection =>
      if negb (conn_connected connection)
      then throw (ServerNotConnected (req_serverName request))
      else
        match find (fun t => String.eqb (tool_name t) (req_toolName request))
                   (conn_tools connection) with
        | None =>
            throw (ToolNotFoundOnServer (req_toolName request)
                                        (req_serverName request))
        | Some _ =>
            try_catch
              (result <- client_request_tools_call (conn_config connection)
                           (req_toolName request) (req_arguments request) None ;;
               ret {| resp_content :=
                        match raw_content result with
                        | Some c => c
                        | None => []
                        end;
                      resp_isError :=
                        Some match raw_isError result with
                             | Some b => b
                             | None => false
                             end |})
              (fun error => throw (FailedToCallTool (req_toolName request) error))
        end
  end.

Definition readResource (request : McpResourceRequest) : M McpResourceResponse :=
  s <- get_state ;;
  match map_get (rreq_serverName request) (hub_connections s) with
  | None => throw (ServerNotConnected (rreq_serverName request))
  | Some connection =>
      if negb (conn_connected connection)
      then throw (ServerNotConnected (rreq_serverName request))
      else
        try_catch
          (result <- client_request_resources_read (conn_config connection)
                       (rreq_uri request) None ;;
           ret {| rresp_contents :=
                    match raw_contents result with
                    | Some c => c
                    | None => []
                    end |})
          (fun error => throw (FailedToReadResource (rreq_uri request) error))
  end.

Fixpoint disconnect_each (entries : Connections) : M unit :=
  match entries with
  | [] => ret tt
  | (name, connection) :: rest =>
      disconnectConnection name connection ;;; disconnect_each rest
  end.

(** [disconnect()]: close every connection, then clear the map. *)
Definition disconnect : M unit :=
  s <- get_state ;;
  disconnect_each (hub_connections s) ;;;
  modify (fun s => set_connections [] s).

(* ================================================================== *)
(** ** ChatEngine (chat/engine.ts) *)

Inductive InfoType : Type := tool_start | tool_complete | tool_error.

(** Text of a notification, kept symbolic (the source renders it with icons). *)
Inductive InfoMessage : Type :=
| MsgExecuting (count : nat)
| MsgCompleted (successCount errorCount : nat)
| MsgStarting (toolName : string)
| MsgDone (toolCallId : string)
| MsgFailed (toolCallId errorMessage : string).

Record ToolExecutionInfo : Type := {
  info_type : InfoType;
  info_toolName : option string;
  info_toolCallId : option string;
  info_message : InfoMessage;
  info_input : option string;
  info_output : option string
}.

(** An execution observer: a callback of the caller.  It runs on the caller's
    own state and on the outside world, and it may throw.  A callback that
    reaches the hub or the engine through what it closes over is not
    covered: where a property below speaks of an observer, it is one that
    touches the caller's state and the world only, as the one of the batch
    runner does. *)
Definition Observer : Type :=
  ToolExecutionInfo -> Host -> World -> Outcome unit * Host * World.

Record ChatOptions : Type := {
  opt_temperature : option Q;
  opt_maxTokens : option Z;
  opt_maxTurns : option Z;
  opt_autoExecuteTools : option bool;
  opt_onToolExecution : option Observer
}.

(** [if (onToolExecution) { onToolExecution(info) }]. *)
Definition notify (onToolExecution : option Observer) (info : ToolExecutionInfo) : M unit :=
  match onToolExecution with
  | None => ret tt
  | Some f =>
      fun s =>
        let '(r, h, w) := f info (host s) (world s) in
        (r, set_world w (set_host h s))
  end.

Definition default {A} (d : A) (o : option A) : A :=
  match o with
  | Some a => a
  | None => d
  end.

Definition push_message (m : Message) : M unit :=
  modify (fun s => set_messages (chat_messages s ++ [m])%list s).

Definition addMessage (content : string) (role : Role) : M unit :=
  push_message {| msg_role := role; msg_content := content;
                  msg_toolCalls := None; msg_toolResults := None |}.

Definition newline : string := String (ascii_of_nat 10) EmptyString.

(** The formatting of a tool response in [executeToolCall]. *)
Definition formatItem (item : ContentItem) : string :=
  if String.eqb (ci_type item) "text" && truthy (ci_text item)
  then default "" (ci_text item)
  else "[" ++ ci_type item ++ "]".

Definition formatContent (content : list ContentItem) : string :=
  let joined := String.concat newline (map formatItem content) in
  if String.eqb joined "" then "Tool executed successfully" else joined.

(** The [for (const name of serverNames)] loop of [executeToolCall]: the
    first server whose [callTool] fulfils returns, a rejection moves on. *)
Fixpoint probeServers (toolName : string) (args : Json) (serverNames : list string)
  : M string :=
  match serverNames with
  | [] => throw (NoServerCouldExecute toolName)
  | name :: rest =>
      o <- settle (callTool {| req_serverName := name; req_toolName := toolName;
                               req_arguments := args |}) ;;
      match o with
      | Returned result => ret (formatContent (resp_content result))
      | Thrown _ => probeServers toolName args rest
      end
  end.

Definition executeToolCall (toolName : string) (args : Json) : M string :=
  s <- get_state ;;
  match find (fun t => String.eqb (tool_name t) toolName) (getAvailableTools s) with
  | None => throw (ToolNotFound toolName)
  | Some _ => probeServers toolName args (getServerNames s)
  end.

Definition successResult (toolCall : ToolCall) (result : string) : ToolResult :=
  {| tr_toolCallId := tc_id toolCall; tr_content := result;
     tr_isError := Some false |}.

Definition errorResult (toolCall : ToolCall) (error : Error) : ToolResult :=
  {| tr_toolCallId := tc_id toolCall;
     tr_content := "Error: " ++ error_text error;
     tr_isError := Some true |}.

(** The notifications [executeToolCalls] sends for one call. *)
Definition toolStartInfo (toolCall : ToolCall) (args : Json) : ToolExecutionInfo :=
  {| info_type := tool_start;
     info_toolName := Some (tc_function_name toolCall);
     info_toolCallId := Some (tc_id toolCall);
     info_message := MsgStarting (tc_function_name toolCall);
     info_input := Some (JSON_stringify args);
     info_output := None |}.

Definition toolCompleteInfo (toolCall : ToolCall) (result : string) : ToolExecutionInfo :=
  {| info_type := tool_complete;
     info_toolName := Some (tc_function_name toolCall);
     info_toolCallId := Some (tc_id toolCall);
     info_message := MsgDone (tc_id toolCall);
     info_input := None;
     info_output := Some result |}.

Definition toolErrorInfo (toolCall : ToolCall) (error : Error) : ToolExecutionInfo :=
  {| info_type := tool_error;
     info_toolName := Some (tc_function_name toolCall);
     info_toolCallId := Some (tc_id toolCall);
     info_message := MsgFailed (tc_id toolCall) (error_text error);
     info_input := Some (tc_function_arguments toolCall);
     info_output := Some ("Error: " ++ error_text error) |}.

(** The [catch] block of [executeToolCalls], entered with the local array
    [results] as the [try] block left it. *)
Definition executeToolCalls_catch (onToolExecution : option Observer)
    (toolCall : ToolCall) (results : list ToolResult) (error : Error)
  : M (list ToolResult) :=
  let results := (results ++ [errorResult toolCall error])%list in
  notify onToolExecution (toolErrorInfo toolCall error) ;;;
  ret results.

(** One iteration of the loop of [executeToolCalls] on the local [results]. *)
Definition executeToolCalls_body (onToolExecution : option Observer)
    (results : list ToolResult) (toolCall : ToolCall) : M (list ToolResult) :=
  o <- settle
         (args <- (fun s => (JSON_parse (tc_function_arguments toolCall), s)) ;;
          notify onToolExecution (toolStartInfo toolCall args) ;;;
          executeToolCall (tc_function_name toolCall) args) ;;
  match o with
  | Thrown error => executeToolCalls_catch onToolExecution toolCall results error
  | Returned result =>
      let results := (results ++ [successResult toolCall result])%list in
      o' <- settle (notify onToolExecution (toolCompleteInfo toolCall result)) ;;
      match o' with
      | Thrown error => executeToolCalls_catch onToolExecution toolCall results error
      | Returned _ => ret results
      end
  end.

Fixpoint executeToolCalls_loop (onToolExecution : option Observer)
    (toolCalls : list ToolCall) (results : list ToolResult) : M (list ToolResult) :=
  match toolCalls with
  | [] => ret results
  | toolCall :: rest =>
      results <- executeToolCalls_body onToolExecution results toolCall ;;
      executeToolCalls_loop onToolExecution rest results
  end.

Definition executeToolCalls (toolCalls : list ToolCall)
    (onToolExecution : option Observer) : M (list ToolResult) :=
  executeToolCalls_loop onToolExecution toolCalls [].

(** [r.isError] as a condition: [undefined] is falsy. *)
Definition isError_truthy (r : ToolResult) : bool := default false (tr_isError r).

Fixpoint log_results (toolResults : list ToolResult) : M unit :=
  match toolResults with
  | [] => ret tt
  | result :: rest =>
      console_log (LogResultLine (tr_toolCallId result) (isError_truthy result)) ;;;
      log_results rest
  end.

Fixpoint log_calls (toolCalls : list ToolCall) : M unit :=
  match toolCalls with
  | [] => ret tt
  | call :: rest =>
      console_log (LogRequestedCall (tc_function_name call)
                                    (tc_function_arguments call)) ;;;
      log_calls rest
  end.

Definition batchInfo (t : InfoType) (m : InfoMessage) : ToolExecutionInfo :=
  {| info_type := t; info_toolName := None; info_toolCallId := None;
     info_message := m; info_input := None; info_output := None |}.

(** The [while (turnCount < maxTurns)] loop of [chat] for an integer
    [maxTurns]; it returns the locals [turnCount] and [finalResponse] as the
    loop leaves them.  [fuel] bounds the number of iterations; [chat] supplies
    [maxTurns] of it, which the loop never exhausts before its own condition
    fails ([chat_loop_fuel]).  The loop for a ceiling that is any number is
    [chat_loop_number] below. *)
Fixpoint chat_loop (fuel : nat) (options : ChatOptions) (llmOptions : LlmOptions)
    (maxTurns : Z) (autoExecuteTools : bool) (turnCount : Z)
    (finalResponse : string) : M (Z * string) :=
  match fuel with
  | O => ret (turnCount, finalResponse)
  | S fuel' =>
      if (turnCount <? maxTurns)%Z then
        let turnCount := (turnCount + 1)%Z in
        s <- get_state ;;
        let availableTools := getAvailableTools s in
        emit (EvLlmChat (chat_messages s) availableTools llmOptions) ;;;
        response <- ask (llm_chat (chat_messages s) availableTools llmOptions) ;;
        let assistantMessage :=
          {| msg_role := assistant; msg_content := llm_content response;
             msg_toolCalls := llm_toolCalls response;
             msg_toolResults := None |} in
        let finalResponse := llm_content response in
        match llm_toolCalls response with
        | None | Some [] =>
            push_message assistantMessage ;;; ret (turnCount, finalResponse)
        | Some toolCalls =>
            if autoExecuteTools then
              notify (opt_onToolExecution options)
                     (batchInfo tool_start (MsgExecuting (length toolCalls))) ;;;
              toolResults <-
                executeToolCalls toolCalls (opt_onToolExecution options) ;;
              push_message
                {| msg_role := assistant; msg_content := llm_content response;
                   msg_toolCalls := llm_toolCalls response;
                   msg_toolResults := Some toolResults |} ;;;
              notify (opt_onToolExecution options)
                     (batchInfo tool_complete
                        (MsgCompleted
                           (length (filter (fun r => negb (isError_truthy r))
                                           toolResults))
                           (length (filter isError_truthy toolResults)))) ;;;
              console_log (LogExecuted (length toolResults)) ;;;
              log_results toolResults ;;;
              chat_loop fuel' options llmOptions maxTurns autoExecuteTools
                        turnCount finalResponse
            else
              push_message assistantMessage ;;;
              console_log LogToolCallsRequested ;;;
              log_calls toolCalls ;;;
              ret (turnCount, finalResponse)
        end
      else ret (turnCount, finalResponse)
  end.

Definition userMessage (userInput : string) : Message :=
  {| msg_role := user; msg_content := userInput;
     msg_toolCalls := None; msg_toolResults := None |}.

Definition chat (userInput : string) (options : ChatOptions) : M string :=
  let temperature := default (7 # 10)%Q (opt_temperature options) in
  let maxTokens := default 2000%Z (opt_maxTokens options) in
  let maxTurns := default 10%Z (opt_maxTurns options) in
  let autoExecuteTools := default true (opt_autoExecuteTools options) in
  push_message (userMessage userInput) ;;;
  out <- chat_loop (Z.to_nat maxTurns) options
           {| lo_temperature := temperature; lo_maxTokens := maxTokens |}
           maxTurns autoExecuteTools 0%Z "" ;;
  (if (maxTurns <=? fst out)%Z
   then console_log (LogReachedMaximumTurns maxTurns)
   else ret tt) ;;;
  ret (snd out).

(** *** [chat] for any number as the turn ceiling

    [ChatOptions.maxTurns] is a [number].  [chat] above takes it as an
    integer, for which the loop ends after [maxTurns] iterations at the
    latest.  Below the ceiling is any number: [turnCount], which counts up
    from 0, stays an integer, and the two comparisons of [chat] are those of
    an integer with a number.  The loop need not end then, so the fuel is
    explicit: [None] is a loop still running when the fuel is spent.  On an
    integer ceiling both loops are the same ([chat_loop_number_integer]). *)





Definition getMessages (s : State) : list Message := chat_messages s.

Definition clearMessages : M unit := modify (fun s => set_messages [] s).

(** [message.toolResults.push(r)], after creating the array when absent. *)
Definition pushToolResult (r : ToolResult) (message : Message) : Message :=
  {| msg_role := msg_role message; msg_content := msg_content message;
     msg_toolCalls := msg_toolCalls message;
     msg_toolResults := Some (default [] (msg_toolResults message) ++ [r])%list |}.

Fixpoint replace_nth {A} (i : nat) (a : A) (l : list A) : list A :=
  match l, i with
  | [], _ => []
  | _ :: rest, O => a :: rest
  | x :: rest, S i' => x :: replace_nth i' a rest
  end.

Definition holdsCall (toolCallId : string) (message : Message) : bool :=
  match msg_role message, msg_toolCalls message with
  | assistant, Some toolCalls =>
      match find (fun call => String.eqb (tc_id call) toolCallId) toolCalls with
      | Some _ => true
      | None => false
      end
  | _, _ => false
  end.

(** The [for (let i = messages.length - 1; i >= 0; i--)] loop of
    [executeToolManually], with [n = i + 1]: the transcript after the push, or
    [None] when the loop ends without returning. *)
Fixpoint scanBack (n : nat) (toolCallId : string) (r : ToolResult)
    (messages : list Message) : option (list Message) :=
  match n with
  | O => None
  | S i =>
      match nth_error messages i with
      | Some message =>
          if holdsCall toolCallId message
          then Some (replace_nth i (pushToolResult r message) messages)
          else scanBack i toolCallId r messages
      | None => scanBack i toolCallId r messages
      end
  end.

Definition executeToolManually (toolCallId : string) (result : string)
    (isError : option bool) : M unit :=
  let isError := default false isError in
  s <- get_state ;;
  match scanBack (length (chat_messages s)) toolCallId
          {| tr_toolCallId := toolCallId; tr_content := result;
             tr_isError := Some isError |}
          (chat_messages s) with
  | Some messages => modify (fun s => set_messages messages s)
  | None => throw (ToolCallNotFound toolCallId)
  end.

End Core.

Arguments State World Host : clear implicits.
Arguments M World Host A : clear implicits.
Arguments Observer World Host : clear implicits.
Arguments ChatOptions World Host : clear implicits.

(* ================================================================== *)
(** ** BatchProcessor *)

Record BatchQuestion : Type := {
  q_id : option string;
  q_question : string;
  q_context : option string;
  q_expectedResult : option string
}.

Record ToolCallRecord : Type := {
  rec_toolName : string;
  rec_toolCallId : string;
  rec_input : string;
  rec_output : string;
  rec_success : bool;
  rec_error : option InfoMessage;
  rec_timestamp : Z
}.

Record BatchResult : Type := {
  br_id : string;
  br_question : string;
  br_context : option string;
  br_expectedResult : option string;
  br_response : string;
  br_toolCalls : list ToolCallRecord;
  br_success : bool;
  br_error : option string;
  br_processingTime : Z
}.

Record BatchOptions : Type := {
  bo_maxConcurrency : option Z;
  bo_continueOnError : option bool
}.

(** The fields of a [BatchProcessor] besides its [chatEngine]. *)
Record BatchHost : Type := {
  batch_results : list BatchResult;
  batch_currentToolCalls : list ToolCallRecord
}.

Section Batch.

Context {World : Type} {collab : Collaborators World}.

Notation "x <- m ;; k" := (bind m (fun x => k))
  (at level 61, m at next level, right associativity).
Notation "m ;;; k" := (bind m (fun _ => k))
  (at level 61, right associativity).

Definition BM (A : Type) : Type := M World BatchHost A.

Definition set_results (r : list BatchResult) (h : BatchHost) : BatchHost :=
  {| batch_results := r; batch_currentToolCalls := batch_currentToolCalls h |}.

Definition set_currentToolCalls (c : list ToolCallRecord) (h : BatchHost) : BatchHost :=
  {| batch_results := batch_results h; batch_currentToolCalls := c |}.

(** A write to the first record of [currentToolCalls] with the given id (the
    object [find] returns). *)
Fixpoint update_record (toolCallId : string) (f : ToolCallRecord -> ToolCallRecord)
    (records : list ToolCallRecord) : list ToolCallRecord :=
  match records with
  | [] => []
  | record :: rest =>
      if String.eqb (rec_toolCallId record) toolCallId
      then f record :: rest
      else record :: update_record toolCallId f rest
  end.

Definition hasRecord (toolCallId : string) (records : list ToolCallRecord) : bool :=
  match find (fun record => String.eqb (rec_toolCallId record) toolCallId) records with
  | Some _ => true
  | None => false
  end.

(** The [onToolExecution] closure built by [processQuestion]. *)
Definition onToolExecution : Observer World BatchHost :=
  fun info h w =>
    match info_type info with
    | tool_start =>
        if truthy (info_toolName info) then
          if truthy (info_toolCallId info) && truthy (info_toolName info) then
            if hasRecord (default "" (info_toolCallId info))
                         (batch_currentToolCalls h)
            then (Returned tt, h, w)
            else
              let (timestamp, w') := Date_now w in
              (Returned tt,
               set_currentToolCalls
                 (batch_currentToolCalls h ++
                  [{| rec_toolName := default "" (info_toolName info);
                      rec_toolCallId := default "" (info_toolCallId info);
                      rec_input :=
                        if truthy (info_input info)
                        then default "" (info_input info) else "";
                      rec_output := "";
                      rec_success := false;
                      rec_error := None;
                      rec_timestamp := timestamp |}])%list h,
               w')
          else (Returned tt, h, w)
        else (Returned tt, h, w)
    | tool_complete =>
        if truthy (info_toolCallId info) then
          (Returned tt,
           set_currentToolCalls
             (update_record (default "" (info_toolCallId info))
                (fun record =>
                   {| rec_toolName := rec_toolName record;
                      rec_toolCallId := rec_toolCallId record;
                      rec_input := rec_input record;
                      rec_output :=
                        if truthy (info_output info)
                        then default "" (info_output info) else "";
                      rec_success := true;
                      rec_error := rec_error record;
                      rec_timestamp := rec_timestamp record |})
                (batch_currentToolCalls h)) h,
           w)
        else (Returned tt, h, w)
    | tool_error =>
        if truthy (info_toolCallId info) then
          (Returned tt,
           set_currentToolCalls
             (update_record (default "" (info_toolCallId info))
                (fun record =>
                   {| rec_toolName := rec_toolName record;
                      rec_toolCallId := rec_toolCallId record;
                      rec_input := rec_input record;
                      rec_output :=
                        if truthy (info_output info)
                        then default "" (info_output info) else "";
                      rec_success := false;
                      rec_error := Some (info_message info);
                      rec_timestamp := rec_timestamp record |})
                (batch_currentToolCalls h)) h,
           w)
        else (Returned tt, h, w)
    end.

(** [Date.now()]. *)
Definition now : BM Z :=
  fun s => let (t, w) := Date_now (world s) in (Returned t, set_world w s).

(** [`Q${n}`]. *)
Definition questionLabel (n : nat) : string :=
  "Q" ++ NilEmpty.string_of_uint (Nat.to_uint n).

Definition questionOptions : ChatOptions World BatchHost :=
  {| opt_temperature := Some (7 # 10)%Q;
     opt_maxTokens := Some 2000%Z;
     opt_maxTurns := None;
     opt_autoExecuteTools := Some true;
     opt_onToolExecution := Some onToolExecution |}.

Definition processQuestion (question : BatchQuestion) (questionNumber : nat)
  : BM BatchResult :=
  startTime <- now ;;
  modify (fun s => set_host (set_currentToolCalls [] (host s)) s) ;;;
  let id :=
    if truthy (q_id question) then default "" (q_id question)
    else questionLabel questionNumber in
  try_catch
    ((if truthy (q_context question)
      then addMessage (default "" (q_context question)) system
      else ret tt) ;;;
     response <- chat (q_question question) questionOptions ;;
     endTime <- now ;;
     s <- get_state ;;
     ret {| br_id := id;
            br_question := q_question question;
            br_context := q_context question;
            br_expectedResult := q_expectedResult question;
            br_response := response;
            br_toolCalls := batch_currentToolCalls (host s);
            br_success := true;
            br_error := None;
            br_processingTime := (endTime - startTime)%Z |})
    (fun error =>
       endTime <- now ;;
       s <- get_state ;;
       ret {| br_id := id;
              br_question := q_question question;
              br_context := q_context question;
              br_expectedResult := q_expectedResult question;
              br_response := "";
              br_toolCalls := batch_currentToolCalls (host s);
              br_success := false;
              br_error := Some (error_text error);
              br_processingTime := (endTime - startTime)%Z |}).

Definition push_result (r : BatchResult) : BM unit :=
  modify (fun s =>
            set_host (set_results (batch_results (host s) ++ [r])%list (host s)) s).

(** The sequential loop of [processFromFile] ([maxConcurrency === 1]) from
    index [i] on; [questions] are the records still to process.  The progress
    lines printed on the way are left out. *)
Fixpoint sequentialLoop (continueOnError : bool) (questions : list BatchQuestion)
    (i : nat) : BM unit :=
  match questions with
  | [] => ret tt
  | question :: rest =>
      o <- settle (processQuestion question (i + 1)) ;;
      goOn <-
        match o with
        | Returned result =>
            push_result result ;;;
            if br_success result then ret true
            else if negb continueOnError then ret false
            else ret true
        | Thrown error =>
            push_result
              {| br_id := questionLabel (i + 1);
                 br_question := q_question question;
                 br_context := q_context question;
                 br_expectedResult := q_expectedResult question;
                 br_response := "";
                 br_toolCalls := [];
                 br_success := false;
                 br_error := Some (error_text error);
                 br_processingTime := 0%Z |} ;;;
            if negb continueOnError then ret false else ret true
        end ;;
      if goOn : bool
      then clearMessages ;;; sequentialLoop continueOnError rest (i + 1)
      else ret tt
  end.

(** [processFromFile] between the loading of the questions and the saving of
    the results, on its sequential branch. *)
Definition processSequentially (questions : list BatchQuestion)
    (options : BatchOptions) : BM (list BatchResult) :=
  let continueOnError := default true (bo_continueOnError options) in
  modify (fun s => set_host (set_results [] (host s)) s) ;;;
  sequentialLoop continueOnError questions 0 ;;;
  s <- get_state ;;
  ret (batch_results (host s)).

End Batch.

(* ================================================================== *)
(** ** Sequences of hub operations *)

(** A caller's use of the hub: servers added (a failed [addServer] is caught
    and reported, as the start-up loops of the CLI and of the web server do),
    removed, or all disconnected. *)
Inductive HubOp : Type :=
| OpAddServer (config : McpServerWithName)
| OpRemoveServer (name : string)
| OpDisconnect.

Definition op_adds (name : string) (op : HubOp) : bool :=
  match op with
  | OpAddServer config => String.eqb (cfg_name config) name
  | _ => false
  end.

Section HubOps.

Context {World : Type} {collab : Collaborators World} {Host : Type}.

Definition run_op (op : HubOp) : M World Host unit :=
  match op with
  | OpAddServer config => try_catch (addServer config) (fun _ => ret tt)
  | OpRemoveServer name => removeServer name
  | OpDisconnect => disconnect
  end.

Fixpoint run_ops (ops : list HubOp) : M World Host unit :=
  match ops with
  | [] => ret tt
  | op :: rest => bind (run_op op) (fun _ => run_ops rest)
  end.

(** The catalog aggregation in the words of the design: the catalogs of the
    registered sessions whose connectivity flag is true, one after the other. *)
Definition catalogUnion {A} (f : McpConnection -> list A)
    (m : list (string * McpConnection)) : list A :=
  flat_map f (filter conn_connected (map snd m)).

End HubOps.

(* ================================================================== *)
(** ** A scripted outside world, to run the model on concrete inputs *)

Module Sim.

(** A tool server answers discovery with [srv_tools] and [srv_resources]
    ([None]: the request fails), refuses connections when [srv_up] is false,
    and echoes the arguments of every tool call unless the tool is in
    [srv_failing]. *)
Record Server : Type := {
  srv_name : string;
  srv_up : bool;
  srv_tools : option (list McpTool);
  srv_resources : option (list McpResource);
  srv_failing : list string
}.

(** The LLM answers with the successive entries of [llm_script], then with
    [llm_rest] for ever. *)
Record World : Type := {
  servers : list Server;
  llm_script : list (Outcome LLMResponse);
  llm_rest : Outcome LLMResponse;
  clock : Z
}.

Definition server (w : World) (config : McpServerWithName) : option Server :=
  find (fun srv => String.eqb (srv_name srv) (cfg_name config)) (servers w).

Definition unreachable : Error := ExternalError "Error" "connect ECONNREFUSED".

Definition refused : Error := ExternalError "McpError" "request failed".

Definition textItem (s : string) : ContentItem :=
  {| ci_type := "text"; ci_text := Some s; ci_data := None; ci_mimeType := None |}.

(** [JSON.stringify] and [JSON.parse] on the values the runs use: the empty
    object, the empty array, [null] and the booleans.  The empty text is
    rejected as [JSON.parse] rejects it; the runs use no other text. *)
Definition stringify (value : Json) : string :=
  match value with
  | JNull => "null"
  | JBool true => "true"
  | JBool false => "false"
  | JArr [] => "[]"
  | _ => "{}"
  end.

Definition parse (text : string) : Outcome Json :=
  if String.eqb text "" then
    Thrown (ExternalError "SyntaxError" "Unexpected end of JSON input")
  else if String.eqb text "{}" then Returned (JObj [])
  else if String.eqb text "[]" then Returned (JArr [])
  else if String.eqb text "null" then Returned JNull
  else if String.eqb text "true" then Returned (JBool true)
  else if String.eqb text "false" then Returned (JBool false)
  else Thrown (ExternalError "SyntaxError" "Unexpected token in JSON").

(** [new URL(url)] accepts an absolute [http] or [https] address. *)
Definition absoluteUrl (url : string) : bool :=
  (String.prefix "http://" url && negb (String.eqb url "http://"))
  || (String.prefix "https://" url && negb (String.eqb url "https://")).

(** The text a scripted server answers a tool call with: its arguments. *)
Definition argText (args : Json) : string := stringify args.

#[export] Instance collab : Collaborators World := {|
  new_URL := fun url =>
    if absoluteUrl url then None else Some (ExternalError "TypeError" "Invalid URL");
  client_connect := fun config w =>
    match server w config with
    | Some srv => (if srv_up srv then None else Some unreachable, w)
    | None => (Some unreachable, w)
    end;
  client_close := fun _ w => (None, w);
  request_tools_list := fun config _ w =>
    match server w config with
    | Some {| srv_tools := Some l |} => (Returned {| lt_tools := Some l |}, w)
    | _ => (Thrown refused, w)
    end;
  request_resources_list := fun config _ w =>
    match server w config with
    | Some {| srv_resources := Some l |} => (Returned {| lr_resources := Some l |}, w)
    | _ => (Thrown refused, w)
    end;
  request_tools_call := fun config name args _ w =>
    match server w config with
    | Some srv =>
        if existsb (String.eqb name) (srv_failing srv)
        then (Thrown refused, w)
        else (Returned {| raw_content := Some [textItem (argText args)];
                          raw_isError := None |}, w)
    | None => (Thrown refused, w)
    end;
  request_resources_read := fun _ _ _ w => (Thrown refused, w);
  llm_chat := fun _ _ _ w =>
    match llm_script w with
    | [] => (llm_rest w, w)
    | r :: rest =>
        (r, {| servers := servers w; llm_script := rest;
               llm_rest := llm_rest w; clock := clock w |})
    end;
  JSON_parse := parse;
  JSON_stringify := stringify;
  Date_now := fun w =>
    (clock w, {| servers := servers w; llm_script := llm_script w;
                 llm_rest := llm_rest w; clock := (clock w + 1)%Z |})
|}.

Definition stdio (name : string) : McpServerWithName :=
  {| cfg_name := name; cfg_type := "stdio"; cfg_command := Some "node";
     cfg_args := None; cfg_env := None; cfg_url := None; cfg_disabled := false;
     cfg_timeout := 60%Z; cfg_autoApprove := [] |}.

Definition tool (name : string) : McpTool :=
  {| tool_name := name; tool_description := None; tool_inputSchema := JObj [] |}.

Definition up (name : string) (tools : list string) : Server :=
  {| srv_name := name; srv_up := true; srv_tools := Some (map tool tools);
     srv_resources := Some []; srv_failing := [] |}.

Definition down (name : string) : Server :=
  {| srv_name := name; srv_up := false; srv_tools := None;
     srv_resources := None; srv_failing := [] |}.

Definition say (text : string) : Outcome LLMResponse :=
  Returned {| llm_content := text; llm_toolCalls := None; llm_usage := None |}.

Definition call (id name arguments : string) : ToolCall :=
  {| tc_id := id; tc_function_name := name; tc_function_arguments := arguments |}.

Definition request (text : string) (calls : list ToolCall) : Outcome LLMResponse :=
  Returned {| llm_content := text; llm_toolCalls := Some calls; llm_usage := None |}.

Definition worldOf (srvs : list Server) (script : list (Outcome LLMResponse))
    (rest : Outcome LLMResponse) : World :=
  {| servers := srvs; llm_script := script; llm_rest := rest; clock := 0%Z |}.

(** A fresh hub ([new McpHub()]) and engine in the given world. *)
Definition start {Host : Type} (h : Host) (w : World) : State World Host :=
  {| hub_connections := []; hub_timeoutMs := 30000%Z; chat_messages := [];
     world := w; trace := []; console := []; host := h |}.

Definition plainOptions : ChatOptions World unit :=
  {| opt_temperature := None; opt_maxTokens := None; opt_maxTurns := None;
     opt_autoExecuteTools := None; opt_onToolExecution := None |}.

End Sim.

(* ================================================================== *)
(** * Properties *)

Open Scope list_scope.

(** ** The map of sessions *)

Lemma map_delete_update_entry (name : string) (f : McpConnection -> McpConnection)
    (m : list (string * McpConnection)) :
  map_delete name (update_entry name f m) = map_delete name m.
Proof.
  induction m as [|[k v] m IH]; simpl; auto.
  destruct (String.eqb k name) eqn:E; simpl; rewrite E; simpl; congruence.
Qed.

Lemma map_get_delete_same (name : string) (m : list (string * McpConnection)) :
  map_get name (map_delete name m) = None.
Proof.
  unfold map_get, map_delete.
  induction m as [|[k v] m IH]; simpl; auto.
  destruct (String.eqb k name) eqn:E; simpl; auto.
  rewrite E. exact IH.
Qed.

Lemma map_get_delete_other (name other : string) (m : list (string * McpConnection)) :
  name <> other ->
  map_get name (map_delete other m) = map_get name m.
Proof.
  intros Hne. unfold map_get, map_delete.
  induction m as [|[k v] m IH]; simpl; auto.
  destruct (String.eqb k other) eqn:E; simpl.
  - apply String.eqb_eq in E. subst k.
    destruct (String.eqb other name) eqn:E'; auto.
    apply String.eqb_eq in E'. congruence.
  - destruct (String.eqb k name); auto.
Qed.

Lemma map_has_get (name : string) (m : list (string * McpConnection)) :
  map_has name m = true <-> exists c, map_get name m = Some c.
Proof.
  unfold map_has, map_get.
  induction m as [|[k v] m IH]; simpl.
  - split; [discriminate | intros [c H]; discriminate].
  - destruct (String.eqb k name); simpl.
    + split; eauto.
    + exact IH.
Qed.

Lemma map_get_In (name : string) (c : McpConnection) (m : list (string * McpConnection)) :
  map_get name m = Some c -> In (name, c) m.
Proof.
  unfold map_get.
  induction m as [|[k v] m IH]; simpl; [discriminate|].
  destruct (String.eqb k name) eqn:E; simpl.
  - apply String.eqb_eq in E. intros H. inversion H. subst. auto.
  - auto.
Qed.

Lemma map_get_None_keys (name : string) (m : list (string * McpConnection)) :
  map_get name m = None <-> ~ In name (map_keys m).
Proof.
  unfold map_get, map_keys.
  induction m as [|[k v] m IH]; simpl.
  - tauto.
  - destruct (String.eqb k name) eqn:E.
    + apply String.eqb_eq in E. split; [discriminate | tauto].
    + apply String.eqb_neq in E. tauto.
Qed.

(** Setting a key the map does not hold appends the entry. *)
Lemma map_set_fresh (name : string) (c : McpConnection) (m : list (string * McpConnection)) :
  map_get name m = None ->
  map_set name c m = (m ++ [(name, c)])%list.
Proof.
  unfold map_get.
  induction m as [|[k v] m IH]; simpl; auto.
  destruct (String.eqb k name) eqn:E; simpl; [discriminate|].
  intros H. rewrite IH; auto.
Qed.

Lemma map_keys_delete (name : string) (m : list (string * McpConnection)) :
  map_keys (map_delete name m) = filter (fun k => negb (String.eqb k name)) (map_keys m).
Proof.
  unfold map_keys, map_delete.
  induction m as [|[k v] m IH]; simpl; auto.
  destruct (String.eqb k name); simpl; congruence.
Qed.

Lemma NoDup_keys_delete (name : string) (m : list (string * McpConnection)) :
  NoDup (map_keys m) -> NoDup (map_keys (map_delete name m)).
Proof.
  intros H. rewrite map_keys_delete. apply NoDup_filter. exact H.
Qed.

(** The loop of [getAvailableTools] computes the union the design describes. *)
Lemma collect_catalogUnion {A} (f : McpConnection -> list A)
    (m : list (string * McpConnection)) :
  collect f m = catalogUnion f m.
Proof.
  unfold collect, catalogUnion, map_values.
  assert (G : forall (l : list McpConnection) (acc : list A),
             fold_left (fun acc connection =>
                          if conn_connected connection
                          then (acc ++ f connection)%list else acc) l acc
             = (acc ++ flat_map f (filter conn_connected l))%list).
  { induction l as [|c l IH]; intros acc; simpl.
    - now rewrite app_nil_r.
    - rewrite IH. destruct (conn_connected c); simpl; auto.
      now rewrite app_assoc. }
  apply (G (map snd m) []).
Qed.

Lemma catalogUnion_all_connected {A} (f : McpConnection -> list A)
    (m : list (string * McpConnection)) :
  Forall (fun kv => conn_connected (snd kv) = true) m ->
  catalogUnion f m = flat_map (fun kv => f (snd kv)) m.
Proof.
  unfold catalogUnion.
  induction 1 as [|[k v] m Hc _ IH]; simpl in *; auto.
  rewrite Hc. simpl. congruence.
Qed.

(** ** Reasoning about computations *)

Ltac unfold_monad :=
  unfold bind, ret, throw, try_catch, settle, unsettle, modify, get_state,
    emit, console_log, ask, ask_void, set_entry in *.

Section Frames.

Context {World : Type} {collab : Collaborators World} {Host : Type}.

Implicit Types s : State World Host.

(** [maintains R m]: whatever [m] settles to, the state it leaves is related
    by [R] to the state it started from. *)
Definition maintains {A} (R : State World Host -> State World Host -> Prop)
    (m : M World Host A) : Prop :=
  forall s, R s (snd (m s)).

(** [ensures Q m]: a value [m] returns satisfies [Q]. *)
Definition ensures {A} (Q : A -> Prop) (m : M World Host A) : Prop :=
  forall s a, fst (m s) = Returned a -> Q a.

Class Frame (R : State World Host -> State World Host -> Prop) : Prop := {
  frame_refl : forall s, R s s;
  frame_trans : forall s1 s2 s3, R s1 s2 -> R s2 s3 -> R s1 s3
}.

(** A component of the state is left as it was. *)
Definition keeps {X} (f : State World Host -> X) : State World Host -> State World Host -> Prop :=
  fun s s' => f s' = f s.

(** The trace only grows, by events that satisfy [P]. *)
Definition logs (P : Event -> Prop) : State World Host -> State World Host -> Prop :=
  fun s s' => exists evs, trace s' = (trace s ++ evs)%list /\ Forall P evs.

Definition both (R1 R2 : State World Host -> State World Host -> Prop)
  : State World Host -> State World Host -> Prop :=
  fun s s' => R1 s s' /\ R2 s s'.

#[export] Instance keeps_frame {X} (f : State World Host -> X) : Frame (keeps f).
Proof.
  split; unfold keeps; intros; congruence.
Qed.

#[export] Instance logs_frame (P : Event -> Prop) : Frame (logs P).
Proof.
  split; unfold logs.
  - intros s. exists []. rewrite app_nil_r. auto.
  - intros s1 s2 s3 (e1 & H1 & F1) (e2 & H2 & F2).
    exists (e1 ++ e2)%list. rewrite H2, H1, app_assoc. split; auto.
    apply Forall_app; auto.
Qed.

#[export] Instance both_frame R1 R2 `{Frame R1} `{Frame R2} : Frame (both R1 R2).
Proof.
  split; unfold both.
  - intros s. split; apply frame_refl.
  - intros s1 s2 s3 [A1 A2] [B1 B2]. split; eapply frame_trans; eauto.
Qed.

Section Rules.

Variable R : State World Host -> State World Host -> Prop.
Context `{Frame R}.

Lemma maintains_ret {A} (a : A) : maintains R (ret a).
Proof. intros s. apply frame_refl. Qed.

Lemma maintains_throw {A} (e : Error) : maintains R (throw (A := A) e).
Proof. intros s. apply frame_refl. Qed.

Lemma maintains_get_state : maintains R get_state.
Proof. intros s. apply frame_refl. Qed.

Lemma maintains_bind {A B} (m : M World Host A) (k : A -> M World Host B) :
  maintains R m -> (forall a, maintains R (k a)) -> maintains R (bind m k).
Proof.
  intros Hm Hk s. unfold bind. specialize (Hm s).
  destruct (m s) as [[a|e] s1]; simpl in *; auto.
  eapply frame_trans; [exact Hm|apply Hk].
Qed.

Lemma maintains_try_catch {A} (m : M World Host A) (h : Error -> M World Host A) :
  maintains R m -> (forall e, maintains R (h e)) -> maintains R (try_catch m h).
Proof.
  intros Hm Hh s. unfold try_catch. specialize (Hm s).
  destruct (m s) as [[a|e] s1]; simpl in *; auto.
  eapply frame_trans; [exact Hm|apply Hh].
Qed.

Lemma maintains_settle {A} (m : M World Host A) :
  maintains R m -> maintains R (settle m).
Proof.
  intros Hm s. unfold settle. specialize (Hm s).
  destruct (m s) as [[a|e] s1]; simpl in *; auto.
Qed.

Lemma maintains_unsettle {A} (o : Outcome A) : maintains R (unsettle o).
Proof. destruct o; intros s; apply frame_refl. Qed.

Lemma maintains_modify (f : State World Host -> State World Host) :
  (forall s, R s (f s)) -> maintains R (modify f).
Proof. intros Hf s. apply Hf. Qed.

Lemma maintains_pure {A} (o : Outcome A) : maintains R (fun s => (o, s)).
Proof. intros s. apply frame_refl. Qed.

Lemma maintains_ask {A} (f : World -> Outcome A * World) :
  (forall s w, R s (set_world w s)) -> maintains R (ask f).
Proof.
  intros Hw s. unfold ask. destruct (f (world s)) as [r w]. apply Hw.
Qed.

Lemma maintains_ask_void (f : World -> option Error * World) :
  (forall s w, R s (set_world w s)) -> maintains R (ask_void f).
Proof.
  intros Hw s. unfold ask_void. destruct (f (world s)) as [r w]. apply Hw.
Qed.

Lemma maintains_notify (obs : option (Observer World Host)) (info : ToolExecutionInfo) :
  (forall s h w, R s (set_world w (set_host h s))) -> maintains R (notify obs info).
Proof.
  intros Hw s. destruct obs as [f|]; simpl.
  - destruct (f info (host s) (world s)) as [[r h] w]. apply Hw.
  - apply frame_refl.
Qed.

End Rules.

Lemma ensures_ret {A} (Q : A -> Prop) (a : A) : Q a -> ensures Q (ret a).
Proof. intros Ha s a' E. inversion E. subst. exact Ha. Qed.

Lemma ensures_throw {A} (Q : A -> Prop) (e : Error) : ensures Q (throw e).
Proof. intros s a E. discriminate. Qed.

Lemma ensures_bind {A B} (Q : B -> Prop) (m : M World Host A) (k : A -> M World Host B) :
  (forall a, ensures Q (k a)) -> ensures Q (bind m k).
Proof.
  intros Hk s b. unfold bind.
  destruct (m s) as [[a|e] s1]; simpl; [apply Hk|discriminate].
Qed.

Lemma bind_returned {A B} (m : M World Host A) (k : A -> M World Host B) s a s1 :
  m s = (Returned a, s1) -> bind m k s = k a s1.
Proof. intros E. unfold bind. now rewrite E. Qed.

Lemma bind_thrown {A B} (m : M World Host A) (k : A -> M World Host B) s e s1 :
  m s = (Thrown e, s1) -> bind m k s = (Thrown e, s1).
Proof. intros E. unfold bind. now rewrite E. Qed.

End Frames.

(** Steps that leave a relation on the connections, the transcript and the
    trace to check on a single write. *)
Ltac frame_leaf :=
  intros; unfold both, keeps, logs; simpl;
  repeat match goal with
         | |- _ /\ _ => split
         | |- _ = _ => reflexivity
         | |- exists evs, ?t = (?t ++ evs)%list /\ _ =>
             exists []; rewrite app_nil_r; split; [reflexivity|constructor]
         | |- exists evs, (?t ++ [?e])%list = (?t ++ evs)%list /\ _ =>
             exists [e]; split; [reflexivity|repeat constructor; simpl; auto]
         end;
  auto.

Ltac frame_step :=
  lazymatch goal with
  | |- maintains _ (ret _) => apply maintains_ret
  | |- maintains _ (throw _) => apply maintains_throw
  | |- maintains _ get_state => apply maintains_get_state
  | |- maintains _ (unsettle _) => apply maintains_unsettle
  | |- maintains _ (settle _) => apply maintains_settle
  | |- maintains _ (bind _ _) => apply maintains_bind; [..|intro]
  | |- maintains _ (try_catch _ _) => apply maintains_try_catch; [..|intro]
  | |- maintains _ (modify _) => apply maintains_modify; frame_leaf
  | |- maintains _ (ask _) => apply maintains_ask; frame_leaf
  | |- maintains _ (ask_void _) => apply maintains_ask_void; frame_leaf
  | |- maintains _ (notify _ _) =>
      first [ solve [auto] | apply maintains_notify; frame_leaf ]
  | |- maintains _ (if ?b then _ else _) => destruct b
  | |- maintains _ (match ?x with _ => _ end) => destruct x
  | |- maintains _ (fun s => (_, s)) => apply maintains_pure
  end.

Ltac frame := repeat (frame_step; try typeclasses eauto).

(** ** The hub *)

Section HubProperties.

Context {World : Type} {collab : Collaborators World} {Host : Type}.

Implicit Types s : State World Host.

Lemma disconnectConnection_spec (name : string) (c : McpConnection) s :
  exists s' evs,
    disconnectConnection name c s = (Returned tt, s')
    /\ map_delete name (hub_connections s') = map_delete name (hub_connections s)
    /\ chat_messages s' = chat_messages s
    /\ trace s' = (trace s ++ EvClose (conn_config c) :: evs)%list.
Proof.
  unfold disconnectConnection. unfold_monad. simpl.
  destruct (client_close (conn_config c) (world s)) as [[e|] w]; simpl;
    (destruct (conn_process c) as [p|]; [destruct (proc_killed p)|]); simpl;
    eexists; eexists; (split; [reflexivity|]); simpl;
    rewrite ?map_delete_update_entry; (split; [reflexivity|]);
    (split; [reflexivity|]);
    rewrite <- ?app_assoc; simpl; reflexivity.
Qed.

(** [removeServer] never throws and leaves the map without the name. *)
Lemma removeServer_spec (name : string) s :
  exists s',
    removeServer name s = (Returned tt, s')
    /\ hub_connections s' = map_delete name (hub_connections s)
    /\ chat_messages s' = chat_messages s
    /\ (forall c, map_get name (hub_connections s) = Some c ->
        exists evs, trace s' = (trace s ++ EvClose (conn_config c) :: evs)%list)
    /\ (map_get name (hub_connections s) = None -> s' = s).
Proof.
  unfold removeServer. unfold bind at 1. unfold get_state at 1.
  destruct (map_get name (hub_connections s)) as [c|] eqn:G.
  - destruct (disconnectConnection_spec name c s) as (s1 & evs & E & Hd & Hm & Ht).
    unfold bind at 1. rewrite E. unfold_monad. simpl.
    eexists. split; [reflexivity|]. simpl.
    rewrite <- Hd.
    split; [reflexivity|].
    split; [exact Hm|]. split.
    + intros c' Hc'. inversion Hc'. subst c'. exists evs. exact Ht.
    + discriminate.
  - exists s. unfold ret. split; [reflexivity|]. split.
    + symmetry. unfold map_delete.
      apply map_get_None_keys in G. unfold map_keys in G.
      induction (hub_connections s) as [|[k v] m IH]; simpl in *; auto.
      destruct (String.eqb k name) eqn:E.
      * apply String.eqb_eq in E. tauto.
      * simpl. f_equal. apply IH. tauto.
    + split; [reflexivity|]. split; [discriminate|reflexivity].
Qed.

(** [createConnection] does not touch the map or the transcript; it talks to
    the server of [config] only, and a connection it returns is flagged
    connected. *)
Lemma createConnection_maintains (config : McpServerWithName) :
  maintains (Host := Host)
            (both (keeps hub_connections)
                  (both (keeps chat_messages) (logs (fun _ => True))))
            (createConnection config).
Proof.
  unfold createConnection, client_request_tools_list,
    client_request_resources_list, emit.
  frame.
Qed.

Lemma createConnection_ensures (config : McpServerWithName) :
  ensures (fun c => conn_connected c = true /\ conn_config c = config)
          (createConnection (Host := Host) config).
Proof.
  unfold createConnection.
  repeat (apply ensures_bind; intro).
  apply ensures_ret. split; reflexivity.
Qed.

(** What [addServer] leaves in the map: the session under the name is
    removed first; the new one is entered, last, only when the connection
    succeeded. *)
Lemma addServer_spec (config : McpServerWithName) s :
  exists s',
    chat_messages s' = chat_messages s
    /\ ((exists e,
           addServer config s = (Thrown e, s')
           /\ hub_connections s' = map_delete (cfg_name config) (hub_connections s))
        \/ (exists c,
              addServer config s = (Returned tt, s')
              /\ conn_connected c = true
              /\ conn_config c = config
              /\ hub_connections s' =
                   (map_delete (cfg_name config) (hub_connections s)
                    ++ [(cfg_name config, c)])%list))
    /\ (forall old, map_get (cfg_name config) (hub_connections s) = Some old ->
         exists evs, trace s' = (trace s ++ EvClose (conn_config old) :: evs)%list).
Proof.
  assert (R : exists s1,
             (if map_has (cfg_name config) (hub_connections s)
              then removeServer (cfg_name config) else ret tt) s = (Returned tt, s1)
             /\ hub_connections s1 = map_delete (cfg_name config) (hub_connections s)
             /\ chat_messages s1 = chat_messages s
             /\ (forall old, map_get (cfg_name config) (hub_connections s) = Some old ->
                 exists evs, trace s1 = (trace s ++ EvClose (conn_config old) :: evs)%list)).
  { destruct (removeServer_spec (cfg_name config) s) as (s1 & E & Hc & Hm & Ht & Hs).
    destruct (map_has (cfg_name config) (hub_connections s)) eqn:Hh.
    - exists s1. auto.
    - exists s. split; [reflexivity|].
      assert (G : map_get (cfg_name config) (hub_connections s) = None).
      { destruct (map_get (cfg_name config) (hub_connections s)) eqn:G; auto.
        assert (map_has (cfg_name config) (hub_connections s) = true)
          by (apply map_has_get; eauto).
        congruence. }
      rewrite (Hs G) in Hc.
      split; [exact Hc|]. split; [reflexivity|].
      intros old Ho. congruence. }
  destruct R as (s1 & E1 & Hc1 & Hm1 & Ht1).
  destruct (createConnection_maintains config s1) as (Hc2 & Hm2 & evs2 & Ht2 & _).
  unfold keeps in Hc2, Hm2.
  pose proof (createConnection_ensures config s1) as Hr2.
  unfold addServer.
  rewrite (bind_returned _ _ s (a := s) (s1 := s)) by reflexivity.
  rewrite (bind_returned _ _ s E1).
  destruct (createConnection config s1) as [[c|e] s2] eqn:E2; simpl in *.
  - destruct (Hr2 c eq_refl) as (Hconn & Hcfg).
    rewrite (bind_returned _ _ s1 E2).
    eexists. split; [|split].
    2:{ right. exists c. split; [reflexivity|]. split; [exact Hconn|].
        split; [exact Hcfg|]. simpl.
        rewrite Hc2, Hc1. apply map_set_fresh. apply map_get_delete_same. }
    + simpl. congruence.
    + intros old Ho. destruct (Ht1 old Ho) as (evs & Ht). simpl.
      rewrite Ht2, Ht. rewrite <- app_assoc. simpl. eauto.
  - rewrite (bind_thrown _ _ s1 E2).
    exists s2. split; [congruence|]. split.
    + left. exists e. split; [reflexivity|]. congruence.
    + intros old Ho. destruct (Ht1 old Ho) as (evs & Ht).
      rewrite Ht2, Ht. rewrite <- app_assoc. simpl. eauto.
Qed.

Lemma disconnect_each_spec (entries : list (string * McpConnection)) s :
  exists s',
    disconnect_each entries s = (Returned tt, s')
    /\ chat_messages s' = chat_messages s.
Proof.
  revert s. induction entries as [|[name c] rest IH]; intros s; simpl.
  - exists s. split; reflexivity.
  - destruct (disconnectConnection_spec name c s) as (s1 & evs & E & _ & Hm & _).
    unfold bind. rewrite E.
    destruct (IH s1) as (s2 & E2 & Hm2).
    exists s2. split; [exact E2|congruence].
Qed.

Lemma disconnect_spec s :
  exists s',
    disconnect s = (Returned tt, s')
    /\ hub_connections s' = []
    /\ chat_messages s' = chat_messages s.
Proof.
  unfold disconnect. unfold bind at 1. unfold get_state at 1.
  destruct (disconnect_each_spec (hub_connections s) s) as (s1 & E & Hm).
  unfold bind at 1. rewrite E. unfold modify. simpl.
  eexists. split; [reflexivity|]. simpl. auto.
Qed.

(** The sessions a well-used hub holds: one per name, each flagged connected. *)
Definition live (m : list (string * McpConnection)) : Prop :=
  NoDup (map_keys m) /\ Forall (fun kv => conn_connected (snd kv) = true) m.

Lemma live_delete (name : string) (m : list (string * McpConnection)) :
  live m -> live (map_delete name m).
Proof.
  intros [Hn Hc]. split.
  - now apply NoDup_keys_delete.
  - unfold map_delete. rewrite Forall_forall in *. intros kv Hin.
    apply filter_In in Hin. apply Hc. tauto.
Qed.

Lemma live_add (name : string) (c : McpConnection) (m : list (string * McpConnection)) :
  live m -> conn_connected c = true ->
  live (map_delete name m ++ [(name, c)])%list.
Proof.
  intros Hl Hc. destruct (live_delete name Hl) as [Hn Hf]. split.
  - unfold map_keys in *. rewrite map_app. simpl.
    apply (NoDup_Add (Add_app name (map fst (map_delete name m)) [])).
    rewrite app_nil_r. split; auto.
    apply (map_get_None_keys name (map_delete name m)).
    apply map_get_delete_same.
  - apply Forall_app. split; auto.
Qed.

(** What one operation of a caller does to the map; it never throws. *)
Lemma run_op_spec (op : HubOp) s :
  exists s',
    run_op op s = (Returned tt, s')
    /\ match op with
       | OpAddServer config =>
           hub_connections s' = map_delete (cfg_name config) (hub_connections s)
           \/ exists c, conn_connected c = true
                        /\ hub_connections s' =
                             (map_delete (cfg_name config) (hub_connections s)
                              ++ [(cfg_name config, c)])%list
       | OpRemoveServer name =>
           hub_connections s' = map_delete name (hub_connections s)
       | OpDisconnect => hub_connections s' = []
       end.
Proof.
  destruct op as [config|name|]; simpl.
  - destruct (addServer_spec config s) as (s' & _ & [(e & E & Hc)|(c & E & Hconn & _ & Hc)] & _).
    + exists s'. unfold try_catch. rewrite E. split; [reflexivity|]. now left.
    + exists s'. unfold try_catch. rewrite E. split; [reflexivity|]. right. eauto.
  - destruct (removeServer_spec name s) as (s' & E & Hc & _). eauto.
  - destruct (disconnect_spec s) as (s' & E & Hc & _). eauto.
Qed.

Lemma run_ops_cons (op : HubOp) (ops : list HubOp) s :
  snd (run_ops (op :: ops) s) = snd (run_ops ops (snd (run_op op s))).
Proof.
  simpl. destruct (run_op_spec op s) as (s' & E & _).
  rewrite (bind_returned _ _ s E). now rewrite E.
Qed.

Lemma run_ops_app (ops1 ops2 : list HubOp) s :
  snd (run_ops (ops1 ++ ops2) s) = snd (run_ops ops2 (snd (run_ops ops1 s))).
Proof.
  revert s. induction ops1 as [|op ops1 IH]; intros s.
  - reflexivity.
  - rewrite <- app_comm_cons. rewrite !run_ops_cons. apply IH.
Qed.

Lemma run_ops_returns (ops : list HubOp) s :
  fst (run_ops ops s) = Returned tt.
Proof.
  revert s. induction ops as [|op ops IH]; intros s; simpl; auto.
  destruct (run_op_spec op s) as (s' & E & _).
  rewrite (bind_returned _ _ s E). apply IH.
Qed.

Lemma run_ops_live (ops : list HubOp) s :
  live (hub_connections s) -> live (hub_connections (snd (run_ops ops s))).
Proof.
  revert s. induction ops as [|op ops IH]; intros s Hl; auto.
  rewrite run_ops_cons. apply IH.
  destruct (run_op_spec op s) as (s' & E & Hop). rewrite E. simpl.
  destruct op as [config|name|].
  - destruct Hop as [Hc|(c & Hconn & Hc)]; rewrite Hc.
    + now apply live_delete.
    + now apply live_add.
  - rewrite Hop. now apply live_delete.
  - rewrite Hop. split; constructor.
Qed.

(** A name stays absent as long as no [addServer] names it. *)
Lemma run_ops_absent (name : string) (ops : list HubOp) s :
  forallb (fun op => negb (op_adds name op)) ops = true ->
  map_get name (hub_connections s) = None ->
  map_get name (hub_connections (snd (run_ops ops s))) = None.
Proof.
  revert s. induction ops as [|op ops IH]; intros s Hops Habs; auto.
  simpl in Hops. apply andb_true_iff in Hops. destruct Hops as [Hop Hops].
  rewrite run_ops_cons. apply IH; auto.
  destruct (run_op_spec op s) as (s' & E & Hspec). rewrite E. simpl.
  assert (D : forall other, map_get name (map_delete other (hub_connections s)) = None).
  { intros other. destruct (String.eqb name other) eqn:En.
    - apply String.eqb_eq in En. subst. apply map_get_delete_same.
    - apply String.eqb_neq in En. rewrite map_get_delete_other; auto. }
  destruct op as [config|other|]; simpl in *.
  - destruct Hspec as [Hc|(c & _ & Hc)]; rewrite Hc; auto.
    apply map_get_None_keys. unfold map_keys. rewrite map_app, in_app_iff. simpl.
    intros [Hin|[Heq|[]]].
    + specialize (D (cfg_name config)). apply map_get_None_keys in D. auto.
    + apply negb_true_iff in Hop. apply String.eqb_neq in Hop. congruence.
  - rewrite Hspec. auto.
  - rewrite Hspec. reflexivity.
Qed.

Lemma catalogUnion_app {A} (f : McpConnection -> list A)
    (m1 m2 : list (string * McpConnection)) :
  catalogUnion f (m1 ++ m2) = (catalogUnion f m1 ++ catalogUnion f m2)%list.
Proof.
  unfold catalogUnion. now rewrite map_app, filter_app, flat_map_app.
Qed.

Lemma map_get_app_fresh (name : string) (c : McpConnection)
    (m : list (string * McpConnection)) :
  map_get name m = None -> map_get name (m ++ [(name, c)]) = Some c.
Proof.
  unfold map_get. intros H.
  induction m as [|[k v] m IH]; simpl in *.
  - now rewrite String.eqb_refl.
  - destruct (String.eqb k name); [discriminate|auto].
Qed.

(** The requests a computation sends to tool servers carry no request options. *)
Definition bare_request (ev : Event) : Prop :=
  match ev with
  | EvRequest _ _ options => options = None
  | EvLlmChat _ _ _ => False
  | _ => False
  end.

(** [callTool] reads the hub and talks to one server; it changes neither the
    map nor the transcript. *)
Lemma callTool_maintains (request : McpToolCallRequest) :
  maintains (Host := Host)
            (both (keeps hub_connections)
                  (both (keeps chat_messages) (logs bare_request)))
            (callTool request).
Proof.
  unfold callTool, client_request_tools_call, emit.
  frame.
Qed.

Lemma readResource_maintains (request : McpResourceRequest) :
  maintains (Host := Host)
            (both (keeps hub_connections)
                  (both (keeps chat_messages) (logs bare_request)))
            (readResource request).
Proof.
  unfold readResource, client_request_resources_read, emit.
  frame.
Qed.

(** The outcome of [callTool] on a connected session that lists the tool. *)
Lemma callTool_forwarded (request : McpToolCallRequest) (c : McpConnection)
    (t : McpTool) s :
  map_get (req_serverName request) (hub_connections s) = Some c ->
  conn_connected c = true ->
  find (fun t => String.eqb (tool_name t) (req_toolName request)) (conn_tools c)
  = Some t ->
  let answer :=
    request_tools_call (conn_config c) (req_toolName request)
                       (req_arguments request) None (world s) in
  let s' :=
    set_world (snd answer)
      (set_trace (trace s ++ [EvRequest (conn_config c)
                                 (ToolsCall (req_toolName request)
                                            (req_arguments request)) None]) s) in
  callTool request s =
  (match fst answer with
   | Returned result =>
       Returned {| resp_content := default [] (raw_content result);
                   resp_isError := Some (default false (raw_isError result)) |}
   | Thrown cause => Thrown (FailedToCallTool (req_toolName request) cause)
   end, s').
Proof.
  intros Hg Hc Hf. unfold callTool.
  rewrite (bind_returned _ _ s (a := s) (s1 := s)) by reflexivity.
  rewrite Hg, Hc, Hf. simpl.
  unfold try_catch, client_request_tools_call, bind, emit, modify, ask, ret, throw.
  simpl.
  destruct (request_tools_call (conn_config c) (req_toolName request)
              (req_arguments request) None (world s)) as [[result|cause] w];
    reflexivity.
Qed.

(** C1.  After any sequence of [addServer], [removeServer] and [disconnect]
    calls, [getAvailableTools()] is the concatenation of the tool catalogs of
    the registered sessions whose [connected] flag is true, each catalog
    taken once, and [getAvailableResources()] likewise for resources.  On a
    hub that started empty the registered sessions have distinct names and all
    are connected, so every registered session contributes its catalog once;
    and a server removed and not added again is not registered, so none of its
    tools is listed. *)
Theorem hub_catalog_is_union_of_connected_sessions (ops : list HubOp) s :
  let s' := snd (run_ops ops s) in
  getAvailableTools s' = catalogUnion conn_tools (hub_connections s')
  /\ getAvailableResources s' = catalogUnion conn_resources (hub_connections s')
  /\ (hub_connections s = [] ->
      NoDup (map_keys (hub_connections s'))
      /\ getAvailableTools s' =
           flat_map (fun kv => conn_tools (snd kv)) (hub_connections s')
      /\ getAvailableResources s' =
           flat_map (fun kv => conn_resources (snd kv)) (hub_connections s'))
  /\ (forall before name after,
        ops = (before ++ OpRemoveServer name :: after)%list ->
        forallb (fun op => negb (op_adds name op)) after = true ->
        map_get name (hub_connections s') = None).
Proof.
  intros s'. unfold getAvailableTools, getAvailableResources.
  rewrite !collect_catalogUnion.
  split; [reflexivity|]. split; [reflexivity|]. split.
  - intros Hempty.
    assert (Hl : live (hub_connections s')).
    { apply run_ops_live. rewrite Hempty. split; constructor. }
    destruct Hl as [Hn Hc]. split; [exact Hn|].
    split; apply catalogUnion_all_connected; exact Hc.
  - intros before name after Hops Hafter. subst s' ops.
    rewrite run_ops_app, run_ops_cons.
    apply run_ops_absent; auto.
    destruct (removeServer_spec name (snd (run_ops before s))) as (s1 & E & Hc & _).
    simpl. rewrite E. simpl. rewrite Hc. apply map_get_delete_same.
Qed.

(** C2.  [addServer(d)] on a hub that holds a session under [d.name] first
    closes that session (its close is the first call sent out) and drops it
    from the map; the new connection is attempted in the state this leaves,
    so everything the attempt sends comes after the close.  [addServer]
    settles as the attempt does.  Whether the attempt fails or succeeds, the
    old session is gone: the map is the map before the call without the
    entry of the name, followed by the new session when there is one, and
    [getAvailableTools()] lists the tools of the other sessions followed by
    those the new session discovered.  A tool that only the old session
    offered is therefore no longer listed. *)
Theorem readding_discards_the_old_session (config : McpServerWithName)
    (old : McpConnection) s :
  map_get (cfg_name config) (hub_connections s) = Some old ->
  let name := cfg_name config in
  let s1 := snd (removeServer name s) in
  let attempt := createConnection config s1 in
  let s' := snd (addServer config s) in
  (exists evs, trace s1 = (trace s ++ EvClose (conn_config old) :: evs)%list)
  /\ hub_connections s1 = map_delete name (hub_connections s)
  /\ (exists evs, trace (snd attempt) = (trace s1 ++ evs)%list)
  /\ trace s' = trace (snd attempt)
  /\ fst (addServer config s)
     = match fst attempt with
       | Returned _ => Returned tt
       | Thrown e => Thrown e
       end
  /\ hub_connections s'
     = (map_delete name (hub_connections s)
        ++ match fst attempt with
           | Returned c => [(name, c)]
           | Thrown _ => []
           end)%list
  /\ getAvailableTools s'
     = (catalogUnion conn_tools (map_delete name (hub_connections s))
        ++ match fst attempt with
           | Returned c => conn_tools c
           | Thrown _ => []
           end)%list
  /\ (forall t,
        In t (conn_tools old) ->
        ~ In t (catalogUnion conn_tools (map_delete name (hub_connections s))) ->
        (forall c, fst attempt = Returned c -> ~ In t (conn_tools c)) ->
        ~ In t (getAvailableTools s')).
Proof.
  intros Hold name s1 attempt s'.
  destruct (removeServer_spec name s) as (r1 & E1 & Hc1 & _ & Ht1 & _).
  assert (Hs1 : s1 = r1) by (subst s1; now rewrite E1).
  assert (Hhas : map_has name (hub_connections s) = true)
    by (apply map_has_get; eauto).
  destruct (createConnection_maintains config r1) as (Hc2 & _ & evs2 & Ht2 & _).
  unfold keeps in Hc2.
  pose proof (createConnection_ensures config r1) as Hr2.
  assert (Hgone : map_get name (map_delete name (hub_connections s)) = None)
    by apply map_get_delete_same.
  assert (Eadd : addServer config s
                 = match createConnection config r1 with
                   | (Returned c, s2) =>
                       (Returned tt,
                        set_console
                          (console s2
                           ++ [LogConnected name;
                               LogTools (map tool_name (conn_tools c));
                               LogResources (map res_uri (conn_resources c))])
                          (set_connections
                             (map_delete name (hub_connections s) ++ [(name, c)]) s2))
                   | (Thrown e, s2) => (Thrown e, s2)
                   end).
  { unfold addServer.
    rewrite (bind_returned _ _ s (a := s) (s1 := s)) by reflexivity.
    fold name. rewrite Hhas. rewrite (bind_returned _ _ s E1).
    unfold bind at 1.
    destruct (createConnection config r1) as [[c|e] s2]; [|reflexivity].
    simpl in Hc2. unfold bind, modify, console_log. unfold modify.
    cbn [fst snd]. unfold set_console, set_connections. simpl.
    rewrite Hc2, Hc1, (map_set_fresh name c _ Hgone), <- !app_assoc.
    reflexivity. }
  subst s' attempt. rewrite Hs1, Eadd. clear Eadd.
  destruct (createConnection config r1) as [[c|e] s2] eqn:E2;
    cbn [fst snd] in *.
  - destruct (Hr2 c eq_refl) as (Hconn & _).
    assert (Htools : getAvailableTools
                       (set_console
                          (console s2
                           ++ [LogConnected name;
                               LogTools (map tool_name (conn_tools c));
                               LogResources (map res_uri (conn_resources c))])
                          (set_connections
                             (map_delete name (hub_connections s) ++ [(name, c)]) s2))
                     = catalogUnion conn_tools (map_delete name (hub_connections s))
                       ++ conn_tools c).
    { unfold getAvailableTools. cbn [hub_connections set_console set_connections].
      rewrite collect_catalogUnion, catalogUnion_app. f_equal.
      unfold catalogUnion. simpl. rewrite Hconn. simpl. apply app_nil_r. }
    split; [exact (Ht1 old Hold)|]. split; [exact Hc1|].
    split; [exists evs2; exact Ht2|]. split; [reflexivity|].
    split; [reflexivity|]. split; [reflexivity|]. split; [exact Htools|].
    intros t _ Hother Hnew. rewrite Htools, in_app_iff.
    intros [Hin|Hin]; [exact (Hother Hin)|exact (Hnew c eq_refl Hin)].
  - assert (Htools : getAvailableTools s2
                     = catalogUnion conn_tools (map_delete name (hub_connections s)) ++ []).
    { unfold getAvailableTools. rewrite collect_catalogUnion, Hc2, Hc1.
      now rewrite app_nil_r. }
    split; [exact (Ht1 old Hold)|]. split; [exact Hc1|].
    split; [exists evs2; exact Ht2|]. split; [reflexivity|].
    split; [reflexivity|]. split; [rewrite Hc2, Hc1; now rewrite app_nil_r|].
    split; [exact Htools|].
    intros t _ Hother _. rewrite Htools, app_nil_r. exact Hother.
Qed.

(** C7, as the code has it.  When [addServer(d)] fails, no session is
    registered under [d.name] and every session registered under another name
    is left as it was, in the same order: the map is the map before the call
    without the entry of [d.name].  It is exactly the map before the call when
    no session was registered under [d.name]. *)
Theorem failed_addServer_keeps_the_other_sessions (config : McpServerWithName)
    (e : Error) s :
  fst (addServer config s) = Thrown e ->
  let s' := snd (addServer config s) in
  map_get (cfg_name config) (hub_connections s') = None
  /\ hub_connections s' = map_delete (cfg_name config) (hub_connections s)
  /\ (forall other, other <> cfg_name config ->
      map_get other (hub_connections s') = map_get other (hub_connections s))
  /\ (map_get (cfg_name config) (hub_connections s) = None ->
      hub_connections s' = hub_connections s).
Proof.
  intros He s'. subst s'.
  destruct (addServer_spec config s) as (s' & _ & Hcase & _).
  destruct Hcase as [(e' & E & Hc)|(c & E & _)]; rewrite E in *; simpl in *;
    [|discriminate].
  rewrite Hc. split; [apply map_get_delete_same|]. split; [reflexivity|]. split.
  - intros other Hne. now apply map_get_delete_other.
  - intros Hnone.
    destruct (removeServer_spec (cfg_name config) s) as (s1 & _ & Hd & _ & _ & Hs).
    rewrite <- Hd. now rewrite (Hs Hnone).
Qed.

(** C5.  [callTool] throws the not-connected error exactly when no session is
    registered under the server name or the session is flagged disconnected.
    On a connected session it throws the tool-not-found error exactly when no
    tool of the catalog has the requested name; otherwise the request is
    forwarded, a failure of the transport comes back wrapped in the
    tool-execution error that carries it, and an answer comes back with its
    content items and the error flag the server set. *)
Theorem callTool_outcomes (request : McpToolCallRequest) s :
  let session := map_get (req_serverName request) (hub_connections s) in
  let outcome := fst (callTool request s) in
  ((exists e, outcome = Thrown e /\ is_not_connected e = true)
   <-> (session = None
        \/ exists c, session = Some c /\ conn_connected c = false))
  /\ (forall c, session = Some c -> conn_connected c = true ->
      ((exists e, outcome = Thrown e /\ is_tool_not_found e = true)
       <-> (forall t, In t (conn_tools c) ->
                      tool_name t <> req_toolName request))
      /\ (forall t, In t (conn_tools c) ->
                    tool_name t = req_toolName request ->
           match fst (request_tools_call (conn_config c) (req_toolName request)
                        (req_arguments request) None (world s)) with
           | Thrown cause =>
               outcome = Thrown (FailedToCallTool (req_toolName request) cause)
               /\ is_tool_execution (FailedToCallTool (req_toolName request) cause)
                  = true
           | Returned result =>
               outcome =
               Returned {| resp_content := default [] (raw_content result);
                           resp_isError :=
                             Some (default false (raw_isError result)) |}
           end)).
Proof.
  intros session outcome. subst session outcome.
  destruct (map_get (req_serverName request) (hub_connections s)) as [c|] eqn:Hg.
  - destruct (conn_connected c) eqn:Hc.
    + destruct (find (fun t => String.eqb (tool_name t) (req_toolName request))
                     (conn_tools c)) as [t|] eqn:Hf.
      * pose proof (callTool_forwarded request s Hg Hc Hf) as E.
        cbv zeta in E. rewrite E. simpl.
        destruct (find_some _ _ Hf) as [Hin Hname]. apply String.eqb_eq in Hname.
        split; [|intros c' Hc' _; inversion Hc'; subst c'; split].
        -- split.
           ++ intros (e & He & Hk).
              destruct (fst (request_tools_call _ _ _ _ _)); inversion He; subst e;
                discriminate.
           ++ intros [H|(c' & H & H')]; [discriminate|].
              inversion H. subst c'. congruence.
        -- split.
           ++ intros (e & He & Hk).
              destruct (fst (request_tools_call _ _ _ _ _)); inversion He; subst e;
                discriminate.
           ++ intros Habs. exfalso. exact (Habs t Hin Hname).
        -- intros t' _ _.
           destruct (fst (request_tools_call _ _ _ _ _)); auto.
      * assert (E : callTool request s =
                    (Thrown (ToolNotFoundOnServer (req_toolName request)
                                                  (req_serverName request)), s)).
        { unfold callTool.
          rewrite (bind_returned _ _ s (a := s) (s1 := s)) by reflexivity.
          now rewrite Hg, Hc, Hf. }
        rewrite E. simpl.
        split; [|intros c' Hc' _; inversion Hc'; subst c'; split].
        -- split.
           ++ intros (e & He & Hk). inversion He. subst e. discriminate.
           ++ intros [H|(c' & H & H')]; [discriminate|].
              inversion H. subst c'. congruence.
        -- split.
           ++ intros _ t Hin Hname. apply String.eqb_eq in Hname.
              pose proof (find_none _ _ Hf t Hin) as Hn. simpl in Hn. congruence.
           ++ intros _. eexists. split; reflexivity.
        -- intros t Hin Hname. apply String.eqb_eq in Hname.
           pose proof (find_none _ _ Hf t Hin) as Hn. simpl in Hn. congruence.
    + assert (E : callTool request s =
                  (Thrown (ServerNotConnected (req_serverName request)), s)).
      { unfold callTool.
        rewrite (bind_returned _ _ s (a := s) (s1 := s)) by reflexivity.
        now rewrite Hg, Hc. }
      rewrite E. simpl. split.
      * split; [intros _; right; eauto|intros _; eexists; split; reflexivity].
      * intros c' Hc'. inversion Hc'. subst c'. congruence.
  - assert (E : callTool request s =
                (Thrown (ServerNotConnected (req_serverName request)), s)).
    { unfold callTool.
      rewrite (bind_returned _ _ s (a := s) (s1 := s)) by reflexivity.
      now rewrite Hg. }
    rewrite E. simpl. split.
    + split; [intros _; now left|intros _; eexists; split; reflexivity].
    + intros c' Hc'. discriminate.
Qed.

(** C6, what the code does.  Whatever [timeout] the descriptor configures and
    whatever [timeoutMs] the hub was built with, the requests that [callTool]
    and [readResource] forward carry no request options, hence no timeout. *)
Theorem forwarded_requests_carry_no_timeout (s : State World Host) :
  (forall request, logs bare_request s (snd (callTool request s)))
  /\ (forall request, logs bare_request s (snd (readResource request s)))
  /\ (forall request c t,
        map_get (req_serverName request) (hub_connections s) = Some c ->
        conn_connected c = true ->
        find (fun t => String.eqb (tool_name t) (req_toolName request))
             (conn_tools c) = Some t ->
        trace (snd (callTool request s)) =
        (trace s ++ [EvRequest (conn_config c)
                       (ToolsCall (req_toolName request) (req_arguments request))
                       None])%list).
Proof.
  split; [|split].
  - intros request. apply (callTool_maintains request s).
  - intros request. apply (readResource_maintains request s).
  - intros request c t Hg Hc Hf.
    pose proof (callTool_forwarded request s Hg Hc Hf) as E.
    cbv zeta in E. rewrite E. reflexivity.
Qed.

End HubProperties.

(** ** Manual resolution of a tool call *)

Section ManualResolution.

Context {World : Type} {collab : Collaborators World} {Host : Type}.

Implicit Types s : State World Host.

Lemma replace_nth_app {A} (before after : list A) (x y : A) :
  replace_nth (length before) y (before ++ x :: after) = before ++ y :: after.
Proof.
  induction before as [|b before IH]; simpl; congruence.
Qed.

(** Scanning down from an index inside [after] finds the last message that
    holds the call. *)
Lemma scanBack_finds (toolCallId : string) (r : ToolResult)
    (before after : list Message) (m : Message) :
  holdsCall toolCallId m = true ->
  Forall (fun x => holdsCall toolCallId x = false) after ->
  forall k, k <= length after ->
  scanBack (length before + 1 + k) toolCallId r (before ++ m :: after)
  = Some (before ++ pushToolResult r m :: after).
Proof.
  intros Hm Hafter. induction k as [|k IH]; intros Hk.
  - rewrite Nat.add_0_r, Nat.add_1_r. simpl.
    rewrite nth_error_app2 by lia. rewrite Nat.sub_diag. simpl.
    rewrite Hm. now rewrite replace_nth_app.
  - rewrite Nat.add_succ_r. simpl.
    rewrite nth_error_app2 by lia.
    replace (length before + 1 + k - length before) with (S k) by lia. simpl.
    destruct (nth_error after k) as [x|] eqn:Hx.
    + rewrite Forall_forall in Hafter.
      rewrite (Hafter x (nth_error_In _ _ Hx)). apply IH. lia.
    + apply IH. lia.
Qed.

Lemma scanBack_none (toolCallId : string) (r : ToolResult) (messages : list Message) :
  Forall (fun x => holdsCall toolCallId x = false) messages ->
  forall n, scanBack n toolCallId r messages = None.
Proof.
  intros Hall. induction n as [|n IH]; simpl; auto.
  destruct (nth_error messages n) as [x|] eqn:Hx; auto.
  rewrite Forall_forall in Hall. now rewrite (Hall x (nth_error_In _ _ Hx)).
Qed.

(** A transcript either holds the call nowhere, or splits at the last
    message that holds it. *)
Lemma last_holder (toolCallId : string) (messages : list Message) :
  Forall (fun x => holdsCall toolCallId x = false) messages
  \/ exists before m after,
       messages = before ++ m :: after
       /\ holdsCall toolCallId m = true
       /\ Forall (fun x => holdsCall toolCallId x = false) after.
Proof.
  induction messages as [|x messages IH].
  - left. constructor.
  - destruct IH as [Hall|(before & m & after & E & Hm & Ha)].
    + destruct (holdsCall toolCallId x) eqn:Hx.
      * right. exists [], x, messages. auto.
      * left. constructor; auto.
    + right. exists (x :: before), m, after. subst. auto.
Qed.

(** A tool call of the transcript that no tool result answers yet. *)
Definition pendingCall (toolCallId : string) (message : Message) : bool :=
  holdsCall toolCallId message
  && negb (existsb (fun r => String.eqb (tr_toolCallId r) toolCallId)
                   (default [] (msg_toolResults message))).

(** C9, as the code has it.  [executeToolManually(id, result, isError)]
    appends the tool result to the most recent assistant turn that holds a
    tool call with identifier [id], whether or not that call already has a
    result, and changes nothing else; it throws the unknown-tool-call error,
    leaving the state as it was, exactly when no assistant turn of the
    transcript holds a tool call with that identifier. *)
Theorem executeToolManually_resolves_latest_holder (toolCallId result : string)
    (isError : option bool) s :
  let r := {| tr_toolCallId := toolCallId; tr_content := result;
              tr_isError := Some (default false isError) |} in
  let run := executeToolManually toolCallId result isError s in
  (forall before m after,
      chat_messages s = before ++ m :: after ->
      holdsCall toolCallId m = true ->
      Forall (fun x => holdsCall toolCallId x = false) after ->
      run = (Returned tt, set_messages (before ++ pushToolResult r m :: after) s))
  /\ (Forall (fun x => holdsCall toolCallId x = false) (chat_messages s) ->
      run = (Thrown (ToolCallNotFound toolCallId), s))
  /\ ((exists e, fst run = Thrown e)
      <-> Forall (fun x => holdsCall toolCallId x = false) (chat_messages s)).
Proof.
  intros r run.
  assert (Hfound : forall before m after,
             chat_messages s = before ++ m :: after ->
             holdsCall toolCallId m = true ->
             Forall (fun x => holdsCall toolCallId x = false) after ->
             run = (Returned tt,
                    set_messages (before ++ pushToolResult r m :: after) s)).
  { intros before m after E Hm Ha. subst run. unfold executeToolManually.
    rewrite (bind_returned _ _ s (a := s) (s1 := s)) by reflexivity.
    assert (S : scanBack (length (chat_messages s)) toolCallId r (chat_messages s)
                = Some (before ++ pushToolResult r m :: after)).
    { rewrite E, length_app. simpl length.
      replace (length before + S (length after))
        with (length before + 1 + length after) by lia.
      apply scanBack_finds; auto. }
    fold r. rewrite S. reflexivity. }
  assert (Hnone : Forall (fun x => holdsCall toolCallId x = false) (chat_messages s) ->
                  run = (Thrown (ToolCallNotFound toolCallId), s)).
  { intros Hall. subst run. unfold executeToolManually.
    rewrite (bind_returned _ _ s (a := s) (s1 := s)) by reflexivity.
    now rewrite scanBack_none. }
  split; [exact Hfound|]. split; [exact Hnone|]. split.
  - intros (e & He).
    destruct (last_holder toolCallId (chat_messages s))
      as [Hall|(before & m & after & E & Hm & Ha)]; auto.
    rewrite (Hfound before m after E Hm Ha) in He. discriminate.
  - intros Hall. rewrite (Hnone Hall). eexists. reflexivity.
Qed.

End ManualResolution.

(** ** The execution of tool calls *)

Section ToolExecution.

Context {World : Type} {collab : Collaborators World} {Host : Type}.

Implicit Types s : State World Host.

(** What executing tool calls may do to the state: it leaves the map of
    sessions and the transcript alone, and sends bare requests to servers. *)
Definition executes : State World Host -> State World Host -> Prop :=
  both (keeps hub_connections) (both (keeps chat_messages) (logs bare_request)).

Lemma probeServers_maintains (toolName : string) (args : Json) (names : list string) :
  maintains executes (probeServers toolName args names).
Proof.
  unfold executes.
  induction names as [|name rest IH]; simpl; frame.
  - apply callTool_maintains.
  - exact IH.
Qed.

Lemma executeToolCall_maintains (toolName : string) (args : Json) :
  maintains executes (executeToolCall toolName args).
Proof.
  unfold executeToolCall. unfold executes.
  frame. apply probeServers_maintains.
Qed.

Lemma executeToolCalls_body_maintains (obs : option (Observer World Host))
    (results : list ToolResult) (toolCall : ToolCall) :
  maintains executes (executeToolCalls_body obs results toolCall).
Proof.
  unfold executeToolCalls_body, executeToolCalls_catch. unfold executes.
  frame; apply executeToolCall_maintains.
Qed.

Lemma executeToolCalls_maintains (toolCalls : list ToolCall)
    (obs : option (Observer World Host)) :
  maintains executes (executeToolCalls toolCalls obs).
Proof.
  unfold executeToolCalls. generalize (@nil ToolResult) as results.
  induction toolCalls as [|toolCall rest IH]; intros results; simpl.
  - unfold executes. frame.
  - apply maintains_bind; [typeclasses eauto| |intro; apply IH].
    apply executeToolCalls_body_maintains.
Qed.

(** An observer that honours its contract: it never throws. *)
Definition quiet (obs : option (Observer World Host)) : Prop :=
  forall f, obs = Some f ->
  forall info h w, fst (fst (f info h w)) = Returned tt.

Lemma no_observer_is_quiet : quiet None.
Proof. intros f Hf. discriminate. Qed.

Lemma notify_quiet (obs : option (Observer World Host)) (info : ToolExecutionInfo) s :
  quiet obs -> notify obs info s = (Returned tt, snd (notify obs info s)).
Proof.
  intros Hq. destruct obs as [f|]; simpl; [|reflexivity].
  specialize (Hq f eq_refl info (host s) (world s)).
  destruct (f info (host s) (world s)) as [[r h] w]. simpl in *. now subst.
Qed.

(** One call leaves exactly one result, with the identifier of the call. *)
Lemma executeToolCalls_body_one_result (obs : option (Observer World Host))
    (results : list ToolResult) (toolCall : ToolCall) s :
  quiet obs ->
  exists r,
    fst (executeToolCalls_body obs results toolCall s) = Returned (results ++ [r])
    /\ tr_toolCallId r = tc_id toolCall.
Proof.
  intros Hq. unfold executeToolCalls_body.
  match goal with |- context [bind (settle ?m) _] => set (attempt := m) end.
  unfold bind at 1. unfold settle at 1.
  destruct (attempt s) as [[result|error] s1].
  - unfold bind at 1. unfold settle.
    rewrite (notify_quiet _ s1 Hq). unfold ret. simpl.
    eexists. split; [reflexivity|reflexivity].
  - unfold executeToolCalls_catch.
    rewrite (bind_returned _ _ s1 (notify_quiet _ s1 Hq)).
    eexists. split; [reflexivity|reflexivity].
Qed.

Lemma executeToolCalls_loop_ids (obs : option (Observer World Host))
    (toolCalls : list ToolCall) (results : list ToolResult) s :
  quiet obs ->
  exists rs,
    fst (executeToolCalls_loop obs toolCalls results s) = Returned (results ++ rs)
    /\ map tr_toolCallId rs = map tc_id toolCalls.
Proof.
  intros Hq. revert results s.
  induction toolCalls as [|toolCall rest IH]; intros results s; simpl.
  - exists []. now rewrite app_nil_r.
  - destruct (executeToolCalls_body_one_result results toolCall s Hq) as (r & E & Hid).
    unfold bind.
    destruct (executeToolCalls_body obs results toolCall s) as [o s1].
    simpl in E. subst o.
    destruct (IH (results ++ [r]) s1) as (rs & E' & Hids).
    exists (r :: rs). rewrite E', <- app_assoc. simpl. split; congruence.
Qed.

(** The local array [results] only grows: a run that starts with results
    already collected is the run from the empty array, put after them. *)
Lemma executeToolCalls_body_acc (obs : option (Observer World Host))
    (results : list ToolResult) (toolCall : ToolCall) s :
  executeToolCalls_body obs results toolCall s
  = bind (executeToolCalls_body obs [] toolCall)
         (fun rs => ret (results ++ rs)) s.
Proof.
  unfold executeToolCalls_body.
  match goal with |- context [bind (settle ?m) _] => set (attempt := m) end.
  unfold executeToolCalls_catch. unfold bind, settle, ret.
  destruct (attempt s) as [[result|error] s1]; simpl;
    repeat match goal with
           | |- context [notify obs ?i ?x] =>
               destruct (notify obs i x) as [[[]|?] ?]; simpl
           end;
    rewrite <- ?app_assoc; reflexivity.
Qed.

Lemma executeToolCalls_loop_acc (obs : option (Observer World Host))
    (toolCalls : list ToolCall) (results : list ToolResult) s :
  executeToolCalls_loop obs toolCalls results s
  = bind (executeToolCalls_loop obs toolCalls [])
         (fun rs => ret (results ++ rs)) s.
Proof.
  revert results s.
  induction toolCalls as [|toolCall rest IH]; intros results s;
    cbn [executeToolCalls_loop].
  - unfold bind, ret. now rewrite app_nil_r.
  - unfold bind at 1 2 3.
    rewrite (executeToolCalls_body_acc obs results). unfold bind at 1. unfold ret at 1.
    destruct (executeToolCalls_body obs [] toolCall s) as [[r1|e] s1]; auto.
    rewrite (IH (results ++ r1)), (IH r1). unfold bind, ret.
    destruct (executeToolCalls_loop obs rest [] s1) as [[r2|e] s2]; auto.
    now rewrite app_assoc.
Qed.

(** The servers a probe went through with every call rejected, and the state
    each rejection left for the next. *)
Inductive rejected (toolName : string) (args : Json)
  : list string -> State World Host -> State World Host -> Prop :=
| rejected_nil s : rejected toolName args [] s s
| rejected_cons name rest e s s1 s2 :
    callTool {| req_serverName := name; req_toolName := toolName;
                req_arguments := args |} s = (Thrown e, s1) ->
    rejected toolName args rest s1 s2 ->
    rejected toolName args (name :: rest) s s2.

(** First success wins: the probe returns the formatted answer of the first
    server, in the order given, whose [callTool] fulfils, after every server
    before it rejected the call; it throws when all of them rejected it. *)
Lemma probeServers_first_success (toolName : string) (args : Json)
    (names : list string) s :
  match fst (probeServers toolName args names s) with
  | Returned output =>
      exists before name after s1 result,
        names = before ++ name :: after
        /\ rejected toolName args before s s1
        /\ callTool {| req_serverName := name; req_toolName := toolName;
                       req_arguments := args |} s1
           = (Returned result, snd (probeServers toolName args names s))
        /\ output = formatContent (resp_content result)
  | Thrown e =>
      e = NoServerCouldExecute toolName
      /\ rejected toolName args names s (snd (probeServers toolName args names s))
  end.
Proof.
  revert s. induction names as [|name rest IH]; intros s; simpl.
  - split; [reflexivity|constructor].
  - unfold bind, settle.
    destruct (callTool {| req_serverName := name; req_toolName := toolName;
                          req_arguments := args |} s) as [[result|e] s1] eqn:E.
    + simpl. exists [], name, rest, s, result.
      repeat split; auto. constructor.
    + specialize (IH s1).
      destruct (probeServers toolName args rest s1) as [[output|e'] s2]; simpl in *.
      * destruct IH as (before & name' & after & s3 & result & En & Hr & Hc & Ho).
        exists (name :: before), name', after, s3, result.
        subst rest. repeat split; auto. econstructor; eauto.
      * destruct IH as [He Hr]. split; auto. econstructor; eauto.
Qed.

End ToolExecution.

(** ** The turn loop *)

Definition is_llm_chat (ev : Event) : bool :=
  match ev with
  | EvLlmChat _ _ _ => true
  | _ => false
  end.

(** How many times a trace shows the LLM capability invoked. *)
Definition llm_calls (t : list Event) : nat := length (filter is_llm_chat t).

Lemma llm_calls_app (t1 t2 : list Event) :
  llm_calls (t1 ++ t2) = llm_calls t1 + llm_calls t2.
Proof.
  unfold llm_calls. now rewrite filter_app, length_app.
Qed.

Lemma llm_calls_bare (evs : list Event) :
  Forall bare_request evs -> llm_calls evs = 0.
Proof.
  induction 1 as [|ev evs Hev _ IH]; auto.
  unfold llm_calls in *. simpl.
  destruct ev; simpl in *; auto; contradiction.
Qed.

Section TurnLoop.

Context {World : Type} {collab : Collaborators World} {Host : Type}.

Implicit Types s : State World Host.

(** The transcript only grows, by turns that satisfy [P]. *)
Definition grows (P : Message -> Prop) : State World Host -> State World Host -> Prop :=
  fun s s' => exists turns,
      chat_messages s' = chat_messages s ++ turns /\ Forall P turns.

#[export] Instance grows_frame (P : Message -> Prop) : Frame (grows P).
Proof.
  split; unfold grows.
  - intros s. exists []. rewrite app_nil_r. auto.
  - intros s1 s2 s3 (t1 & H1 & F1) (t2 & H2 & F2).
    exists (t1 ++ t2). rewrite H2, H1, app_assoc. split; auto.
    apply Forall_app; auto.
Qed.

(** What a call of [chat] may do to the hub and to the transcript. *)
Definition converses (P : Message -> Prop)
  : State World Host -> State World Host -> Prop :=
  both (keeps hub_connections) (grows P).

Lemma executes_converses (P : Message -> Prop) {A} (m : M World Host A) :
  maintains executes m -> maintains (converses P) m.
Proof.
  intros Hm s. destruct (Hm s) as (Hc & Hmsg & _). split; [exact Hc|].
  exists []. unfold keeps in Hmsg. rewrite Hmsg, app_nil_r. auto.
Qed.

Lemma log_results_maintains (R : State World Host -> State World Host -> Prop)
    `{Frame _ _ R} (toolResults : list ToolResult) :
  (forall s c, R s (set_console c s)) ->
  maintains R (log_results toolResults).
Proof.
  intros Hc. induction toolResults as [|r rest IH]; simpl.
  - apply maintains_ret; auto.
  - apply maintains_bind; auto.
    apply maintains_modify; auto.
Qed.

Lemma log_calls_maintains (R : State World Host -> State World Host -> Prop)
    `{Frame _ _ R} (toolCalls : list ToolCall) :
  (forall s c, R s (set_console c s)) ->
  maintains R (log_calls toolCalls).
Proof.
  intros Hc. induction toolCalls as [|r rest IH]; simpl.
  - apply maintains_ret; auto.
  - apply maintains_bind; auto.
    apply maintains_modify; auto.
Qed.

(** [bounded n m]: [m] invokes the LLM at most [n] times. *)
Definition bounded {A} (n : nat) (m : M World Host A) : Prop :=
  forall s, llm_calls (trace (snd (m s))) <= llm_calls (trace s) + n.

Lemma bounded_bind {A B} (a b : nat) (m : M World Host A) (k : A -> M World Host B) :
  bounded a m -> (forall x, bounded b (k x)) -> bounded (a + b) (bind m k).
Proof.
  intros Hm Hk s. unfold bind. specialize (Hm s).
  destruct (m s) as [[x|e] s1]; simpl in *; [|lia].
  specialize (Hk x s1). lia.
Qed.

Lemma bounded_weaken {A} (a b : nat) (m : M World Host A) :
  a <= b -> bounded a m -> bounded b m.
Proof. intros Hab Hm s. specialize (Hm s). lia. Qed.

Lemma bounded_silent {A} (m : M World Host A) :
  maintains (keeps trace) m -> bounded 0 m.
Proof.
  intros Hm s. specialize (Hm s). unfold keeps in Hm. rewrite Hm. lia.
Qed.

Lemma bounded_executes {A} (m : M World Host A) :
  maintains executes m -> bounded 0 m.
Proof.
  intros Hm s. destruct (Hm s) as (_ & _ & evs & Ht & Hb).
  rewrite Ht, llm_calls_app, (llm_calls_bare Hb). lia.
Qed.

Definition assistantTurn (m : Message) : Prop := msg_role m = assistant.

(** A call of [chat] leaves the hub as it is and appends assistant turns. *)
Lemma chat_loop_converses (options : ChatOptions World Host) (lo : LlmOptions)
    (maxTurns : Z) (auto : bool) (fuel : nat) :
  forall turnCount finalResponse,
    maintains (converses assistantTurn)
              (chat_loop fuel options lo maxTurns auto turnCount finalResponse).
Proof.
  unfold converses.
  induction fuel as [|fuel IH]; intros turnCount finalResponse;
    cbn [chat_loop]; unfold emit, console_log, push_message; frame;
    try (exists [];  rewrite app_nil_r; split; [reflexivity|constructor]);
    try (eexists [_]; split; [reflexivity|repeat constructor]).
  - apply (executes_converses assistantTurn), executeToolCalls_maintains.
  - apply log_results_maintains; [typeclasses eauto|]. frame_leaf.
    exists []. rewrite app_nil_r. auto.
  - apply IH.
  - apply log_calls_maintains; [typeclasses eauto|]. frame_leaf.
    exists []. rewrite app_nil_r. auto.
Qed.

Lemma emit_llm_bounded (transcript : list Message) (tools : list McpTool)
    (lo : LlmOptions) :
  bounded 1 (emit (EvLlmChat transcript tools lo)).
Proof.
  intros s. unfold emit, modify. cbn [snd set_trace trace].
  rewrite llm_calls_app. cbn. lia.
Qed.

Ltac silent :=
  first
    [ apply bounded_executes, executeToolCalls_maintains
    | apply bounded_silent; unfold console_log, push_message;
      first [ apply log_results_maintains; [typeclasses eauto|frame_leaf]
            | apply log_calls_maintains; [typeclasses eauto|frame_leaf]
            | frame ] ].

(** The loop invokes the LLM at most once per unit of fuel. *)
Lemma chat_loop_bounded (options : ChatOptions World Host) (lo : LlmOptions)
    (maxTurns : Z) (auto : bool) (fuel : nat) :
  forall turnCount finalResponse,
    bounded fuel (chat_loop fuel options lo maxTurns auto turnCount finalResponse).
Proof.
  induction fuel as [|fuel IH]; intros turnCount finalResponse; cbn [chat_loop].
  - silent.
  - destruct (turnCount <? maxTurns)%Z; [|apply (bounded_weaken (a := 0)); [lia|silent]].
    apply (bounded_bind (a := 0) (b := S fuel)); [silent|intros s0].
    apply (bounded_bind (a := 1) (b := fuel)); [apply emit_llm_bounded|intros _].
    apply (bounded_bind (a := 0) (b := fuel)); [silent|intros response].
    assert (Hstop : forall m : Message,
               bounded fuel
                 (bind (push_message (Host := Host) m)
                       (fun _ => ret ((turnCount + 1)%Z, llm_content response)))).
    { intros m. apply (bounded_weaken (a := 0)); [lia|silent]. }
    destruct (llm_toolCalls response) as [[|toolCall rest]|]; try apply Hstop.
    destruct auto.
    + repeat (apply (bounded_bind (a := 0) (b := fuel)); [silent|intro]).
      apply IH.
    + apply (bounded_weaken (a := 0)); [lia|].
      repeat (apply (bounded_bind (a := 0) (b := 0)); [silent|intro]).
      silent.
Qed.

Lemma bind_ext {A B} (m : M World Host A) (k k' : A -> M World Host B) s :
  (forall a s', k a s' = k' a s') -> bind m k s = bind m k' s.
Proof.
  intros Hk. unfold bind. destruct (m s) as [[a|e] s1]; auto.
Qed.

(** [chat] gives the loop enough fuel: with [maxTurns - turnCount] units the
    loop ends on its own condition, and more fuel changes nothing. *)
Lemma chat_loop_fuel (options : ChatOptions World Host) (lo : LlmOptions)
    (maxTurns : Z) (auto : bool) (fuel : nat) :
  forall turnCount finalResponse s,
    Z.to_nat (maxTurns - turnCount) <= fuel ->
    chat_loop fuel options lo maxTurns auto turnCount finalResponse s
    = chat_loop (Z.to_nat (maxTurns - turnCount)) options lo maxTurns auto
                turnCount finalResponse s.
Proof.
  induction fuel as [|fuel IH]; intros turnCount finalResponse s Hfuel.
  - replace (Z.to_nat (maxTurns - turnCount)) with 0 by lia. reflexivity.
  - destruct (turnCount <? maxTurns)%Z eqn:Hlt.
    + apply Z.ltb_lt in Hlt.
      replace (Z.to_nat (maxTurns - turnCount))
        with (S (Z.to_nat (maxTurns - (turnCount + 1)))) by lia.
      cbn [chat_loop].
      apply Z.ltb_lt in Hlt. rewrite Hlt.
      repeat (apply bind_ext; intros).
      destruct (llm_toolCalls _) as [[|toolCall rest]|]; try reflexivity.
      destruct auto; [|reflexivity].
      repeat (apply bind_ext; intros).
      apply IH. lia.
    + apply Z.ltb_ge in Hlt.
      replace (Z.to_nat (maxTurns - turnCount)) with 0 by lia.
      cbn [chat_loop]. apply Z.ltb_ge in Hlt. now rewrite Hlt.
Qed.

(** Steps that write neither the hub, nor the transcript, nor the trace. *)
Definition observes : State World Host -> State World Host -> Prop :=
  both (keeps hub_connections) (both (keeps chat_messages) (keeps trace)).

Lemma notify_observes (obs : option (Observer World Host)) (info : ToolExecutionInfo) :
  maintains observes (notify obs info).
Proof. unfold observes. frame. Qed.

Lemma log_results_observes (toolResults : list ToolResult) :
  maintains observes (log_results toolResults).
Proof.
  unfold observes. apply log_results_maintains; [typeclasses eauto|frame_leaf].
Qed.

Lemma log_results_returns (toolResults : list ToolResult) s :
  log_results toolResults s = (Returned tt, snd (log_results toolResults s)).
Proof.
  revert s. induction toolResults as [|r rest IH]; intros s; simpl; auto.
  unfold bind, console_log, modify. apply IH.
Qed.

(** The assistant turn [chat] appends for an answer whose tool calls were
    executed. *)
Definition resolvedMessage (response : LLMResponse) (toolResults : list ToolResult)
  : Message :=
  {| msg_role := assistant; msg_content := llm_content response;
     msg_toolCalls := llm_toolCalls response;
     msg_toolResults := Some toolResults |}.

(** One iteration of the loop on an answer that requests tools, with
    automatic execution and an observer that does not throw: the calls are
    executed, the assistant turn is appended with their results attached, and
    the loop goes on to the next LLM call. *)
Lemma chat_loop_tool_turn (options : ChatOptions World Host) (lo : LlmOptions)
    (maxTurns : Z) (fuel : nat) (turnCount : Z) (finalResponse : string) s
    (response : LLMResponse) (w : World) (toolCall : ToolCall) (rest : list ToolCall) :
  (turnCount < maxTurns)%Z ->
  quiet (opt_onToolExecution options) ->
  llm_chat (chat_messages s) (getAvailableTools s) lo (world s) = (Returned response, w) ->
  llm_toolCalls response = Some (toolCall :: rest) ->
  exists toolResults s' evs,
    map tr_toolCallId toolResults = map tc_id (toolCall :: rest)
    /\ chat_messages s' = chat_messages s ++ [resolvedMessage response toolResults]
    /\ hub_connections s' = hub_connections s
    /\ trace s' = trace s ++ EvLlmChat (chat_messages s) (getAvailableTools s) lo :: evs
    /\ Forall bare_request evs
    /\ chat_loop (S fuel) options lo maxTurns true turnCount finalResponse s
       = chat_loop fuel options lo maxTurns true (turnCount + 1)%Z
                   (llm_content response) s'.
Proof.
  intros Hlt Hq Hllm Hcalls.
  apply Z.ltb_lt in Hlt. cbn [chat_loop]. rewrite Hlt.
  rewrite (bind_returned _ _ s (a := s) (s1 := s)) by reflexivity.
  set (s0 := set_trace (trace s ++ [EvLlmChat (chat_messages s) (getAvailableTools s) lo]) s).
  rewrite (bind_returned _ _ s (a := tt) (s1 := s0)) by reflexivity.
  assert (Hask : ask (llm_chat (chat_messages s) (getAvailableTools s) lo) s0
                 = (Returned response, set_world w s0)).
  { unfold ask. simpl. now rewrite Hllm. }
  rewrite (bind_returned _ _ s0 Hask). rewrite Hcalls.
  set (s1 := set_world w s0).
  match goal with |- context [bind (notify ?o ?i) _ s1] =>
    pose proof (notify_quiet i s1 Hq) as Hn1;
    pose proof (notify_observes o i s1) as (Hh2 & Hm2 & Ht2);
    set (s2 := snd (notify o i s1)) in *
  end.
  rewrite (bind_returned _ _ s1 Hn1).
  destruct (executeToolCalls_loop_ids (toolCall :: rest) [] s2 Hq) as (toolResults & Hr & Hids).
  pose proof (executeToolCalls_maintains (toolCall :: rest) (opt_onToolExecution options) s2)
    as (Hh3 & Hm3 & evs & Ht3 & Hbare).
  fold (executeToolCalls (toolCall :: rest) (opt_onToolExecution options)) in Hr.
  destruct (executeToolCalls (toolCall :: rest) (opt_onToolExecution options) s2)
    as [o3 s3] eqn:E3.
  simpl in Hr, Hh3, Hm3, Ht3. subst o3.
  rewrite (bind_returned _ _ s2 E3).
  set (m := {| msg_role := assistant; msg_content := llm_content response;
               msg_toolCalls := Some (toolCall :: rest);
               msg_toolResults := Some toolResults |}).
  set (s4 := set_messages (chat_messages s3 ++ [m]) s3).
  rewrite (bind_returned _ _ s3 (a := tt) (s1 := s4)) by reflexivity.
  match goal with |- context [bind (notify ?o ?i) _ s4] =>
    pose proof (notify_quiet i s4 Hq) as Hn5;
    pose proof (notify_observes o i s4) as (Hh5 & Hm5 & Ht5);
    set (s5 := snd (notify o i s4)) in *
  end.
  rewrite (bind_returned _ _ s4 Hn5).
  set (s6 := set_console (console s5 ++ [LogExecuted (length toolResults)]) s5).
  rewrite (bind_returned _ _ s5 (a := tt) (s1 := s6)) by reflexivity.
  pose proof (log_results_observes toolResults s6) as (Hh7 & Hm7 & Ht7).
  rewrite (bind_returned _ _ s6 (log_results_returns toolResults s6)).
  set (s7 := snd (log_results toolResults s6)) in *.
  unfold keeps in *.
  exists toolResults, s7, evs.
  split; [exact Hids|]. split; [|split; [|split; [|split; [exact Hbare|reflexivity]]]].
  - rewrite Hm7. subst s6. simpl. rewrite Hm5. subst s4. simpl.
    rewrite Hm3, Hm2. subst s1 s0. simpl.
    unfold resolvedMessage. now rewrite Hcalls.
  - rewrite Hh7. subst s6. simpl. rewrite Hh5. subst s4. simpl.
    rewrite Hh3, Hh2. reflexivity.
  - rewrite Ht7. subst s6. simpl. rewrite Ht5. subst s4. simpl.
    rewrite Ht3, Ht2. subst s1 s0. simpl. rewrite <- app_assoc. reflexivity.
Qed.

Lemma bind_assoc {A B C} (m : M World Host A) (k : A -> M World Host B)
    (k' : B -> M World Host C) s :
  bind (bind m k) k' s = bind m (fun a => bind (k a) k') s.
Proof.
  unfold bind. destruct (m s) as [[a|e] s1]; reflexivity.
Qed.

(** The automatic-execution block of an iteration of [chat], for an answer
    that requests [toolCalls]: the calls are announced and executed, the
    assistant turn is pushed with the results, the completion is announced
    and the console lines are written.  It returns the results. *)
Definition toolTurn (options : ChatOptions World Host) (response : LLMResponse)
    (toolCalls : list ToolCall) : M World Host (list ToolResult) :=
  bind (notify (opt_onToolExecution options)
               (batchInfo tool_start (MsgExecuting (length toolCalls))))
    (fun _ =>
  bind (executeToolCalls toolCalls (opt_onToolExecution options))
    (fun toolResults =>
  bind (push_message
          {| msg_role := assistant; msg_content := llm_content response;
             msg_toolCalls := llm_toolCalls response;
             msg_toolResults := Some toolResults |})
    (fun _ =>
  bind (notify (opt_onToolExecution options)
               (batchInfo tool_complete
                  (MsgCompleted
                     (length (filter (fun r => negb (isError_truthy r)) toolResults))
                     (length (filter isError_truthy toolResults)))))
    (fun _ =>
  bind (console_log (LogExecuted (length toolResults)))
    (fun _ =>
  bind (log_results toolResults)
    (fun _ => ret toolResults)))))).

(** The state in which the answer of the LLM is at hand: the call is on
    record and the world is as the LLM left it. *)
Definition asked (lo : LlmOptions) (w : World) s : State World Host :=
  set_world w
    (set_trace (trace s ++ [EvLlmChat (chat_messages s) (getAvailableTools s) lo]) s).

(** An iteration on an answer that requests tools, with automatic
    execution, is the block above followed by the rest of the loop. *)
Lemma chat_loop_tool_turn_eq (options : ChatOptions World Host) (lo : LlmOptions)
    (maxTurns : Z) (fuel : nat) (turnCount : Z) (finalResponse : string) s
    (response : LLMResponse) (w : World) (toolCall : ToolCall) (rest : list ToolCall) :
  (turnCount < maxTurns)%Z ->
  llm_chat (chat_messages s) (getAvailableTools s) lo (world s) = (Returned response, w) ->
  llm_toolCalls response = Some (toolCall :: rest) ->
  chat_loop (S fuel) options lo maxTurns true turnCount finalResponse s
  = bind (toolTurn options response (toolCall :: rest))
         (fun _ => chat_loop fuel options lo maxTurns true (turnCount + 1)%Z
                             (llm_content response))
         (asked lo w s).
Proof.
  intros Hlt Hllm Hcalls.
  apply Z.ltb_lt in Hlt. cbn [chat_loop]. rewrite Hlt.
  rewrite (bind_returned _ _ s (a := s) (s1 := s)) by reflexivity.
  set (s0 := set_trace (trace s ++ [EvLlmChat (chat_messages s) (getAvailableTools s) lo]) s).
  rewrite (bind_returned _ _ s (a := tt) (s1 := s0)) by reflexivity.
  assert (Hask : ask (llm_chat (chat_messages s) (getAvailableTools s) lo) s0
                 = (Returned response, asked lo w s)).
  { unfold ask. simpl. now rewrite Hllm. }
  rewrite (bind_returned _ _ s0 Hask). rewrite Hcalls.
  unfold toolTurn. rewrite <- Hcalls.
  repeat (rewrite bind_assoc; apply bind_ext; intros; cbv beta).
  reflexivity.
Qed.

(** With an observer that does not throw the block returns what
    [executeToolCalls] returned, and the turn it pushed holds exactly these
    results. *)
Lemma toolTurn_spec (options : ChatOptions World Host) (response : LLMResponse)
    (toolCalls : list ToolCall) s :
  quiet (opt_onToolExecution options) ->
  let obs := opt_onToolExecution options in
  let announced := snd (notify obs (batchInfo tool_start
                                      (MsgExecuting (length toolCalls))) s) in
  exists toolResults executed s',
    executeToolCalls toolCalls obs announced = (Returned toolResults, executed)
    /\ map tr_toolCallId toolResults = map tc_id toolCalls
    /\ toolTurn options response toolCalls s = (Returned toolResults, s')
    /\ chat_messages s'
       = chat_messages s
         ++ [{| msg_role := assistant; msg_content := llm_content response;
                msg_toolCalls := llm_toolCalls response;
                msg_toolResults := Some toolResults |}]
    /\ trace s' = trace executed
    /\ hub_connections s' = hub_connections s.
Proof.
  intros Hq obs announced. subst obs. unfold toolTurn.
  match goal with |- context [bind (notify ?o ?i) _ s] =>
    pose proof (notify_quiet i s Hq) as Hn1;
    pose proof (notify_observes o i s) as (Hh2 & Hm2 & Ht2)
  end.
  fold announced in Hn1, Hh2, Hm2, Ht2.
  destruct (executeToolCalls_loop_ids toolCalls [] announced Hq)
    as (toolResults & Hr & Hids).
  pose proof (executeToolCalls_maintains toolCalls (opt_onToolExecution options) announced)
    as (Hh3 & Hm3 & evs & Ht3 & Hbare).
  fold (executeToolCalls toolCalls (opt_onToolExecution options)) in Hr.
  destruct (executeToolCalls toolCalls (opt_onToolExecution options) announced)
    as [o3 s3] eqn:E3.
  simpl in Hr, Hh3, Hm3, Ht3. subst o3.
  exists toolResults, s3.
  rewrite (bind_returned _ _ s Hn1). rewrite (bind_returned _ _ announced E3).
  set (m := {| msg_role := assistant; msg_content := llm_content response;
               msg_toolCalls := llm_toolCalls response;
               msg_toolResults := Some toolResults |}).
  set (s4 := set_messages (chat_messages s3 ++ [m]) s3).
  rewrite (bind_returned _ _ s3 (a := tt) (s1 := s4)) by reflexivity.
  match goal with |- context [bind (notify ?o ?i) _ s4] =>
    pose proof (notify_quiet i s4 Hq) as Hn5;
    pose proof (notify_observes o i s4) as (Hh5 & Hm5 & Ht5);
    set (s5 := snd (notify o i s4)) in *
  end.
  rewrite (bind_returned _ _ s4 Hn5).
  set (s6 := set_console (console s5 ++ [LogExecuted (length toolResults)]) s5).
  rewrite (bind_returned _ _ s5 (a := tt) (s1 := s6)) by reflexivity.
  pose proof (log_results_observes toolResults s6) as (Hh7 & Hm7 & Ht7).
  rewrite (bind_returned _ _ s6 (log_results_returns toolResults s6)).
  set (s7 := snd (log_results toolResults s6)) in *.
  unfold keeps in *.
  exists s7. split; [reflexivity|]. split; [exact Hids|]. split; [reflexivity|].
  split; [|split].
  - rewrite Hm7. subst s6. simpl. rewrite Hm5. subst s4. simpl.
    now rewrite Hm3, Hm2.
  - rewrite Ht7. subst s6. simpl. rewrite Ht5. subst s4. reflexivity.
  - rewrite Hh7. subst s6. simpl. rewrite Hh5. subst s4. simpl.
    now rewrite Hh3, Hh2.
Qed.

(** An LLM that asks for at least one tool call in every answer. *)
Definition always_requests_tools : Prop :=
  forall transcript tools lo (w : World),
  exists response toolCall rest,
    fst (llm_chat transcript tools lo w) = Returned response
    /\ llm_toolCalls response = Some (toolCall :: rest).

Lemma chat_loop_always_tools (options : ChatOptions World Host) (lo : LlmOptions)
    (maxTurns : Z) :
  always_requests_tools ->
  quiet (opt_onToolExecution options) ->
  forall fuel turnCount finalResponse s,
    Z.of_nat fuel = (maxTurns - turnCount)%Z ->
    exists content s',
      chat_loop fuel options lo maxTurns true turnCount finalResponse s
      = (Returned (maxTurns, content), s')
      /\ llm_calls (trace s') = llm_calls (trace s) + fuel
      /\ ((fuel = 0 /\ content = finalResponse /\ s' = s)
          \/ exists turns m,
               chat_messages s' = chat_messages s ++ turns ++ [m]
               /\ Forall assistantTurn turns
               /\ assistantTurn m
               /\ msg_content m = content).
Proof.
  intros Hllm Hq.
  induction fuel as [|fuel IH]; intros turnCount finalResponse s Hfuel.
  - exists finalResponse, s. simpl.
    replace turnCount with maxTurns by lia.
    split; [reflexivity|]. split; [lia|]. left. auto.
  - destruct (Hllm (chat_messages s) (getAvailableTools s) lo (world s))
      as (response & toolCall & rest & Hr & Hcalls).
    destruct (llm_chat (chat_messages s) (getAvailableTools s) lo (world s))
      as [o w] eqn:E.
    simpl in Hr. subst o.
    assert (Hlt : (turnCount < maxTurns)%Z) by lia.
    destruct (chat_loop_tool_turn options lo fuel finalResponse s Hlt Hq E Hcalls)
      as (toolResults & s1 & evs & Hids & Hm & Hh & Ht & Hbare & Estep).
    destruct (IH (turnCount + 1)%Z (llm_content response) s1 ltac:(lia))
      as (content & s' & Eloop & Hcount & Hlast).
    exists content, s'. rewrite Estep, Eloop. split; [reflexivity|]. split.
    + rewrite Hcount, Ht, llm_calls_app.
      change (EvLlmChat (chat_messages s) (getAvailableTools s) lo :: evs)
        with ([EvLlmChat (chat_messages s) (getAvailableTools s) lo] ++ evs).
      rewrite llm_calls_app, (llm_calls_bare Hbare). cbn. lia.
    + right. destruct Hlast as [(H0 & Hc & Hs)|(turns & m & Hms & Hturns & Hrole & Hcontent)].
      * subst s' content. exists [], (resolvedMessage response toolResults).
        simpl. repeat split; auto.
      * exists (resolvedMessage response toolResults :: turns), m.
        rewrite Hms, Hm, <- app_assoc. simpl.
        repeat split; auto. constructor; auto. reflexivity.
Qed.

(** The parameters [chat] derives from its options. *)
Definition llmOptionsOf (options : ChatOptions World Host) : LlmOptions :=
  {| lo_temperature := default (7 # 10)%Q (opt_temperature options);
     lo_maxTokens := default 2000%Z (opt_maxTokens options) |}.

Lemma chat_unfold (userInput : string) (options : ChatOptions World Host) s :
  let maxTurns := default 10%Z (opt_maxTurns options) in
  let s0 := set_messages (chat_messages s ++ [userMessage userInput]) s in
  chat userInput options s =
  bind (chat_loop (Z.to_nat maxTurns) options (llmOptionsOf options) maxTurns
                  (default true (opt_autoExecuteTools options)) 0%Z "")
       (fun out =>
          bind (if (maxTurns <=? fst out)%Z
                then console_log (LogReachedMaximumTurns maxTurns)
                else ret tt)
               (fun _ => ret (snd out))) s0.
Proof. reflexivity. Qed.

(** The integer ceiling in [chat]: with [maxTurns] at least 1 (10 when the
    option is absent), a call of [chat] invokes the LLM at most [maxTurns]
    times, and the loop ends on its own condition: fuel beyond [maxTurns]
    changes nothing.  When the LLM asks for a tool in every answer, tools are
    executed automatically and the observer does not throw, [chat] invokes
    the LLM exactly [maxTurns] times and returns, without throwing, the text
    of the last assistant turn; the exhaustion of the ceiling is only written
    to the console. *)
Lemma chat_integer_ceiling (userInput : string)
    (options : ChatOptions World Host) s :
  let maxTurns := default 10%Z (opt_maxTurns options) in
  let run := chat userInput options s in
  (1 <= maxTurns)%Z ->
  llm_calls (trace (snd run)) <= llm_calls (trace s) + Z.to_nat maxTurns
  /\ (forall extra s0,
        chat_loop (Z.to_nat maxTurns + extra) options (llmOptionsOf options) maxTurns
                  (default true (opt_autoExecuteTools options)) 0%Z "" s0
        = chat_loop (Z.to_nat maxTurns) options (llmOptionsOf options) maxTurns
                    (default true (opt_autoExecuteTools options)) 0%Z "" s0)
  /\ (always_requests_tools ->
      default true (opt_autoExecuteTools options) = true ->
      quiet (opt_onToolExecution options) ->
      llm_calls (trace (snd run)) = llm_calls (trace s) + Z.to_nat maxTurns
      /\ exists text turns last lines,
           fst run = Returned text
           /\ chat_messages (snd run)
              = chat_messages s ++ userMessage userInput :: turns ++ [last]
           /\ Forall assistantTurn turns
           /\ assistantTurn last
           /\ msg_content last = text
           /\ console (snd run) = lines ++ [LogReachedMaximumTurns maxTurns]).
Proof.
  intros maxTurns run Hmax. subst run. split; [|split].
  - assert (B : bounded (0 + (Z.to_nat maxTurns + (0 + 0))) (chat userInput options)).
    { unfold chat. fold maxTurns.
      apply bounded_bind; [silent|intros u].
      apply bounded_bind; [apply chat_loop_bounded|intros out].
      apply bounded_bind; [destruct (maxTurns <=? fst out)%Z; silent|intros u'; silent]. }
    specialize (B s). lia.
  - intros extra s0.
    assert (Hfuel : Z.to_nat (maxTurns - 0) <= Z.to_nat maxTurns + extra) by lia.
    rewrite (chat_loop_fuel options (llmOptionsOf options) maxTurns
               (default true (opt_autoExecuteTools options)) 0%Z "" s0 Hfuel).
    now rewrite Z.sub_0_r.
  - intros Hllm Hauto Hq. rewrite chat_unfold. cbv zeta. fold maxTurns.
    rewrite Hauto.
    set (s0 := set_messages (chat_messages s ++ [userMessage userInput]) s).
    assert (Hfuel : Z.of_nat (Z.to_nat maxTurns) = (maxTurns - 0)%Z) by lia.
    destruct (@chat_loop_always_tools options (llmOptionsOf options) maxTurns
                Hllm Hq (Z.to_nat maxTurns) 0%Z "" s0 Hfuel)
      as (content & s1 & Eloop & Hcount & Hlast).
    rewrite (bind_returned _ _ s0 Eloop). cbn [fst snd].
    rewrite Z.leb_refl.
    unfold bind, console_log, modify, ret. cbn [fst snd].
    split.
    + simpl. rewrite Hcount. reflexivity.
    + destruct Hlast as [(H0 & _)|(turns & m & Hms & Hturns & Hrole & Hcontent)]; [lia|].
      exists content, turns, m, (console s1).
      split; [reflexivity|]. simpl. rewrite Hms. subst s0. simpl.
      rewrite <- app_assoc. simpl. auto.
Qed.

(** *** Any number as the ceiling *)








(** An iteration whose LLM call rejects: the error leaves the loop at once,
    with the transcript as the call saw it. *)
Lemma chat_loop_llm_rejects (options : ChatOptions World Host) (lo : LlmOptions)
    (maxTurns : Z) (auto : bool) (fuel : nat) (turnCount : Z)
    (finalResponse : string) s (e : Error) (w : World) :
  (turnCount < maxTurns)%Z ->
  llm_chat (chat_messages s) (getAvailableTools s) lo (world s) = (Thrown e, w) ->
  chat_loop (S fuel) options lo maxTurns auto turnCount finalResponse s
  = (Thrown e,
     set_world w
       (set_trace (trace s ++ [EvLlmChat (chat_messages s) (getAvailableTools s) lo]) s)).
Proof.
  intros Hlt Hllm. apply Z.ltb_lt in Hlt. cbn [chat_loop]. rewrite Hlt.
  rewrite (bind_returned _ _ s (a := s) (s1 := s)) by reflexivity.
  set (s0 := set_trace (trace s ++ [EvLlmChat (chat_messages s) (getAvailableTools s) lo]) s).
  rewrite (bind_returned _ _ s (a := tt) (s1 := s0)) by reflexivity.
  apply bind_thrown. unfold ask. simpl. now rewrite Hllm.
Qed.

Lemma log_calls_returns (toolCalls : list ToolCall) s :
  log_calls toolCalls s = (Returned tt, snd (log_calls toolCalls s)).
Proof.
  revert s. induction toolCalls as [|r rest IH]; intros s; simpl; auto.
  unfold bind, console_log, modify. apply IH.
Qed.

(** An iteration that ends the loop normally: no tool call in the answer, or
    tool calls left to the caller. *)
Lemma chat_loop_last_turn (options : ChatOptions World Host) (lo : LlmOptions)
    (maxTurns : Z) (auto : bool) (fuel : nat) (turnCount : Z)
    (finalResponse : string) s (response : LLMResponse) (w : World) :
  (turnCount < maxTurns)%Z ->
  llm_chat (chat_messages s) (getAvailableTools s) lo (world s) = (Returned response, w) ->
  (auto = false \/ llm_toolCalls response = None \/ llm_toolCalls response = Some []) ->
  fst (chat_loop (S fuel) options lo maxTurns auto turnCount finalResponse s)
  = Returned ((turnCount + 1)%Z, llm_content response).
Proof.
  intros Hlt Hllm Hcase. apply Z.ltb_lt in Hlt. cbn [chat_loop]. rewrite Hlt.
  rewrite (bind_returned _ _ s (a := s) (s1 := s)) by reflexivity.
  set (s0 := set_trace (trace s ++ [EvLlmChat (chat_messages s) (getAvailableTools s) lo]) s).
  rewrite (bind_returned _ _ s (a := tt) (s1 := s0)) by reflexivity.
  assert (Hask : ask (llm_chat (chat_messages s) (getAvailableTools s) lo) s0
                 = (Returned response, set_world w s0)).
  { unfold ask. simpl. now rewrite Hllm. }
  rewrite (bind_returned _ _ s0 Hask).
  destruct (llm_toolCalls response) as [[|toolCall rest]|] eqn:Hcalls;
    try reflexivity.
  destruct auto.
  - destruct Hcase as [H|[H|H]]; discriminate.
  - unfold push_message, console_log, bind, modify, ret. cbn [fst snd].
    now rewrite log_calls_returns.
Qed.

(** With an observer that does not throw, only the LLM makes the loop throw:
    the last call on record is the rejected LLM call, made on the transcript
    the loop leaves behind. *)
Lemma chat_loop_thrown (options : ChatOptions World Host) (lo : LlmOptions)
    (maxTurns : Z) (auto : bool) :
  quiet (opt_onToolExecution options) ->
  forall fuel turnCount finalResponse s e,
    fst (chat_loop fuel options lo maxTurns auto turnCount finalResponse s) = Thrown e ->
    let s' := snd (chat_loop fuel options lo maxTurns auto turnCount finalResponse s) in
    exists evs w,
      trace s' = evs ++ [EvLlmChat (chat_messages s') (getAvailableTools s') lo]
      /\ fst (llm_chat (chat_messages s') (getAvailableTools s') lo w) = Thrown e.
Proof.
  intros Hq. induction fuel as [|fuel IH]; intros turnCount finalResponse s e He.
  - discriminate.
  - destruct (turnCount <? maxTurns)%Z eqn:Hlt.
    2:{ cbn [chat_loop] in He. rewrite Hlt in He. discriminate. }
    apply Z.ltb_lt in Hlt.
    destruct (llm_chat (chat_messages s) (getAvailableTools s) lo (world s))
      as [[response|e0] w] eqn:Hllm.
    + destruct (llm_toolCalls response) as [[|toolCall rest]|] eqn:Hcalls.
      * rewrite (@chat_loop_last_turn options lo maxTurns auto fuel turnCount
                   finalResponse s response w Hlt Hllm
                   (or_intror (or_intror Hcalls))) in He.
        discriminate.
      * destruct auto.
        -- destruct (@chat_loop_tool_turn options lo maxTurns fuel turnCount
                       finalResponse s response w toolCall rest Hlt Hq Hllm Hcalls)
             as (toolResults & s1 & evs & _ & _ & _ & _ & _ & Estep).
           rewrite Estep in *. apply IH. exact He.
        -- rewrite (@chat_loop_last_turn options lo maxTurns false fuel turnCount
                      finalResponse s response w Hlt Hllm
                      (or_introl eq_refl)) in He.
           discriminate.
      * rewrite (@chat_loop_last_turn options lo maxTurns auto fuel turnCount
                   finalResponse s response w Hlt Hllm
                   (or_intror (or_introl Hcalls))) in He.
        discriminate.
    + rewrite (@chat_loop_llm_rejects options lo maxTurns auto fuel turnCount
                 finalResponse s e0 w Hlt Hllm) in *.
      simpl in He. inversion He. subst e0. simpl.
      exists (trace s), (world s). split; [reflexivity|].
      unfold getAvailableTools. simpl. fold (getAvailableTools s). now rewrite Hllm.
Qed.

(** [turnsCompleted options lo n s sk]: starting in [s], [n] iterations of
    the loop of [chat] have completed, each on an answer of the LLM that
    requested tools, whose tools were executed; [sk] is the state they left,
    in which the next iteration starts. *)
Inductive turnsCompleted (options : ChatOptions World Host) (lo : LlmOptions)
  : nat -> State World Host -> State World Host -> Prop :=
| turnsCompleted_O s : turnsCompleted options lo 0 s s
| turnsCompleted_S n s sk response w toolCall rest toolResults s' :
    turnsCompleted options lo n s sk ->
    llm_chat (chat_messages sk) (getAvailableTools sk) lo (world sk)
    = (Returned response, w) ->
    llm_toolCalls response = Some (toolCall :: rest) ->
    toolTurn options response (toolCall :: rest) (asked lo w sk)
    = (Returned toolResults, s') ->
    turnsCompleted options lo (S n) s s'.

(** A turn with its tool results attached. *)
Definition resolvedTurn (m : Message) : Prop :=
  msg_role m = assistant /\ exists toolResults, msg_toolResults m = Some toolResults.

Lemma toolTurn_messages (options : ChatOptions World Host) (response : LLMResponse)
    (toolCalls : list ToolCall) s (toolResults : list ToolResult) s' :
  toolTurn options response toolCalls s = (Returned toolResults, s') ->
  chat_messages s' = chat_messages s ++ [resolvedMessage response toolResults].
Proof.
  unfold toolTurn.
  match goal with |- context [bind (notify ?o ?i) _ s] =>
    pose proof (notify_observes o i s) as (_ & Hm1 & _);
    unfold bind at 1; destruct (notify o i s) as [[u1|e1] s1]
  end; [|discriminate].
  pose proof (executeToolCalls_maintains toolCalls (opt_onToolExecution options) s1)
    as (_ & Hm2 & _).
  unfold bind at 1.
  destruct (executeToolCalls toolCalls (opt_onToolExecution options) s1)
    as [[results|e2] s2]; [|discriminate].
  unfold bind at 1. unfold push_message at 1. unfold modify at 1.
  match goal with |- context [bind (notify ?o ?i) _ ?x] =>
    pose proof (notify_observes o i x) as (_ & Hm3 & _);
    unfold bind at 1; destruct (notify o i x) as [[u3|e3] s3]
  end; [|discriminate].
  unfold bind at 1. unfold console_log at 1. unfold modify at 1.
  match goal with |- context [bind (log_results ?r) _ ?x] =>
    pose proof (log_results_observes r x) as (_ & Hm4 & _);
    rewrite (bind_returned _ _ x (log_results_returns r x))
  end.
  unfold ret. intros E. inversion E. subst. unfold keeps in *.
  cbn [snd] in *. rewrite Hm4. cbn [chat_messages set_console].
  rewrite Hm3. cbn [chat_messages set_messages]. rewrite Hm2, Hm1. reflexivity.
Qed.

(** The transcript after [n] completed iterations: [n] assistant turns were
    appended, each with its tool results. *)
Lemma turnsCompleted_messages (options : ChatOptions World Host) (lo : LlmOptions)
    (n : nat) s sk :
  turnsCompleted options lo n s sk ->
  exists turns,
    chat_messages sk = chat_messages s ++ turns
    /\ length turns = n
    /\ Forall resolvedTurn turns.
Proof.
  induction 1 as [s|n s sk response w toolCall rest toolResults s' _ IH Hllm Hcalls Hturn].
  - exists []. rewrite app_nil_r. repeat split. constructor.
  - destruct IH as (turns & Hm & Hlen & Hall).
    exists (turns ++ [resolvedMessage response toolResults]).
    rewrite (toolTurn_messages _ _ _ _ Hturn). cbn [asked chat_messages set_world set_trace].
    rewrite Hm, <- app_assoc. split; [reflexivity|]. split.
    + rewrite length_app. simpl. lia.
    + apply Forall_app. split; [exact Hall|]. repeat constructor.
      simpl. eauto.
Qed.

(** The loop after [n] completed iterations is the loop entered in the state
    they left. *)
Lemma chat_loop_after_turns (options : ChatOptions World Host) (lo : LlmOptions)
    (maxTurns : Z) (n : nat) s sk :
  turnsCompleted options lo n s sk ->
  forall turnCount finalResponse,
    (turnCount + Z.of_nat n <= maxTurns)%Z ->
    exists finalResponse',
      forall fuel,
        chat_loop (n + fuel) options lo maxTurns true turnCount finalResponse s
        = chat_loop fuel options lo maxTurns true (turnCount + Z.of_nat n)%Z
                    finalResponse' sk.
Proof.
  induction 1 as [s|n s sk response w toolCall rest toolResults s' _ IH Hllm Hcalls Hturn];
    intros turnCount finalResponse Hle.
  - exists finalResponse. intros fuel. simpl. now rewrite Z.add_0_r.
  - destruct (IH turnCount finalResponse ltac:(lia)) as (fr1 & Hrun).
    exists (llm_content response). intros fuel.
    replace (S n + fuel) with (n + S fuel) by lia.
    rewrite Hrun.
    rewrite (@chat_loop_tool_turn_eq options lo maxTurns fuel
               (turnCount + Z.of_nat n)%Z fr1 sk response w toolCall rest
               ltac:(lia) Hllm Hcalls).
    rewrite (bind_returned _ _ _ Hturn).
    f_equal. lia.
Qed.

(** C10.  [chat] does not roll the transcript back, and it does not catch
    what the LLM throws.  Whatever [chat] settles to, the transcript it
    leaves is the one it found, followed by the user turn and by the
    assistant turns of the iterations that completed.  When the call of the
    LLM rejects, in the first iteration or after any number of iterations
    that completed with their tools executed, [chat] throws that very error
    to its caller, and the state it leaves is the state in which the call was
    made, with the call on record: the transcript holds the user turn and
    the assistant turn, tool results attached, of every iteration that
    completed.  Conversely (the observer keeping its contract), when [chat]
    throws, the last call on record is the LLM call made on the transcript
    [chat] leaves behind. *)
Theorem chat_keeps_the_transcript_when_the_llm_fails (userInput : string)
    (options : ChatOptions World Host) s :
  let maxTurns := default 10%Z (opt_maxTurns options) in
  let auto := default true (opt_autoExecuteTools options) in
  let lo := llmOptionsOf options in
  let run := chat userInput options s in
  let s0 := set_messages (chat_messages s ++ [userMessage userInput]) s in
  (exists turns,
      chat_messages (snd run) = chat_messages s ++ userMessage userInput :: turns
      /\ Forall assistantTurn turns)
  /\ (forall n sk e w,
        turnsCompleted options lo n s0 sk ->
        (n = 0 \/ auto = true) ->
        (Z.of_nat n < maxTurns)%Z ->
        llm_chat (chat_messages sk) (getAvailableTools sk) lo (world sk)
        = (Thrown e, w) ->
        run = (Thrown e, asked lo w sk)
        /\ exists turns,
             chat_messages (snd run)
             = chat_messages s ++ userMessage userInput :: turns
             /\ length turns = n
             /\ Forall resolvedTurn turns)
  /\ (forall fuel turnCount finalResponse s1 e w,
        (turnCount < maxTurns)%Z ->
        llm_chat (chat_messages s1) (getAvailableTools s1) lo (world s1) = (Thrown e, w) ->
        chat_loop (S fuel) options lo maxTurns auto turnCount finalResponse s1
        = (Thrown e, asked lo w s1))
  /\ (quiet (opt_onToolExecution options) ->
      forall e, fst run = Thrown e ->
      exists evs w,
        trace (snd run)
        = evs ++ [EvLlmChat (chat_messages (snd run)) (getAvailableTools (snd run)) lo]
        /\ fst (llm_chat (chat_messages (snd run)) (getAvailableTools (snd run)) lo w)
           = Thrown e).
Proof.
  intros maxTurns auto lo run s0. subst run. rewrite chat_unfold. cbv zeta.
  fold maxTurns auto lo s0.
  split; [|split; [|split]].
  - assert (Hm : maintains (converses assistantTurn)
                   (bind (chat_loop (Z.to_nat maxTurns) options lo maxTurns auto 0%Z "")
                      (fun out =>
                         bind (if (maxTurns <=? fst out)%Z
                               then console_log (LogReachedMaximumTurns maxTurns)
                               else ret tt)
                              (fun _ => ret (snd out))))).
    { apply maintains_bind; [typeclasses eauto|apply chat_loop_converses|intros out].
      unfold converses, console_log. frame.
      exists []. rewrite app_nil_r. auto. }
    destruct (Hm s0) as (_ & turns & Hturns & Hall).
    exists turns. rewrite Hturns. subst s0. simpl.
    rewrite <- app_assoc. auto.
  - intros n sk e w Hdone Hauto Hlt Hllm.
    assert (Eloop : chat_loop (Z.to_nat maxTurns) options lo maxTurns auto 0%Z "" s0
                    = (Thrown e, asked lo w sk)).
    { destruct Hauto as [Hn|Hauto].
      - subst n. inversion Hdone; subst.
        destruct (Z.to_nat maxTurns) as [|fuel] eqn:Hfuel; [lia|].
        apply chat_loop_llm_rejects; [lia|exact Hllm].
      - rewrite Hauto.
        destruct (@chat_loop_after_turns options lo maxTurns n s0 sk Hdone 0%Z ""
                    ltac:(lia)) as (fr & Hrun).
        replace (Z.to_nat maxTurns) with (n + S (Z.to_nat maxTurns - S n)) by lia.
        rewrite Hrun. apply chat_loop_llm_rejects; [lia|exact Hllm]. }
    rewrite (bind_thrown _ _ _ Eloop). split; [reflexivity|].
    destruct (turnsCompleted_messages Hdone) as (turns & Hm & Hlen & Hall).
    exists turns. cbn [snd asked chat_messages set_world set_trace].
    rewrite Hm. subst s0. cbn [chat_messages set_messages].
    rewrite <- app_assoc. auto.
  - intros fuel turnCount finalResponse s1 e w Hlt Hllm.
    now apply chat_loop_llm_rejects.
  - intros Hq e He.
    pose proof (@chat_loop_thrown options lo maxTurns auto Hq (Z.to_nat maxTurns)
                  0%Z "" s0 e) as Hthrown.
    unfold bind in *.
    destruct (chat_loop (Z.to_nat maxTurns) options lo maxTurns auto 0%Z "" s0)
      as [[out|e0] s1].
    + exfalso. unfold console_log, modify, ret in He.
      destruct (maxTurns <=? fst out)%Z; discriminate.
    + simpl in He. inversion He. subst e0. apply Hthrown. reflexivity.
Qed.

(** C3.  For an answer that requests tools, with automatic execution:
    - the calls are executed one after the other in the order of the answer,
      each starting in the state the one before it left;
    - with an observer that keeps its contract (it does not throw), each call
      leaves exactly one tool result, carrying the identifier of the call, and
      the execution never throws;
    - a call is routed by trying [callTool] on the names registered in the
      hub, in the order of the map, the first server whose call fulfils
      giving the result after all servers before it rejected the call;
    - a call that a server fulfils leaves the formatted answer as its result;
      a call that every server rejects, whose tool is not listed or whose
      arguments do not parse leaves a result with its error flag set;
    - the iteration runs [executeToolCalls] on the calls of the answer, in
      the state the LLM call and the announcement left, and appends the
      assistant turn with exactly the results it returned; what the
      execution sent is on the trace; only then is the LLM called again. *)
Theorem tool_calls_run_in_order_with_one_result_each
    (obs : option (Observer World Host)) :
  (forall toolCall rest s,
      executeToolCalls (toolCall :: rest) obs s
      = bind (executeToolCalls [toolCall] obs)
             (fun first =>
                bind (executeToolCalls rest obs)
                     (fun others => ret (first ++ others))) s)
  /\ (quiet obs ->
      forall toolCalls s,
      exists toolResults,
        fst (executeToolCalls toolCalls obs s) = Returned toolResults
        /\ map tr_toolCallId toolResults = map tc_id toolCalls)
  /\ (forall toolName args s,
        match fst (executeToolCall toolName args s) with
        | Returned output =>
            exists before name after s1 result,
              map fst (hub_connections s) = before ++ name :: after
              /\ rejected toolName args before s s1
              /\ callTool {| req_serverName := name; req_toolName := toolName;
                             req_arguments := args |} s1
                 = (Returned result, snd (executeToolCall toolName args s))
              /\ output = formatContent (resp_content result)
        | Thrown e =>
            (e = ToolNotFound toolName
             /\ forall t, In t (getAvailableTools s) -> tool_name t <> toolName)
            \/ (e = NoServerCouldExecute toolName
                /\ rejected toolName args (map fst (hub_connections s)) s
                            (snd (executeToolCall toolName args s)))
        end)
  /\ (quiet obs ->
      forall toolCall s,
        fst (executeToolCalls [toolCall] obs s)
        = Returned
            [match JSON_parse (tc_function_arguments toolCall) with
             | Thrown e => errorResult toolCall e
             | Returned args =>
                 match fst (executeToolCall (tc_function_name toolCall) args
                              (snd (notify obs (toolStartInfo toolCall args) s))) with
                 | Returned output => successResult toolCall output
                 | Thrown e => errorResult toolCall e
                 end
             end]
        /\ (forall e, tr_isError (errorResult toolCall e) = Some true)
        /\ (forall output,
               tr_isError (successResult toolCall output) = Some false
               /\ tr_content (successResult toolCall output) = output))
  /\ (quiet obs ->
      forall options lo maxTurns fuel turnCount finalResponse s response w
             toolCall rest,
        opt_onToolExecution options = obs ->
        (turnCount < maxTurns)%Z ->
        llm_chat (chat_messages s) (getAvailableTools s) lo (world s)
        = (Returned response, w) ->
        llm_toolCalls response = Some (toolCall :: rest) ->
        let announced :=
          snd (notify obs (batchInfo tool_start (MsgExecuting (length (toolCall :: rest))))
                      (asked lo w s)) in
        exists toolResults executed s',
          executeToolCalls (toolCall :: rest) obs announced
          = (Returned toolResults, executed)
          /\ map tr_toolCallId toolResults = map tc_id (toolCall :: rest)
          /\ chat_messages s'
             = chat_messages s ++ [resolvedMessage response toolResults]
          /\ trace s' = trace executed
          /\ chat_loop (S fuel) options lo maxTurns true turnCount finalResponse s
             = chat_loop fuel options lo maxTurns true (turnCount + 1)%Z
                         (llm_content response) s').
Proof.
  split; [|split; [|split; [|split]]].
  - intros toolCall rest s. unfold executeToolCalls.
    cbn [executeToolCalls_loop]. unfold bind at 1 2 3. unfold ret at 1.
    destruct (executeToolCalls_body obs [] toolCall s) as [[first|e] s1]; auto.
    now rewrite executeToolCalls_loop_acc.
  - intros Hq toolCalls s.
    destruct (executeToolCalls_loop_ids toolCalls [] s Hq) as (rs & E & Hids).
    exists rs. auto.
  - intros toolName args s. change (map fst (hub_connections s)) with (getServerNames s).
    unfold executeToolCall.
    rewrite (bind_returned _ _ s (a := s) (s1 := s)) by reflexivity.
    destruct (find (fun t => String.eqb (tool_name t) toolName) (getAvailableTools s))
      as [t|] eqn:Hf.
    + pose proof (probeServers_first_success toolName args (getServerNames s) s) as P.
      destruct (fst (probeServers toolName args (getServerNames s) s)); auto.
    + simpl. left. split; [reflexivity|]. intros t Hin Hname.
      pose proof (find_none _ _ Hf t Hin) as Hn. simpl in Hn.
      apply String.eqb_neq in Hn. contradiction.
  - intros Hq toolCall s. split; [|split; [reflexivity|intros; split; reflexivity]].
    unfold executeToolCalls. cbn [executeToolCalls_loop].
    unfold executeToolCalls_body, executeToolCalls_catch.
    unfold bind at 1. unfold bind at 1. unfold settle at 1. unfold bind at 1.
    destruct (JSON_parse (tc_function_arguments toolCall)) as [args|e0].
    + rewrite (bind_returned _ _ s (notify_quiet (toolStartInfo toolCall args) s Hq)).
      destruct (executeToolCall (tc_function_name toolCall) args
                  (snd (notify obs (toolStartInfo toolCall args) s)))
        as [[output|e] s2]; cbn [fst snd].
      * unfold bind at 1. unfold settle.
        rewrite (notify_quiet (toolCompleteInfo toolCall output) s2 Hq).
        reflexivity.
      * rewrite (bind_returned _ _ _ (notify_quiet (toolErrorInfo toolCall e) s2 Hq)).
        reflexivity.
    + rewrite (bind_returned _ _ _ (notify_quiet (toolErrorInfo toolCall e0) s Hq)).
      reflexivity.
  - intros Hq options lo maxTurns fuel turnCount finalResponse s response w
           toolCall rest Hobs Hlt Hllm Hcalls announced.
    subst obs.
    destruct (@toolTurn_spec options response (toolCall :: rest) (asked lo w s) Hq)
      as (toolResults & executed & s' & Hexec & Hids & Hturn & Hm & Ht & _).
    exists toolResults, executed, s'.
    split; [exact Hexec|]. split; [exact Hids|].
    split; [rewrite Hm; unfold resolvedMessage; reflexivity|]. split; [exact Ht|].
    rewrite (@chat_loop_tool_turn_eq options lo maxTurns fuel turnCount finalResponse
               s response w toolCall rest Hlt Hllm Hcalls).
    now rewrite (bind_returned _ _ _ Hturn).
Qed.

(** *** What the engine does to the caller's state

    The engine writes the world, the trace, the console and the transcript;
    the state of the caller changes only through the observer. *)

Section Locality.

Variable R : State World Host -> State World Host -> Prop.
Context `{Frame _ _ R}.
Hypothesis R_world : forall s w, R s (set_world w s).
Hypothesis R_trace : forall s t, R s (set_trace t s).
Hypothesis R_console : forall s c, R s (set_console c s).
Hypothesis R_messages : forall s m, R s (set_messages m s).
Variable obs : option (Observer World Host).
Hypothesis R_notify : forall info, maintains R (notify obs info).

Lemma callTool_local (request : McpToolCallRequest) : maintains R (callTool request).
Proof.
  unfold callTool, client_request_tools_call, emit. frame.
Qed.

Lemma executeToolCall_local (toolName : string) (args : Json) :
  maintains R (executeToolCall toolName args).
Proof.
  unfold executeToolCall. frame.
  generalize (getServerNames a) as names.
  induction names as [|name rest IH]; simpl; frame.
  - apply callTool_local.
  - exact IH.
Qed.

Lemma executeToolCalls_local (toolCalls : list ToolCall) :
  maintains R (executeToolCalls toolCalls obs).
Proof.
  unfold executeToolCalls. generalize (@nil ToolResult) as results.
  induction toolCalls as [|toolCall rest IH]; intros results; simpl.
  - frame.
  - apply maintains_bind; [typeclasses eauto| |intro; apply IH].
    unfold executeToolCalls_body, executeToolCalls_catch.
    frame. apply executeToolCall_local.
Qed.

Lemma chat_local (userInput : string) (options : ChatOptions World Host) :
  opt_onToolExecution options = obs ->
  maintains R (chat userInput options).
Proof.
  intros Hobs. unfold chat, push_message, console_log.
  assert (L : forall fuel lo maxTurns auto turnCount finalResponse,
             maintains R (chat_loop fuel options lo maxTurns auto turnCount finalResponse)).
  { induction fuel as [|fuel IH]; intros lo maxTurns auto turnCount finalResponse;
      cbn [chat_loop]; unfold emit, console_log, push_message; rewrite ?Hobs; frame.
    - apply executeToolCalls_local.
    - apply log_results_maintains; [typeclasses eauto|auto].
    - apply IH.
    - apply log_calls_maintains; [typeclasses eauto|auto]. }
  frame. apply L.
Qed.

End Locality.

(** The LLM calls on record were made on [base] followed by assistant turns. *)
Definition sees (base : list Message) (ev : Event) : Prop :=
  match ev with
  | EvLlmChat transcript _ _ =>
      exists turns, transcript = base ++ turns /\ Forall assistantTurn turns
  | _ => True
  end.

Lemma bare_sees (base : list Message) (evs : list Event) :
  Forall bare_request evs -> Forall (sees base) evs.
Proof.
  apply Forall_impl. intros [] Hb; simpl in *; auto; contradiction.
Qed.

(** An iteration that ends the loop normally, with the state it leaves. *)
Lemma chat_loop_last_turn_state (options : ChatOptions World Host) (lo : LlmOptions)
    (maxTurns : Z) (auto : bool) (fuel : nat) (turnCount : Z)
    (finalResponse : string) s (response : LLMResponse) (w : World) :
  (turnCount < maxTurns)%Z ->
  llm_chat (chat_messages s) (getAvailableTools s) lo (world s) = (Returned response, w) ->
  (auto = false \/ llm_toolCalls response = None \/ llm_toolCalls response = Some []) ->
  trace (snd (chat_loop (S fuel) options lo maxTurns auto turnCount finalResponse s))
  = trace s ++ [EvLlmChat (chat_messages s) (getAvailableTools s) lo].
Proof.
  intros Hlt Hllm Hcase. apply Z.ltb_lt in Hlt. cbn [chat_loop]. rewrite Hlt.
  rewrite (bind_returned _ _ s (a := s) (s1 := s)) by reflexivity.
  set (s0 := set_trace (trace s ++ [EvLlmChat (chat_messages s) (getAvailableTools s) lo]) s).
  rewrite (bind_returned _ _ s (a := tt) (s1 := s0)) by reflexivity.
  assert (Hask : ask (llm_chat (chat_messages s) (getAvailableTools s) lo) s0
                 = (Returned response, set_world w s0)).
  { unfold ask. simpl. now rewrite Hllm. }
  rewrite (bind_returned _ _ s0 Hask).
  destruct (llm_toolCalls response) as [[|toolCall rest]|] eqn:Hcalls;
    try reflexivity.
  destruct auto.
  - destruct Hcase as [H0|[H0|H0]]; discriminate.
  - unfold push_message, console_log, bind, modify, ret. cbn [fst snd].
    assert (Hl : forall calls s1, trace (snd (log_calls calls s1)) = trace s1).
    { intros calls s1.
      apply (log_calls_maintains (R := keeps trace)). frame_leaf. }
    rewrite log_calls_returns. cbn [fst snd]. rewrite Hl. reflexivity.
Qed.

(** With automatic execution and an observer that does not throw, every LLM
    call of the loop is made on the transcript the loop started from, followed
    by the assistant turns appended since. *)
Lemma chat_loop_sees (options : ChatOptions World Host) (lo : LlmOptions)
    (maxTurns : Z) (base : list Message) :
  quiet (opt_onToolExecution options) ->
  forall fuel turnCount finalResponse s turns,
    chat_messages s = base ++ turns ->
    Forall assistantTurn turns ->
    logs (sees base) s
         (snd (chat_loop fuel options lo maxTurns true turnCount finalResponse s)).
Proof.
  intros Hq.
  induction fuel as [|fuel IH]; intros turnCount finalResponse s turns Hm Hturns.
  - apply (frame_refl (R := logs (sees base))).
  - destruct (turnCount <? maxTurns)%Z eqn:Hlt.
    2:{ cbn [chat_loop]. rewrite Hlt. apply (frame_refl (R := logs (sees base))). }
    apply Z.ltb_lt in Hlt.
    assert (Hev : sees base (EvLlmChat (chat_messages s) (getAvailableTools s) lo)).
    { simpl. exists turns. auto. }
    destruct (llm_chat (chat_messages s) (getAvailableTools s) lo (world s))
      as [[response|e0] w] eqn:Hllm.
    + destruct (llm_toolCalls response) as [[|toolCall rest]|] eqn:Hcalls.
      * exists [EvLlmChat (chat_messages s) (getAvailableTools s) lo].
        split; [|repeat constructor; exact Hev].
        apply (@chat_loop_last_turn_state options lo maxTurns true fuel turnCount
                 finalResponse s response w Hlt Hllm). auto.
      * destruct (@chat_loop_tool_turn options lo maxTurns fuel turnCount
                    finalResponse s response w toolCall rest Hlt Hq Hllm Hcalls)
          as (toolResults & s1 & evs & _ & Hm1 & _ & Ht1 & Hbare & Estep).
        rewrite Estep.
        destruct (IH (turnCount + 1)%Z (llm_content response) s1
                     (turns ++ [resolvedMessage response toolResults]))
          as (evs' & Ht' & Hsees').
        -- rewrite Hm1, Hm. now rewrite app_assoc.
        -- apply Forall_app. split; auto. repeat constructor.
        -- exists ((EvLlmChat (chat_messages s) (getAvailableTools s) lo :: evs) ++ evs').
           rewrite Ht', Ht1, <- app_assoc. split; [reflexivity|].
           apply Forall_app. split; auto. constructor; auto.
           now apply bare_sees.
      * exists [EvLlmChat (chat_messages s) (getAvailableTools s) lo].
        split; [|repeat constructor; exact Hev].
        apply (@chat_loop_last_turn_state options lo maxTurns true fuel turnCount
                 finalResponse s response w Hlt Hllm). auto.
    + rewrite (@chat_loop_llm_rejects options lo maxTurns true fuel turnCount
                 finalResponse s e0 w Hlt Hllm).
      exists [EvLlmChat (chat_messages s) (getAvailableTools s) lo].
      split; [reflexivity|repeat constructor; exact Hev].
Qed.

Lemma chat_sees (userInput : string) (options : ChatOptions World Host) s :
  quiet (opt_onToolExecution options) ->
  default true (opt_autoExecuteTools options) = true ->
  logs (sees (chat_messages s ++ [userMessage userInput])) s
       (snd (chat userInput options s)).
Proof.
  intros Hq Hauto. rewrite chat_unfold. cbv zeta. rewrite Hauto.
  set (s0 := set_messages (chat_messages s ++ [userMessage userInput]) s).
  set (maxTurns := default 10%Z (opt_maxTurns options)).
  pose proof (@chat_loop_sees options (llmOptionsOf options) maxTurns
                (chat_messages s ++ [userMessage userInput]) Hq
                (Z.to_nat maxTurns) 0%Z "" s0 []) as Hloop.
  destruct Hloop as (evs & Ht & Hsees).
  { subst s0. simpl. now rewrite app_nil_r. }
  { constructor. }
  unfold bind.
  destruct (chat_loop (Z.to_nat maxTurns) options (llmOptionsOf options) maxTurns
              true 0%Z "" s0) as [[out|e] s1]; simpl in *.
  - exists evs. split; [|exact Hsees].
    destruct (maxTurns <=? fst out)%Z; simpl; exact Ht.
  - exists evs. auto.
Qed.

End TurnLoop.

(** ** The batch runner *)

Section BatchProperties.

Context {World : Type} {collab : Collaborators World}.

Implicit Types s : State World BatchHost.

Lemma onToolExecution_quiet : quiet (Some onToolExecution).
Proof.
  intros f Hf info h w. inversion Hf. subst f. unfold onToolExecution.
  destruct (info_type info);
    repeat match goal with
           | |- context [if ?b then _ else _] => destruct b
           | |- context [Date_now ?w] => destruct (Date_now w)
           end; reflexivity.
Qed.

(** The observer of the batch runner writes [currentToolCalls] only. *)
Lemma onToolExecution_keeps_results (info : ToolExecutionInfo) :
  maintains (keeps (fun s => batch_results (host s)))
            (notify (Some onToolExecution) info).
Proof.
  intros s. unfold keeps, notify, onToolExecution.
  destruct (info_type info);
    repeat match goal with
           | |- context [if ?b then _ else _] => destruct b
           | |- context [Date_now ?w] => destruct (Date_now w)
           end; reflexivity.
Qed.

Lemma chat_keeps_results (userInput : string) :
  maintains (keeps (fun s => batch_results (host s)))
            (chat userInput questionOptions).
Proof.
  apply chat_local with (obs := Some onToolExecution);
    try typeclasses eauto; try reflexivity.
  apply onToolExecution_keeps_results.
Qed.

(** The turns a record puts on the transcript before the LLM is called:
    its context, when it has one, as a system turn, then its question. *)
Definition seed (question : BatchQuestion) : list Message :=
  (if truthy (q_context question)
   then [{| msg_role := system; msg_content := default "" (q_context question);
            msg_toolCalls := None; msg_toolResults := None |}]
   else [])
  ++ [userMessage (q_question question)].

(** The state in which [processQuestion] calls [chat]. *)
Definition seeded (question : BatchQuestion) s : State World BatchHost :=
  let (_, w) := Date_now (world s) in
  let s1 := set_host (set_currentToolCalls [] (host s)) (set_world w s) in
  if truthy (q_context question)
  then set_messages
         (chat_messages s1 ++
          [{| msg_role := system; msg_content := default "" (q_context question);
              msg_toolCalls := None; msg_toolResults := None |}]) s1
  else s1.

(** [processQuestion] never throws: a failure of [chat] becomes a result
    marked failed. *)
Lemma processQuestion_spec (question : BatchQuestion) (questionNumber : nat) s :
  exists result,
    fst (processQuestion question questionNumber s) = Returned result
    /\ br_question result = q_question question
    /\ br_success result =
       match fst (chat (q_question question) questionOptions (seeded question s)) with
       | Returned _ => true
       | Thrown _ => false
       end
    /\ snd (processQuestion question questionNumber s)
       = (let s3 := snd (chat (q_question question) questionOptions (seeded question s)) in
          set_world (snd (Date_now (world s3))) s3).
Proof.
  unfold processQuestion, seeded, now, addMessage, push_message.
  unfold bind, try_catch, modify, get_state, ret.
  destruct (Date_now (world s)) as [startTime w]. cbn [fst snd].
  destruct (truthy (q_context question)); cbn [fst snd host set_world];
    match goal with |- context [chat ?q ?o ?x] => destruct (chat q o x) as [[response|e] s3] end;
    cbn [fst snd]; destruct (Date_now (world s3)) as [endTime w3]; cbn [fst snd];
    eexists; repeat split.
Qed.

Lemma processQuestion_keeps_results (question : BatchQuestion) (questionNumber : nat) s :
  batch_results (host (snd (processQuestion question questionNumber s)))
  = batch_results (host s).
Proof.
  destruct (processQuestion_spec question questionNumber s) as (r & _ & _ & _ & Hs).
  rewrite Hs. cbv zeta. simpl.
  rewrite (chat_keeps_results (q_question question) (seeded question s)).
  unfold seeded. destruct (Date_now (world s)) as [t w].
  destruct (truthy (q_context question)); reflexivity.
Qed.

Lemma processQuestion_sees (question : BatchQuestion) (questionNumber : nat) s :
  logs (sees (chat_messages s ++ seed question)) s
       (snd (processQuestion question questionNumber s)).
Proof.
  destruct (processQuestion_spec question questionNumber s) as (r & _ & _ & _ & Hs).
  rewrite Hs. cbv zeta.
  destruct (chat_sees (q_question question) questionOptions (seeded question s)
              onToolExecution_quiet eq_refl) as (evs & Ht & Hsees).
  exists evs. simpl. rewrite Ht. split.
  - unfold seeded. destruct (Date_now (world s)) as [t w].
    destruct (truthy (q_context question)); reflexivity.
  - revert Hsees. apply Forall_impl. intros ev.
    replace (chat_messages (seeded question s) ++ [userMessage (q_question question)])
      with (chat_messages s ++ seed question); auto.
    unfold seeded, seed. destruct (Date_now (world s)) as [t w].
    destruct (truthy (q_context question)); simpl; auto.
    now rewrite <- app_assoc.
Qed.

(** One record of the sequential loop: it is processed, its result is
    pushed, and the loop either stops there (a failure with
    [continueOnError = false]) or clears the transcript and goes on. *)
Lemma sequentialLoop_cons (continueOnError : bool) (question : BatchQuestion)
    (rest : list BatchQuestion) (i : nat) s :
  exists result,
    fst (processQuestion question (i + 1) s) = Returned result
    /\ let s1 := snd (processQuestion question (i + 1) s) in
       let s2 :=
         set_host (set_results (batch_results (host s1) ++ [result]) (host s1)) s1 in
       sequentialLoop continueOnError (question :: rest) i s
       = if br_success result || continueOnError
         then sequentialLoop continueOnError rest (i + 1) (set_messages [] s2)
         else (Returned tt, s2).
Proof.
  destruct (processQuestion_spec question (i + 1) s) as (result & Hr & _).
  exists result. split; [exact Hr|]. cbv zeta.
  cbn [sequentialLoop]. unfold bind at 1. unfold settle.
  destruct (processQuestion question (i + 1) s) as [o s1].
  simpl in Hr. subst o. cbn [fst snd].
  unfold bind at 1. unfold bind at 2. unfold push_result, modify. cbn [fst snd].
  destruct (br_success result); [|destruct continueOnError]; reflexivity.
Qed.

(** What the results of a run look like: [new] are the results pushed for
    the records processed, a prefix of [questions]. *)
Definition stoppedAtFailure (new : list BatchResult) (total : nat) : Prop :=
  Forall (fun r => br_success r = true) (removelast new)
  /\ (length new < total ->
      exists front r, new = front ++ [r] /\ br_success r = false).

Lemma sequentialLoop_results (continueOnError : bool) (questions : list BatchQuestion) :
  forall i s,
  exists new,
    fst (sequentialLoop continueOnError questions i s) = Returned tt
    /\ batch_results (host (snd (sequentialLoop continueOnError questions i s)))
       = batch_results (host s) ++ new
    /\ map br_question new = firstn (length new) (map q_question questions)
    /\ (continueOnError = true -> length new = length questions)
    /\ (continueOnError = false -> stoppedAtFailure new (length questions)).
Proof.
  induction questions as [|question rest IH]; intros i s.
  - exists []. simpl. rewrite app_nil_r.
    do 4 (split; [reflexivity|]).
    intros _. split; [constructor|]. simpl. lia.
  - destruct (sequentialLoop_cons continueOnError question rest i s)
      as (result & Hr & Eloop).
    cbv zeta in Eloop. rewrite Eloop.
    destruct (processQuestion_spec question (i + 1) s) as (r' & Hr' & Hq & _).
    assert (r' = result) by congruence. subst r'.
    pose proof (processQuestion_keeps_results question (i + 1) s) as Hkeep.
    set (s1 := snd (processQuestion question (i + 1) s)) in *.
    set (s2 := set_host (set_results (batch_results (host s1) ++ [result]) (host s1)) s1).
    destruct (br_success result || continueOnError) eqn:Hgo.
    + destruct (IH (i + 1) (set_messages [] s2)) as (new & Hret & Hres & Hpre & Hall & Hstop).
      exists (result :: new). split; [exact Hret|]. split; [|split; [|split]].
      * rewrite Hres. subst s2. simpl. rewrite Hkeep, <- app_assoc. reflexivity.
      * simpl. now rewrite Hq, Hpre.
      * intros Hc. simpl. now rewrite (Hall Hc).
      * intros Hc. subst continueOnError. rewrite orb_false_r in Hgo.
        destruct (Hstop eq_refl) as [Hfront Hlast]. split.
        -- destruct new as [|r new]; [constructor|].
           change (removelast (result :: r :: new))
             with (result :: removelast (r :: new)).
           constructor; auto.
        -- simpl. intros Hlen.
           destruct Hlast as (front & r & Hnew & Hfail); [lia|].
           exists (result :: front), r. subst new. auto.
    + apply orb_false_iff in Hgo. destruct Hgo as [Hfail Hc].
      exists [result]. split; [reflexivity|]. split; [|split; [|split]].
      * subst s2. simpl. now rewrite Hkeep.
      * simpl. now rewrite Hq.
      * congruence.
      * intros _. split; [constructor|].
        intros _. exists [], result. auto.
Qed.

(** The LLM calls of a run: those of the first record were made on the
    transcript the run found, followed by the seed of the record; those of
    every later record on the seed of that record alone; in both cases only
    assistant turns follow. *)
Definition isolated (initial : list Message) (questions : list BatchQuestion)
    (ev : Event) : Prop :=
  (exists question rest,
      questions = question :: rest /\ sees (initial ++ seed question) ev)
  \/ (exists question, In question (tl questions) /\ sees (seed question) ev).

Lemma sequentialLoop_isolated (continueOnError : bool) (questions : list BatchQuestion) :
  forall i s,
    logs (isolated (chat_messages s) questions) s
         (snd (sequentialLoop continueOnError questions i s)).
Proof.
  induction questions as [|question rest IH]; intros i s.
  - apply (frame_refl (R := logs (isolated (chat_messages s) []))).
  - destruct (sequentialLoop_cons continueOnError question rest i s)
      as (result & Hr & Eloop).
    cbv zeta in Eloop. rewrite Eloop.
    destruct (processQuestion_sees question (i + 1) s) as (evs & Ht & Hsees).
    set (s1 := snd (processQuestion question (i + 1) s)) in *.
    set (s2 := set_host (set_results (batch_results (host s1) ++ [result]) (host s1)) s1).
    assert (Hfirst : Forall (isolated (chat_messages s) (question :: rest)) evs).
    { revert Hsees. apply Forall_impl. intros ev Hev. left. eauto. }
    destruct (br_success result || continueOnError).
    + destruct (IH (i + 1) (set_messages [] s2)) as (evs' & Ht' & Hsees').
      exists (evs ++ evs'). split.
      * rewrite Ht'. simpl. rewrite Ht. now rewrite app_assoc.
      * apply Forall_app. split; auto.
        revert Hsees'. apply Forall_impl. intros ev [(q & rest' & Hq & Hev)|(q & Hin & Hev)].
        -- right. exists q. subst rest. simpl. auto.
        -- right. exists q. simpl. split; auto.
           destruct rest; simpl in *; [contradiction|auto].
    + exists evs. simpl. auto.
Qed.

(** The result [processQuestion] builds for a record from what [chat]
    settled to on it. *)
Definition resultOf (question : BatchQuestion) (o : Outcome string)
    (result : BatchResult) : Prop :=
  br_question result = q_question question
  /\ br_context result = q_context question
  /\ br_expectedResult result = q_expectedResult question
  /\ match o with
     | Returned response =>
         br_success result = true /\ br_response result = response
         /\ br_error result = None
     | Thrown e =>
         br_success result = false /\ br_response result = ""
         /\ br_error result = Some (error_text e)
     end.

(** [this.results.push(result)]. *)
Definition pushed (result : BatchResult) s : State World BatchHost :=
  set_host (set_results (batch_results (host s) ++ [result]) (host s)) s.

(** The course of a sequential run from record number [i + 1] on, as the
    list of the results pushed and the state left.  Each record is processed
    in the state the record before it left, with the transcript cleared; its
    result tells whether [chat] returned or threw on it; the run goes on to
    the next record unless the result is a failure and [continueOnError] is
    false, in which case it stops there. *)
Inductive batchRun (continueOnError : bool)
  : list BatchQuestion -> nat -> State World BatchHost ->
    list BatchResult -> State World BatchHost -> Prop :=
| batchRun_done i s : batchRun continueOnError [] i s [] s
| batchRun_next question rest i s result s1 results s' :
    processQuestion question (i + 1) s = (Returned result, s1) ->
    resultOf question
      (fst (chat (q_question question) questionOptions (seeded question s))) result ->
    br_success result || continueOnError = true ->
    batchRun continueOnError rest (i + 1) (set_messages [] (pushed result s1))
             results s' ->
    batchRun continueOnError (question :: rest) i s (result :: results) s'
| batchRun_stop question rest i s result s1 :
    processQuestion question (i + 1) s = (Returned result, s1) ->
    resultOf question
      (fst (chat (q_question question) questionOptions (seeded question s))) result ->
    br_success result = false ->
    continueOnError = false ->
    batchRun continueOnError (question :: rest) i s [result] (pushed result s1).

Lemma processQuestion_result (question : BatchQuestion) (questionNumber : nat) s :
  exists result s1,
    processQuestion question questionNumber s = (Returned result, s1)
    /\ resultOf question
         (fst (chat (q_question question) questionOptions (seeded question s))) result.
Proof.
  unfold processQuestion, seeded, resultOf, now, addMessage, push_message.
  unfold bind, try_catch, modify, get_state, ret.
  destruct (Date_now (world s)) as [startTime w]. cbn [fst snd].
  destruct (truthy (q_context question)); cbn [fst snd host set_world];
    match goal with |- context [chat ?q ?o ?x] => destruct (chat q o x) as [[response|e] s3] end;
    cbn [fst snd]; destruct (Date_now (world s3)) as [endTime w3]; cbn [fst snd];
    eexists; eexists; (split; [reflexivity|]); repeat split.
Qed.

Lemma sequentialLoop_run (continueOnError : bool) (questions : list BatchQuestion) :
  forall i s,
  exists new,
    batchRun continueOnError questions i s new
             (snd (sequentialLoop continueOnError questions i s))
    /\ batch_results (host (snd (sequentialLoop continueOnError questions i s)))
       = batch_results (host s) ++ new.
Proof.
  induction questions as [|question rest IH]; intros i s.
  - exists []. simpl. rewrite app_nil_r. split; [constructor|reflexivity].
  - destruct (sequentialLoop_cons continueOnError question rest i s)
      as (result & Hr & Eloop).
    cbv zeta in Eloop. rewrite Eloop.
    destruct (processQuestion_result question (i + 1) s) as (r' & s1' & Ep & Hof).
    pose proof (processQuestion_keeps_results question (i + 1) s) as Hkeep.
    rewrite Ep in Hr, Hkeep |- *. cbn [fst snd] in *.
    assert (r' = result) by congruence. subst r'.
    fold (pushed result s1').
    destruct (br_success result || continueOnError) eqn:Hgo.
    + destruct (IH (i + 1) (set_messages [] (pushed result s1')))
        as (new & Hrun & Hres).
      exists (result :: new). split.
      * eapply batchRun_next; eauto.
      * rewrite Hres. unfold pushed. simpl. rewrite Hkeep, <- app_assoc. reflexivity.
    + apply orb_false_iff in Hgo. destruct Hgo as [Hfail Hc].
      exists [result]. split.
      * eapply batchRun_stop; eauto.
      * unfold pushed. simpl. now rewrite Hkeep.
Qed.

(** C8.  With [maxConcurrency = 1] the records are processed one after the
    other, in order, and the run never throws.  The results returned are the
    course of the run: each is the result [processQuestion] returned for its
    record, processed in the state the record before it left with the
    transcript cleared, and it is marked failed, with the text of the error,
    exactly when [chat] threw on that record.  With [continueOnError = true]
    every record has its result in the list.  With [continueOnError = false]
    the run stops right after the first record that fails: every result but
    the last is a success and, when fewer results than records were
    produced, the last result is a failure.  The transcript is cleared
    between records: the LLM calls of every record but the first see only
    the seed of that record (its context as a system turn, when it has one,
    then its question) followed by assistant turns. *)
Theorem sequential_batch_processing (questions : list BatchQuestion)
    (options : BatchOptions) s :
  let continueOnError := default true (bo_continueOnError options) in
  let run := processSequentially questions options s in
  exists results,
    fst run = Returned results
    /\ batch_results (host (snd run)) = results
    /\ batchRun continueOnError questions 0
                (set_host (set_results [] (host s)) s) results (snd run)
    /\ map br_question results
       = firstn (length results) (map q_question questions)
    /\ (continueOnError = true -> length results = length questions)
    /\ (continueOnError = false -> stoppedAtFailure results (length questions))
    /\ (forall question questionNumber s0,
          exists result,
            fst (processQuestion question questionNumber s0) = Returned result
            /\ br_question result = q_question question
            /\ (br_success result = false
                <-> exists e, fst (chat (q_question question) questionOptions
                                    (seeded question s0)) = Thrown e))
    /\ logs (isolated (chat_messages s) questions) s (snd run).
Proof.
  intros continueOnError run.
  set (s0 := set_host (set_results [] (host s)) s).
  destruct (sequentialLoop_results continueOnError questions 0 s0)
    as (new & Hret & Hres & Hpre & Hall & Hstop).
  destruct (sequentialLoop_run continueOnError questions 0 s0)
    as (new' & Hrun & Hres').
  assert (new' = new).
  { rewrite Hres in Hres'. now apply app_inv_head in Hres'. }
  subst new'.
  pose proof (sequentialLoop_isolated continueOnError questions 0 s0) as Hiso.
  set (s1 := snd (sequentialLoop continueOnError questions 0 s0)) in *.
  assert (E : run = (Returned new, s1)).
  { subst run. unfold processSequentially. fold continueOnError.
    rewrite (bind_returned _ _ s (a := tt) (s1 := s0)) by reflexivity.
    unfold bind, get_state, ret. subst s1.
    destruct (sequentialLoop continueOnError questions 0 s0) as [o s1].
    simpl in Hret, Hres. subst o. now rewrite Hres. }
  rewrite E. exists new. cbn [fst snd].
  split; [reflexivity|]. split; [exact Hres|]. split; [exact Hrun|].
  split; [exact Hpre|].
  split; [exact Hall|]. split; [exact Hstop|]. split; [|exact Hiso].
  intros question questionNumber s2.
  destruct (processQuestion_spec question questionNumber s2)
    as (result & Hr & Hq & Hs & _).
  exists result. split; [exact Hr|]. split; [exact Hq|]. rewrite Hs.
  destruct (fst (chat (q_question question) questionOptions (seeded question s2))).
  - split; [discriminate|intros (e & He); discriminate].
  - split; eauto.
Qed.

End BatchProperties.

(* ================================================================== *)
(** * Concrete runs *)

Module Runs.

Import Sim.

(** A hub that registered server [a] while it was up; the server is down by
    the time it is added again. *)
Definition conn_a : McpConnection :=
  {| conn_config := stdio "a"; conn_process := None; conn_connected := true;
     conn_tools := [tool "read"]; conn_resources := [] |}.

Definition world_up : World := worldOf [up "a" ["read"]; up "b" ["write"]] [] (say "done").

Definition world_down : World := worldOf [down "a"; up "b" ["write"]] [] (say "done").

Definition hub_with_a : State World unit :=
  set_world world_down (snd (addServer (stdio "a") (start tt world_up))).

Example hub_with_a_connections :
  hub_connections hub_with_a = [("a", conn_a)].
Proof. vm_compute. reflexivity. Qed.

(** C7 as stated fails: the second [addServer] of [a] throws on the transport,
    and the map, which held the session of [a], is left empty. *)
Lemma failed_readd_changes_the_map :
  fst (addServer (stdio "a") hub_with_a) = Thrown unreachable
  /\ hub_connections hub_with_a = [("a", conn_a)]
  /\ hub_connections (snd (addServer (stdio "a") hub_with_a)) = []
  /\ hub_connections (snd (addServer (stdio "a") hub_with_a))
     <> hub_connections hub_with_a.
Proof.
  vm_compute. repeat split; discriminate.
Qed.

Lemma failed_addServer_keeps_the_other_sessions_witness :
  let s' := snd (addServer (stdio "a") hub_with_a) in
  map_get "a" (hub_connections s') = None
  /\ hub_connections s' = map_delete "a" (hub_connections hub_with_a)
  /\ (forall other, other <> "a" ->
      map_get other (hub_connections s') = map_get other (hub_connections hub_with_a))
  /\ (map_get "a" (hub_connections hub_with_a) = None ->
      hub_connections s' = hub_connections hub_with_a).
Proof.
  apply (failed_addServer_keeps_the_other_sessions (stdio "a") (e := unreachable)
           hub_with_a).
  vm_compute. reflexivity.
Defined.

(** The same hub when server [a] has come back offering [write] only. *)
Definition world_changed : World :=
  worldOf [up "a" ["write"]; up "b" ["write"]] [] (say "done").

Definition hub_with_old_a : State World unit :=
  set_world world_changed (snd (addServer (stdio "a") (start tt world_up))).

(** Both ways a replacement can go: the connection fails, and nothing is
    registered; the connection succeeds, and only the tools discovered anew
    are listed. *)
Lemma readding_discards_the_old_session_witness :
  (fst (addServer (stdio "a") hub_with_a) = Thrown unreachable
   /\ hub_connections (snd (addServer (stdio "a") hub_with_a)) = []
   /\ ~ In (tool "read") (getAvailableTools (snd (addServer (stdio "a") hub_with_a))))
  /\ (fst (addServer (stdio "a") hub_with_old_a) = Returned tt
      /\ getAvailableTools (snd (addServer (stdio "a") hub_with_old_a)) = [tool "write"]
      /\ ~ In (tool "read")
              (getAvailableTools (snd (addServer (stdio "a") hub_with_old_a)))).
Proof.
  split.
  - destruct (readding_discards_the_old_session (stdio "a") (old := conn_a) hub_with_a)
      as (_ & _ & _ & _ & Hr & Hm & _ & Hgone); [reflexivity|].
    split; [exact Hr|]. split; [exact Hm|].
    apply (Hgone (tool "read")).
    + left. reflexivity.
    + intros [].
    + intros c Hc. discriminate Hc.
  - destruct (readding_discards_the_old_session (stdio "a") (old := conn_a)
                hub_with_old_a)
      as (_ & _ & _ & _ & Hr & _ & Ht & Hgone); [reflexivity|].
    split; [exact Hr|]. split; [exact Ht|].
    apply (Hgone (tool "read")).
    + left. reflexivity.
    + intros [].
    + intros c Hc. vm_compute in Hc. inversion Hc. subst c.
      simpl. intros [E|[]]. discriminate E.
Defined.

(** The tool [read], offered by the old session only, is gone after the
    failed replacement. *)
Example read_is_gone_after_failed_readd :
  In (tool "read") (getAvailableTools hub_with_a)
  /\ getAvailableTools (snd (addServer (stdio "a") hub_with_a)) = [].
Proof. vm_compute. auto. Qed.

(** C1 on a run: two servers added, the first removed. *)
Example catalog_after_add_add_remove :
  let s := snd (run_ops [OpAddServer (stdio "a"); OpAddServer (stdio "b");
                         OpRemoveServer "a"] (start tt world_up)) in
  getAvailableTools s = [tool "write"] /\ getServerNames s = ["b"].
Proof. vm_compute. auto. Qed.

(** C6 on a run: the descriptor configures a timeout of 5 and the hub was
    built with 30000 ms; the forwarded request names neither. *)
Definition stdio_timeout_5 : McpServerWithName :=
  {| cfg_name := "a"; cfg_type := "stdio"; cfg_command := Some "node";
     cfg_args := None; cfg_env := None; cfg_url := None; cfg_disabled := false;
     cfg_timeout := 5%Z; cfg_autoApprove := [] |}.

Example forwarded_call_has_no_timeout :
  let s := snd (addServer stdio_timeout_5 (start tt world_up)) in
  let request := {| req_serverName := "a"; req_toolName := "read";
                    req_arguments := JObj [] |} in
  hub_timeoutMs s = 30000%Z
  /\ trace (snd (callTool request s))
     = trace s ++ [EvRequest stdio_timeout_5 (ToolsCall "read" (JObj [])) None].
Proof. vm_compute. auto. Qed.

(** A conversation in which the LLM asks for [read], gets its result, and
    answers. *)
Definition world_chat : World :=
  worldOf [up "a" ["read"]]
          [request "looking" [call "c1" "read" "{}"]; say "done"] (say "done").

Definition after_chat : State World unit :=
  snd (chat "hello" plainOptions
            (snd (addServer (stdio "a") (start tt world_chat)))).

Example after_chat_transcript :
  chat_messages after_chat =
  [ userMessage "hello";
    {| msg_role := assistant; msg_content := "looking";
       msg_toolCalls := Some [call "c1" "read" "{}"];
       msg_toolResults := Some [{| tr_toolCallId := "c1"; tr_content := "{}";
                                   tr_isError := Some false |}] |};
    {| msg_role := assistant; msg_content := "done";
       msg_toolCalls := None; msg_toolResults := None |} ].
Proof. vm_compute. reflexivity. Qed.

(** C9 as stated fails: the call [c1] already has its result, so no pending
    call matches; [executeToolManually] still succeeds and adds a second
    result to the turn. *)
Lemma resolving_a_resolved_call_succeeds :
  Forall (fun m => pendingCall "c1" m = false) (chat_messages after_chat)
  /\ fst (executeToolManually "c1" "again" None after_chat) = Returned tt
  /\ chat_messages (snd (executeToolManually "c1" "again" None after_chat))
     <> chat_messages after_chat.
Proof.
  split; [|split].
  - vm_compute. repeat constructor.
  - vm_compute. reflexivity.
  - vm_compute. discriminate.
Qed.

(** An LLM that asks for a tool in every answer. *)
Definition eager : Collaborators World := {|
  new_URL := new_URL (Collaborators := collab);
  client_connect := client_connect (Collaborators := collab);
  client_close := client_close (Collaborators := collab);
  request_tools_list := request_tools_list (Collaborators := collab);
  request_resources_list := request_resources_list (Collaborators := collab);
  request_tools_call := request_tools_call (Collaborators := collab);
  request_resources_read := request_resources_read (Collaborators := collab);
  llm_chat := fun _ _ _ w => (request "again" [call "c1" "read" "{}"], w);
  JSON_parse := JSON_parse (Collaborators := collab);
  JSON_stringify := JSON_stringify (Collaborators := collab);
  Date_now := Date_now (Collaborators := collab)
|}.

Definition twoTurns : ChatOptions World unit :=
  {| opt_temperature := None; opt_maxTokens := None; opt_maxTurns := Some 2%Z;
     opt_autoExecuteTools := None; opt_onToolExecution := None |}.

Definition hub_for_eager : State World unit :=
  snd (addServer (collab := eager) (stdio "a") (start tt world_up)).



Example two_turns_two_invocations :
  let run := chat (collab := eager) "hello" twoTurns hub_for_eager in
  fst run = Returned "again"
  /\ llm_calls (trace (snd run)) = 2
  /\ length (chat_messages (snd run)) = 3.
Proof. vm_compute. auto. Qed.

(** C3 on a run: [read] is listed by [a], which rejects the call, and by
    [b]; the call is tried on [a], then on [b], whose answer is the result.
    The second call, whose arguments do not parse, leaves an error result. *)
Definition world_route : World :=
  worldOf [ {| srv_name := "a"; srv_up := true; srv_tools := Some [tool "read"];
               srv_resources := Some []; srv_failing := ["read"] |};
            up "b" ["read"] ]
          [request "go" [call "c1" "read" "{}"; call "c2" "read" ""]; say "done"]
          (say "done").

Definition hub_route : State World unit :=
  snd (run_ops [OpAddServer (stdio "a"); OpAddServer (stdio "b")]
               (start tt world_route)).

Definition toolCallsOf (t : list Event) : list (string * string) :=
  flat_map (fun ev =>
              match ev with
              | EvRequest client (ToolsCall name _) _ => [(cfg_name client, name)]
              | _ => []
              end) t.

Example routed_to_the_first_server_that_accepts :
  let run := chat "hello" plainOptions hub_route in
  fst run = Returned "done"
  /\ toolCallsOf (trace (snd run)) = [("a", "read"); ("b", "read")]
  /\ nth_error (chat_messages (snd run)) 1
     = Some {| msg_role := assistant; msg_content := "go";
               msg_toolCalls := Some [call "c1" "read" "{}"; call "c2" "read" ""];
               msg_toolResults :=
                 Some [ {| tr_toolCallId := "c1"; tr_content := "{}";
                           tr_isError := Some false |};
                        {| tr_toolCallId := "c2";
                           tr_content := "Error: Unexpected end of JSON input";
                           tr_isError := Some true |} ] |}.
Proof. vm_compute. auto. Qed.

(** C10 on a run: the LLM answers once with a tool call, then rejects. *)
Definition overloaded : Error := ExternalError "Error" "overloaded".

Definition world_failing : World :=
  worldOf [up "a" ["read"]]
          [request "looking" [call "c1" "read" "{}"]; Thrown overloaded] (say "done").

Example transcript_after_llm_failure :
  let run := chat "hello" plainOptions
                  (snd (addServer (stdio "a") (start tt world_failing))) in
  fst run = Thrown overloaded
  /\ chat_messages (snd run)
     = [ userMessage "hello";
         {| msg_role := assistant; msg_content := "looking";
            msg_toolCalls := Some [call "c1" "read" "{}"];
            msg_toolResults := Some [{| tr_toolCallId := "c1"; tr_content := "{}";
                                        tr_isError := Some false |}] |} ].
Proof. vm_compute. auto. Qed.

(** C8 on a run: three records, the LLM rejecting during the second. *)
Definition world_batch : World :=
  worldOf [] [say "one"; Thrown overloaded; say "three"] (say "done").

Definition record (question : string) (context : option string) : BatchQuestion :=
  {| q_id := None; q_question := question; q_context := context;
     q_expectedResult := None |}.

Definition threeRecords : list BatchQuestion :=
  [record "q1" None; record "q2" (Some "be brief"); record "q3" None].

Definition batchStart : State World BatchHost :=
  start {| batch_results := []; batch_currentToolCalls := [] |} world_batch.

Definition outcomes (o : Outcome (list BatchResult)) : list (string * string * bool) :=
  match o with
  | Returned results => map (fun r => (br_id r, br_question r, br_success r)) results
  | Thrown _ => []
  end.

Example batch_continues_on_error :
  outcomes (fst (processSequentially threeRecords
                   {| bo_maxConcurrency := Some 1%Z; bo_continueOnError := Some true |}
                   batchStart))
  = [("Q1", "q1", true); ("Q2", "q2", false); ("Q3", "q3", true)].
Proof. vm_compute. reflexivity. Qed.

Example batch_stops_on_error :
  outcomes (fst (processSequentially threeRecords
                   {| bo_maxConcurrency := Some 1%Z; bo_continueOnError := Some false |}
                   batchStart))
  = [("Q1", "q1", true); ("Q2", "q2", false)].
Proof. vm_compute. reflexivity. Qed.

Definition transcriptsOf (t : list Event) : list (list (Role * string)) :=
  flat_map (fun ev =>
              match ev with
              | EvLlmChat transcript _ _ =>
                  [map (fun m => (msg_role m, msg_content m)) transcript]
              | _ => []
              end) t.

Example batch_transcripts_are_isolated :
  transcriptsOf
    (trace (snd (processSequentially threeRecords
                   {| bo_maxConcurrency := None; bo_continueOnError := None |}
                   batchStart)))
  = [ [(user, "q1")];
      [(system, "be brief"); (user, "q2")];
      [(user, "q3")] ].
Proof. vm_compute. reflexivity. Qed.

Definition threeOps : list HubOp :=
  [OpAddServer (stdio "a"); OpAddServer (stdio "b"); OpRemoveServer "a"].

Lemma hub_catalog_is_union_of_connected_sessions_witness :
  let s' := snd (run_ops threeOps (start tt world_up)) in
  (NoDup (map_keys (hub_connections s'))
   /\ getAvailableTools s'
      = flat_map (fun kv => conn_tools (snd kv)) (hub_connections s')
   /\ getAvailableResources s'
      = flat_map (fun kv => conn_resources (snd kv)) (hub_connections s'))
  /\ map_get "a" (hub_connections s') = None.
Proof.
  destruct (hub_catalog_is_union_of_connected_sessions threeOps (start tt world_up))
    as (_ & _ & Hlive & Hgone).
  split.
  - apply Hlive. reflexivity.
  - apply (Hgone [OpAddServer (stdio "a"); OpAddServer (stdio "b")] "a" []);
      reflexivity.
Defined.

Lemma tool_calls_run_in_order_with_one_result_each_witness :
  exists toolResults,
    fst (executeToolCalls [call "c1" "read" "{}"; call "c2" "read" ""] None hub_route)
    = Returned toolResults
    /\ map tr_toolCallId toolResults = ["c1"; "c2"].
Proof.
  destruct (tool_calls_run_in_order_with_one_result_each
              (World := World) (Host := unit) None) as (_ & Hids & _).
  apply (Hids (no_observer_is_quiet (Host := unit))
              [call "c1" "read" "{}"; call "c2" "read" ""] hub_route).
Defined.

(** The LLM rejects in the second iteration, after one iteration completed
    with its tool executed. *)
Lemma chat_keeps_the_transcript_when_the_llm_fails_witness :
  let s := snd (addServer (stdio "a") (start tt world_failing)) in
  let run := chat "hello" plainOptions s in
  fst run = Thrown overloaded
  /\ exists turns,
       chat_messages (snd run) = chat_messages s ++ userMessage "hello" :: turns
       /\ length turns = 1
       /\ Forall resolvedTurn turns.
Proof.
  cbv zeta.
  set (s := snd (addServer (stdio "a") (start tt world_failing))).
  set (s0 := set_messages (chat_messages s ++ [userMessage "hello"]) s).
  set (lo := llmOptionsOf plainOptions).
  set (response := {| llm_content := "looking";
                      llm_toolCalls := Some [call "c1" "read" "{}"];
                      llm_usage := None |}).
  set (w1 := snd (llm_chat (chat_messages s0) (getAvailableTools s0) lo (world s0))).
  set (sk := snd (toolTurn plainOptions response [call "c1" "read" "{}"]
                           (asked lo w1 s0))).
  destruct (chat_keeps_the_transcript_when_the_llm_fails "hello" plainOptions s)
    as (_ & Hprop & _).
  destruct (Hprop 1 sk overloaded
              (snd (llm_chat (chat_messages sk) (getAvailableTools sk) lo (world sk))))
    as [Hrun Hturns].
  - eapply turnsCompleted_S with (response := response) (w := w1);
      [apply turnsCompleted_O|reflexivity|reflexivity|reflexivity].
  - right. reflexivity.
  - simpl. lia.
  - reflexivity.
  - split; [rewrite Hrun; reflexivity|exact Hturns].
Defined.

End Runs.

(* ================================================================== *)
(** * More of the hub *)

Section HubMore.

Context {World : Type} {collab : Collaborators World} {Host : Type}.

Implicit Types s : State World Host.

(** The servers a trace shows closed, in order. *)
Definition closes (t : list Event) : list McpServerWithName :=
  flat_map (fun ev => match ev with EvClose c => [c] | _ => [] end) t.

Lemma closes_app (t1 t2 : list Event) : closes (t1 ++ t2) = closes t1 ++ closes t2.
Proof. unfold closes. apply flat_map_app. Qed.

(** The transport calls a trace shows: connections opened and requests sent. *)
Definition reaches_out (ev : Event) : bool :=
  match ev with
  | EvConnect _ | EvRequest _ _ _ => true
  | _ => false
  end.

(** X1.  A descriptor that lacks the field its transport needs, or names no
    known transport, is refused before anything is sent: [createConnection]
    throws with the state untouched.  [addServer] has by then removed the
    session registered under the name, if any. *)
Theorem incomplete_descriptor_is_refused_before_connecting
    (config : McpServerWithName) s :
  let refusal :=
    if String.eqb (cfg_type config) "stdio" then
      if truthy (cfg_command config) then None else Some StdioRequiresCommand
    else if String.eqb (cfg_type config) "sse" then
      if truthy (cfg_url config) then None else Some SseRequiresUrl
    else Some (UnknownTransportType (cfg_type config)) in
  forall e, refusal = Some e ->
    createConnection config s = (Thrown e, s)
    /\ addServer config s = (Thrown e, snd (removeServer (cfg_name config) s))
    /\ map_get (cfg_name config) (hub_connections (snd (addServer config s))) = None
    /\ filter reaches_out (trace (snd (addServer config s)))
       = filter reaches_out (trace s).
Proof.
  intros refusal e Hr. subst refusal.
  assert (Hc : forall s0 : State World Host, createConnection config s0 = (Thrown e, s0)).
  { intros s0. unfold createConnection.
    destruct (String.eqb (cfg_type config) "stdio").
    - destruct (truthy (cfg_command config)); [discriminate|].
      inversion Hr. reflexivity.
    - destruct (String.eqb (cfg_type config) "sse").
      + destruct (truthy (cfg_url config)); [discriminate|].
        inversion Hr. reflexivity.
      + inversion Hr. reflexivity. }
  destruct (removeServer_spec (cfg_name config) s) as (s1 & E & Hd & _ & Ht & Hs).
  assert (Ha : addServer config s = (Thrown e, s1)).
  { unfold addServer.
    rewrite (bind_returned _ _ s (a := s) (s1 := s)) by reflexivity.
    destruct (map_has (cfg_name config) (hub_connections s)) eqn:Hh.
    - rewrite (bind_returned _ _ s E). apply bind_thrown. apply Hc.
    - assert (G : map_get (cfg_name config) (hub_connections s) = None).
      { destruct (map_get (cfg_name config) (hub_connections s)) eqn:G; auto.
        assert (map_has (cfg_name config) (hub_connections s) = true)
          by (apply map_has_get; eauto).
        congruence. }
      rewrite (Hs G).
      rewrite (bind_returned _ _ s (a := tt) (s1 := s)) by reflexivity.
      apply bind_thrown. apply Hc. }
  split; [apply Hc|]. rewrite Ha, E. cbn [snd].
  split; [reflexivity|]. split.
  - rewrite Hd. apply map_get_delete_same.
  - destruct (map_get (cfg_name config) (hub_connections s)) as [c|] eqn:G.
    + destruct (disconnectConnection_spec (cfg_name config) c s)
        as (s2 & evs & E2 & _ & _ & Ht2).
      unfold removeServer in E.
      rewrite (bind_returned _ _ s (a := s) (s1 := s)) in E by reflexivity.
      rewrite G in E. rewrite (bind_returned _ _ s E2) in E.
      unfold bind, modify, console_log in E. inversion E. cbn [trace set_console set_connections].
      clear E H0.
      revert E2. unfold disconnectConnection. unfold_monad. simpl.
      destruct (client_close (conn_config c) (world s)) as [[e0|] w]; simpl;
        (destruct (conn_process c) as [p|]; [destruct (proc_killed p)|]); simpl;
        intros E2; inversion E2; simpl;
        rewrite ?filter_app; simpl; rewrite ?app_nil_r; reflexivity.
    + now rewrite (Hs eq_refl).
Qed.

(** X2.  Discovery at connect time, for a process transport with its command:
    once the transport is open both discovery requests are sent; a failure of
    the tool listing is the failure of [createConnection], whatever the
    resource listing answered, while a failure of the resource listing only
    leaves the catalog of resources empty. *)
Theorem discovery_needs_tools_and_tolerates_missing_resources
    (config : McpServerWithName) s (w1 w2 w3 : World)
    (toolsAnswer : Outcome ListToolsResult)
    (resourcesAnswer : Outcome ListResourcesResult) :
  cfg_type config = "stdio" ->
  truthy (cfg_command config) = true ->
  client_connect config (world s) = (None, w1) ->
  request_tools_list config None w1 = (toolsAnswer, w2) ->
  request_resources_list config None w2 = (resourcesAnswer, w3) ->
  fst (createConnection config s)
  = match toolsAnswer with
    | Thrown e => Thrown e
    | Returned toolsResult =>
        Returned
          {| conn_config := config; conn_process := None; conn_connected := true;
             conn_tools := map copyTool (default [] (lt_tools toolsResult));
             conn_resources :=
               match resourcesAnswer with
               | Returned resourcesResult =>
                   map copyResource (default [] (lr_resources resourcesResult))
               | Thrown _ => []
               end |}
    end
  /\ trace (snd (createConnection config s))
     = trace s ++ [EvConnect config; EvRequest config ToolsList None;
                   EvRequest config ResourcesList None].
Proof.
  intros Htype Hcmd Hconn Htools Hres.
  unfold createConnection, client_request_tools_list, client_request_resources_list.
  rewrite Htype, Hcmd. change (String.eqb "stdio" "stdio") with true.
  simpl negb. cbv iota.
  unfold emit. unfold_monad. cbn [fst snd world set_trace set_world trace].
  rewrite Hconn. cbn [fst snd world set_trace set_world trace].
  rewrite Htools. cbn [fst snd world set_trace set_world trace].
  destruct toolsAnswer as [toolsResult|e];
    cbn [fst snd world set_trace set_world trace];
    rewrite Hres; destruct resourcesAnswer as [resourcesResult|e'];
    cbn [fst snd world set_trace set_world trace];
    unfold ret, throw; cbn [fst snd world set_trace set_world trace];
    rewrite <- ?app_assoc; simpl app;
    (split; [|reflexivity]); try reflexivity.
  - destruct (lt_tools toolsResult), (lr_resources resourcesResult); reflexivity.
  - destruct (lt_tools toolsResult); reflexivity.
Qed.

Lemma readResource_forwarded (request : McpResourceRequest) (c : McpConnection) s :
  map_get (rreq_serverName request) (hub_connections s) = Some c ->
  conn_connected c = true ->
  let answer :=
    request_resources_read (conn_config c) (rreq_uri request) None (world s) in
  readResource request s =
  (match fst answer with
   | Returned result =>
       Returned {| rresp_contents := default [] (raw_contents result) |}
   | Thrown cause => Thrown (FailedToReadResource (rreq_uri request) cause)
   end,
   set_world (snd answer)
     (set_trace (trace s ++ [EvRequest (conn_config c)
                                (ResourcesRead (rreq_uri request)) None]) s)).
Proof.
  intros Hg Hc. unfold readResource.
  rewrite (bind_returned _ _ s (a := s) (s1 := s)) by reflexivity.
  rewrite Hg, Hc. simpl.
  unfold try_catch, client_request_resources_read, bind, emit, modify, ask, ret, throw.
  simpl.
  destruct (request_resources_read (conn_config c) (rreq_uri request) None (world s))
    as [[result|cause] w]; reflexivity.
Qed.

(** X3.  [readResource] throws the not-connected error exactly when no session is
    registered under the server name or the session is flagged disconnected.
    Otherwise the request is forwarded without the URI being looked up in
    the catalog of the session; a failure comes back wrapped with its cause,
    an answer with its content entries. *)
Theorem readResource_outcomes (request : McpResourceRequest) s :
  let session := map_get (rreq_serverName request) (hub_connections s) in
  let outcome := fst (readResource request s) in
  ((exists e, outcome = Thrown e /\ is_not_connected e = true)
   <-> (session = None \/ exists c, session = Some c /\ conn_connected c = false))
  /\ (forall c, session = Some c -> conn_connected c = true ->
      trace (snd (readResource request s))
      = trace s ++ [EvRequest (conn_config c) (ResourcesRead (rreq_uri request)) None]
      /\ outcome
         = match fst (request_resources_read (conn_config c) (rreq_uri request)
                        None (world s)) with
           | Thrown cause => Thrown (FailedToReadResource (rreq_uri request) cause)
           | Returned result =>
               Returned {| rresp_contents := default [] (raw_contents result) |}
           end).
Proof.
  intros session outcome. subst session outcome.
  destruct (map_get (rreq_serverName request) (hub_connections s)) as [c|] eqn:Hg.
  - destruct (conn_connected c) eqn:Hc.
    + pose proof (readResource_forwarded request s Hg Hc) as E. cbv zeta in E.
      rewrite E. cbn [fst snd]. split.
      * split.
        -- intros (e & He & Hk).
           destruct (fst (request_resources_read _ _ _ _)); inversion He; subst e;
             discriminate.
        -- intros [H|(c' & H & H')]; [discriminate|].
           inversion H. subst c'. congruence.
      * intros c' Hc' _. inversion Hc'. subst c'. split; [reflexivity|].
        destruct (fst (request_resources_read _ _ _ _)); reflexivity.
    + assert (E : readResource request s =
                  (Thrown (ServerNotConnected (rreq_serverName request)), s)).
      { unfold readResource.
        rewrite (bind_returned _ _ s (a := s) (s1 := s)) by reflexivity.
        now rewrite Hg, Hc. }
      rewrite E. cbn [fst snd]. split.
      * split; [intros _; right; eauto|intros _; eexists; split; reflexivity].
      * intros c' Hc'. inversion Hc'. subst c'. congruence.
  - assert (E : readResource request s =
                (Thrown (ServerNotConnected (rreq_serverName request)), s)).
    { unfold readResource.
      rewrite (bind_returned _ _ s (a := s) (s1 := s)) by reflexivity.
      now rewrite Hg. }
    rewrite E. cbn [fst snd]. split.
    + split; [intros _; now left|intros _; eexists; split; reflexivity].
    + intros c' Hc'. discriminate.
Qed.

Lemma disconnectConnection_closes (name : string) (c : McpConnection) s :
  closes (trace (snd (disconnectConnection name c s)))
  = closes (trace s) ++ [conn_config c].
Proof.
  unfold disconnectConnection. unfold_monad. simpl.
  destruct (client_close (conn_config c) (world s)) as [[e|] w]; simpl;
    (destruct (conn_process c) as [p|]; [destruct (proc_killed p)|]); simpl;
    rewrite ?closes_app; simpl; rewrite ?app_nil_r; reflexivity.
Qed.

Lemma disconnect_each_closes (entries : list (string * McpConnection)) s :
  closes (trace (snd (disconnect_each entries s)))
  = closes (trace s) ++ map (fun kv => conn_config (snd kv)) entries.
Proof.
  revert s. induction entries as [|[name c] rest IH]; intros s; simpl.
  - now rewrite app_nil_r.
  - destruct (disconnectConnection_spec name c s) as (s1 & evs & E & _).
    pose proof (disconnectConnection_closes name c s) as Hc.
    rewrite (bind_returned _ _ s E). rewrite E in Hc. simpl in Hc.
    rewrite IH, Hc, <- app_assoc. reflexivity.
Qed.

(** X4.  [disconnect()] never throws, whatever the closes answer: it closes the
    client of every registered session once, in the order of the map, and
    leaves the map and both catalogs empty. *)
Theorem disconnect_closes_every_session_once s :
  fst (disconnect s) = Returned tt
  /\ hub_connections (snd (disconnect s)) = []
  /\ getAvailableTools (snd (disconnect s)) = []
  /\ getAvailableResources (snd (disconnect s)) = []
  /\ closes (trace (snd (disconnect s)))
     = closes (trace s) ++ map conn_config (map_values (hub_connections s)).
Proof.
  destruct (disconnect_spec s) as (s' & E & Hc & _).
  rewrite E. cbn [fst snd]. split; [reflexivity|]. split; [exact Hc|].
  unfold getAvailableTools, getAvailableResources. rewrite Hc.
  split; [reflexivity|]. split; [reflexivity|].
  pose proof (disconnect_each_closes (hub_connections s) s) as Hcl.
  destruct (disconnect_each_spec (hub_connections s) s) as (s1 & E1 & _).
  unfold disconnect in E.
  rewrite (bind_returned _ _ s (a := s) (s1 := s)) in E by reflexivity.
  rewrite (bind_returned _ _ s E1) in E. unfold modify in E. inversion E.
  cbn [trace set_connections]. rewrite E1 in Hcl. cbn [snd] in Hcl.
  rewrite Hcl. unfold map_values. now rewrite map_map.
Qed.

(** X5.  [removeServer] of a name that is not registered does nothing at all; of
    a registered session whose close is rejected, it still succeeds: the
    error goes to the console and the session leaves the map. *)
Theorem removeServer_survives_a_failing_close (name : string) s :
  (map_get name (hub_connections s) = None -> removeServer name s = (Returned tt, s))
  /\ (forall c e w,
        map_get name (hub_connections s) = Some c ->
        conn_process c = None ->
        client_close (conn_config c) (world s) = (Some e, w) ->
        fst (removeServer name s) = Returned tt
        /\ hub_connections (snd (removeServer name s))
           = map_delete name (hub_connections s)
        /\ console (snd (removeServer name s))
           = console s ++ [LogErrorClosingClient e; LogDisconnected name]).
Proof.
  split.
  - intros G. destruct (removeServer_spec name s) as (s' & E & _ & _ & _ & Hs).
    now rewrite E, (Hs G).
  - intros c e w G Hp Hclose.
    destruct (removeServer_spec name s) as (s' & E & Hd & _).
    rewrite E. cbn [fst snd]. split; [reflexivity|]. split; [exact Hd|].
    revert E. unfold removeServer.
    rewrite (bind_returned _ _ s (a := s) (s1 := s)) by reflexivity.
    rewrite G. unfold disconnectConnection. rewrite Hp.
    unfold_monad. unfold_monad. cbn [fst snd world set_trace]. rewrite Hclose.
    cbn [fst snd]. intros E. inversion E. simpl.
    now rewrite <- app_assoc.
Qed.

(** X6.  A successful [addServer] puts the name last in [getServerNames()], the
    order in which servers are probed for a tool: the other names keep their
    order, and a name that was registered before moves to the end. *)
Theorem addServer_registers_the_name_last (config : McpServerWithName) s :
  fst (addServer config s) = Returned tt ->
  getServerNames (snd (addServer config s))
  = filter (fun k => negb (String.eqb k (cfg_name config))) (getServerNames s)
    ++ [cfg_name config].
Proof.
  intros Hr.
  destruct (addServer_spec config s) as (s' & _ & [(e & E & _)|(c & E & _ & _ & Hc)] & _);
    rewrite E in *; [discriminate|].
  cbn [snd]. unfold getServerNames. rewrite Hc.
  unfold map_keys at 1. rewrite map_app. simpl.
  fold (map_keys (map_delete (cfg_name config) (hub_connections s))).
  now rewrite map_keys_delete.
Qed.

(** The start-up loop of the command line and of the web server: every
    configured server is added, a failure being caught and reported. *)
Definition connectAll (servers : list McpServerWithName) : M World Host unit :=
  run_ops (map OpAddServer servers).

Lemma connectAll_names (servers : list McpServerWithName) :
  forall s,
    NoDup (getServerNames s ++ map cfg_name servers) ->
    getServerNames (snd (connectAll servers s))
    = getServerNames s
      ++ filter (fun n => map_has n (hub_connections (snd (connectAll servers s))))
                (map cfg_name servers).
Proof.
  unfold connectAll.
  induction servers as [|config rest IH]; intros s Hnd.
  - simpl. now rewrite app_nil_r.
  - cbn [map]. rewrite run_ops_cons.
    destruct (run_op_spec (OpAddServer config) s) as (s1 & E1 & Hop).
    rewrite E1. cbn [snd].
    set (name := cfg_name config) in *.
    assert (Hfresh : map_get name (hub_connections s) = None).
    { apply map_get_None_keys. intros Hin.
      apply NoDup_app_remove_r in Hnd as Hn0.
      apply (NoDup_remove_2 _ _ _ Hnd). apply in_or_app. now left. }
    assert (Hdel : map_delete name (hub_connections s) = hub_connections s).
    { destruct (removeServer_spec name s) as (s2 & _ & Hd & _ & _ & Hs).
      rewrite <- Hd. now rewrite (Hs Hfresh). }
    rewrite Hdel in Hop.
    assert (Hnot : ~ In name (map cfg_name rest)).
    { intros Hin. apply (NoDup_remove_2 _ _ _ Hnd). apply in_or_app. now right. }
    assert (Hrest : NoDup (getServerNames s ++ map cfg_name rest)).
    { apply (NoDup_remove_1 _ _ _ Hnd). }
    set (s' := snd (run_ops (map OpAddServer rest) s1)) in *.
    assert (Hhas : forall m n, map_has n m = true <-> In n (map_keys m)).
    { intros m n. unfold map_has, map_keys. rewrite existsb_exists. split.
      - intros ([k v] & Hin & Hk). apply String.eqb_eq in Hk. simpl in Hk. subst.
        apply in_map_iff. exists (n, v). auto.
      - intros Hin. apply in_map_iff in Hin. destruct Hin as ([k v] & Hk & Hin).
        simpl in Hk. subst. exists (n, v). split; auto. apply String.eqb_refl. }
    destruct Hop as [Hc|(c & _ & Hc)].
    + assert (Hn1 : getServerNames s1 = getServerNames s)
        by (unfold getServerNames; now rewrite Hc).
      specialize (IH s1). rewrite Hn1 in IH. specialize (IH Hrest). fold s' in IH.
      rewrite IH. f_equal. cbn [filter].
      destruct (map_has name (hub_connections s')) eqn:Hh; auto.
      exfalso. apply Hhas in Hh. fold (getServerNames s') in Hh. rewrite IH in Hh.
      apply in_app_or in Hh. destruct Hh as [Hh|Hh].
      * apply map_get_None_keys in Hfresh. contradiction.
      * apply filter_In in Hh. tauto.
    + assert (Hn1 : getServerNames s1 = getServerNames s ++ [name]).
      { unfold getServerNames, map_keys. rewrite Hc, map_app. reflexivity. }
      specialize (IH s1). rewrite Hn1 in IH.
      assert (Hnd1 : NoDup ((getServerNames s ++ [name]) ++ map cfg_name rest)).
      { rewrite <- app_assoc. exact Hnd. }
      specialize (IH Hnd1). fold s' in IH.
      rewrite IH, <- app_assoc. f_equal. cbn [filter app].
      destruct (map_has name (hub_connections s')) eqn:Hh; auto.
      exfalso. assert (Hin : In name (getServerNames s')).
      { rewrite IH. apply in_or_app. left. apply in_or_app. right. now left. }
      apply Hhas in Hin. congruence.
Qed.

(** X7.  The start-up loop never throws, however many servers fail to connect;
    with distinct names on an empty hub, the servers registered at its end
    are probed in the order of the configuration. *)
Theorem startup_loop_keeps_the_configured_order (servers : list McpServerWithName) s :
  hub_connections s = [] ->
  NoDup (map cfg_name servers) ->
  fst (connectAll servers s) = Returned tt
  /\ getServerNames (snd (connectAll servers s))
     = filter (fun n => map_has n (hub_connections (snd (connectAll servers s))))
              (map cfg_name servers).
Proof.
  intros Hempty Hnd. split.
  - apply run_ops_returns.
  - rewrite (connectAll_names servers s).
    + unfold getServerNames. now rewrite Hempty.
    + unfold getServerNames. now rewrite Hempty.
Qed.

End HubMore.

(* ================================================================== *)
(** * More of the engine *)

Section EngineMore.

Context {World : Type} {collab : Collaborators World} {Host : Type}.

Implicit Types s : State World Host.

(** The assistant turn [chat] appends for an answer it does not resolve. *)
Definition plainMessage (response : LLMResponse) : Message :=
  {| msg_role := assistant; msg_content := llm_content response;
     msg_toolCalls := llm_toolCalls response; msg_toolResults := None |}.

Lemma log_calls_console_only (toolCalls : list ToolCall) s :
  let s' := snd (log_calls toolCalls s) in
  chat_messages s' = chat_messages s /\ trace s' = trace s
  /\ hub_connections s' = hub_connections s.
Proof.
  assert (H : maintains (World := World) (Host := Host)
                 (both (keeps chat_messages) (both (keeps trace) (keeps hub_connections)))
                 (log_calls toolCalls)).
  { apply log_calls_maintains; try typeclasses eauto. frame_leaf. }
  destruct (H s) as (H1 & H2 & H3). auto.
Qed.

(** The first iteration of [chat], up to the answer of the LLM. *)
Lemma chat_first_answer (userInput : string) (options : ChatOptions World Host) s
    (response : LLMResponse) (w : World) :
  let maxTurns := default 10%Z (opt_maxTurns options) in
  let lo := llmOptionsOf options in
  let transcript := chat_messages s ++ [userMessage userInput] in
  let s1 :=
    set_world w
      (set_trace (trace s ++ [EvLlmChat transcript (getAvailableTools s) lo])
                 (set_messages transcript s)) in
  (1 <= maxTurns)%Z ->
  llm_chat transcript (getAvailableTools s) lo (world s) = (Returned response, w) ->
  (default true (opt_autoExecuteTools options) = false
   \/ llm_toolCalls response = None \/ llm_toolCalls response = Some []) ->
  exists s2,
    chat_loop (Z.to_nat maxTurns) options lo maxTurns
              (default true (opt_autoExecuteTools options)) 0%Z ""
              (set_messages transcript s)
    = (Returned (1%Z, llm_content response), s2)
    /\ chat_messages s2 = transcript ++ [plainMessage response]
    /\ trace s2 = trace s1
    /\ hub_connections s2 = hub_connections s
    /\ (llm_toolCalls response = None \/ llm_toolCalls response = Some [] ->
        s2 = set_messages (transcript ++ [plainMessage response]) s1).
Proof.
  intros maxTurns lo transcript s1 Hmax Hllm Hcase.
  destruct (Z.to_nat maxTurns) as [|fuel] eqn:Hfuel; [lia|].
  cbn [chat_loop].
  assert (Hlt : (0 <? maxTurns)%Z = true) by (apply Z.ltb_lt; lia).
  rewrite Hlt.
  set (s0 := set_messages transcript s).
  rewrite (bind_returned _ _ s0 (a := s0) (s1 := s0)) by reflexivity.
  change (chat_messages s0) with transcript.
  change (getAvailableTools s0) with (getAvailableTools s).
  set (st := set_trace (trace s0 ++ [EvLlmChat transcript (getAvailableTools s) lo]) s0).
  rewrite (bind_returned _ _ s0 (a := tt) (s1 := st)) by reflexivity.
  assert (Hask : ask (llm_chat transcript (getAvailableTools s) lo) st
                 = (Returned response, s1)).
  { unfold ask. change (world st) with (world s). now rewrite Hllm. }
  rewrite (bind_returned _ _ st Hask).
  assert (Hplain : forall s', bind (push_message (plainMessage response))
                                   (fun _ => ret (0 + 1, llm_content response)%Z) s'
                              = (Returned (1%Z, llm_content response),
                                 set_messages (chat_messages s' ++ [plainMessage response]) s')).
  { reflexivity. }
  destruct (llm_toolCalls response) as [[|toolCall rest]|] eqn:Hcalls.
  - fold (plainMessage response). rewrite <- Hcalls. fold (plainMessage response).
    rewrite Hplain. eexists. split; [reflexivity|]. repeat split.
  - destruct (default true (opt_autoExecuteTools options)).
    + destruct Hcase as [H|[H|H]]; discriminate.
    + rewrite <- Hcalls. fold (plainMessage response).
      unfold push_message, console_log, bind, modify, ret. cbn [fst snd].
      rewrite log_calls_returns. cbn [fst snd].
      eexists. split; [reflexivity|].
      match goal with |- context [log_calls ?c ?x] =>
        destruct (log_calls_console_only c x) as (Hm & Ht & Hh) end.
      rewrite Hm, Ht, Hh. repeat split.
      intros [H|H]; rewrite H in Hcalls; discriminate.
  - rewrite <- Hcalls. fold (plainMessage response).
    rewrite Hplain. eexists. split; [reflexivity|]. repeat split.
Qed.

(** X8.  An answer without tool calls ends the call of [chat]: exactly one user
    turn and one assistant turn are appended, the LLM is invoked once, and the
    text of the answer is returned.  The console warns of the turn ceiling
    whenever the loop counted [maxTurns] iterations, so with [maxTurns = 1]
    the warning is printed although nothing was cut short. *)
Theorem answer_without_tools_ends_the_call (userInput : string)
    (options : ChatOptions World Host) s (response : LLMResponse) (w : World) :
  let maxTurns := default 10%Z (opt_maxTurns options) in
  let lo := llmOptionsOf options in
  let transcript := chat_messages s ++ [userMessage userInput] in
  (1 <= maxTurns)%Z ->
  llm_chat transcript (getAvailableTools s) lo (world s) = (Returned response, w) ->
  (llm_toolCalls response = None \/ llm_toolCalls response = Some []) ->
  let run := chat userInput options s in
  fst run = Returned (llm_content response)
  /\ chat_messages (snd run) = transcript ++ [plainMessage response]
  /\ trace (snd run) = trace s ++ [EvLlmChat transcript (getAvailableTools s) lo]
  /\ console (snd run)
     = console s ++ (if (maxTurns <=? 1)%Z
                     then [LogReachedMaximumTurns maxTurns] else [])
  /\ hub_connections (snd run) = hub_connections s.
Proof.
  intros maxTurns lo transcript Hmax Hllm Hcase run. subst run.
  destruct (chat_first_answer userInput options s Hmax Hllm (or_intror Hcase))
    as (s2 & Eloop & _ & _ & _ & Hs2).
  specialize (Hs2 Hcase).
  rewrite chat_unfold. cbv zeta. fold maxTurns lo transcript.
  rewrite (bind_returned _ _ _ Eloop). cbn [fst snd].
  unfold bind, console_log, modify, ret.
  destruct (maxTurns <=? 1)%Z; cbn [fst snd]; subst s2; simpl;
    rewrite ?app_nil_r; repeat split.
Qed.

(** X9.  Manual mode: with [autoExecuteTools = false] an answer that requests
    tools ends the call with the assistant turn appended and its calls
    unresolved, no request having been sent to a tool server.  Any of these
    calls can then be resolved with [executeToolManually], which attaches the
    result to that turn. *)
Theorem manual_mode_leaves_calls_to_the_caller (userInput : string)
    (options : ChatOptions World Host) s (response : LLMResponse) (w : World)
    (toolCall : ToolCall) (rest : list ToolCall) :
  let maxTurns := default 10%Z (opt_maxTurns options) in
  let lo := llmOptionsOf options in
  let transcript := chat_messages s ++ [userMessage userInput] in
  (1 <= maxTurns)%Z ->
  opt_autoExecuteTools options = Some false ->
  llm_chat transcript (getAvailableTools s) lo (world s) = (Returned response, w) ->
  llm_toolCalls response = Some (toolCall :: rest) ->
  let run := chat userInput options s in
  fst run = Returned (llm_content response)
  /\ chat_messages (snd run) = transcript ++ [plainMessage response]
  /\ trace (snd run) = trace s ++ [EvLlmChat transcript (getAvailableTools s) lo]
  /\ (forall call result isError,
        In call (toolCall :: rest) ->
        executeToolManually (tc_id call) result isError (snd run)
        = (Returned tt,
           set_messages
             (transcript ++
              [pushToolResult {| tr_toolCallId := tc_id call; tr_content := result;
                                 tr_isError := Some (default false isError) |}
                              (plainMessage response)])
             (snd run))).
Proof.
  intros maxTurns lo transcript Hmax Hauto Hllm Hcalls run. subst run.
  assert (Hcase : default true (opt_autoExecuteTools options) = false
                  \/ llm_toolCalls response = None \/ llm_toolCalls response = Some [])
    by (left; now rewrite Hauto).
  destruct (chat_first_answer userInput options s Hmax Hllm Hcase)
    as (s2 & Eloop & Hm2 & Ht2 & _ & _).
  rewrite chat_unfold. cbv zeta. fold maxTurns lo transcript.
  rewrite (bind_returned _ _ _ Eloop). cbn [fst snd].
  set (s3 := snd (bind (if (maxTurns <=? 1)%Z
                        then console_log (LogReachedMaximumTurns maxTurns)
                        else ret tt)
                       (fun _ => ret (llm_content response)) s2)).
  assert (E3 : bind (if (maxTurns <=? 1)%Z
                     then console_log (LogReachedMaximumTurns maxTurns)
                     else ret tt)
                    (fun _ => ret (llm_content response)) s2
               = (Returned (llm_content response), s3)).
  { subst s3. unfold bind, console_log, modify, ret.
    destruct (maxTurns <=? 1)%Z; reflexivity. }
  assert (Hm3 : chat_messages s3 = chat_messages s2 /\ trace s3 = trace s2).
  { subst s3. unfold bind, console_log, modify, ret.
    destruct (maxTurns <=? 1)%Z; split; reflexivity. }
  destruct Hm3 as [Hm3 Ht3].
  rewrite E3. cbn [fst snd].
  split; [reflexivity|]. split; [rewrite Hm3; exact Hm2|]. split.
  - rewrite Ht3, Ht2. reflexivity.
  - intros call result isError Hin.
    unfold executeToolManually.
    rewrite (bind_returned _ _ s3 (a := s3) (s1 := s3)) by reflexivity.
    rewrite Hm3, Hm2.
    assert (Hholds : holdsCall (tc_id call) (plainMessage response) = true).
    { unfold holdsCall, plainMessage. cbn [msg_role msg_toolCalls]. rewrite Hcalls.
      destruct (find (fun c => String.eqb (tc_id c) (tc_id call)) (toolCall :: rest))
        eqn:Hf; auto.
      pose proof (find_none _ _ Hf call Hin) as Hn. simpl in Hn.
      now rewrite String.eqb_refl in Hn. }
    assert (Hle : 0 <= length (@nil Message)) by (simpl; lia).
    set (r := {| tr_toolCallId := tc_id call; tr_content := result;
                 tr_isError := Some (default false isError) |}).
    pose proof (@scanBack_finds (tc_id call) r transcript [] (plainMessage response)
                  Hholds (Forall_nil _) 0 Hle) as Hscan.
    replace (length transcript + 1 + 0)
      with (length (transcript ++ [plainMessage response])) in Hscan
      by (rewrite length_app; simpl; lia).
    fold transcript. rewrite Hscan. reflexivity.
Qed.

(** X10.  With a ceiling of zero or less the loop does not run: [chat] appends the
    user turn, never invokes the LLM, returns the empty string and prints the
    ceiling warning. *)
Theorem chat_without_turns_returns_the_empty_string (userInput : string)
    (options : ChatOptions World Host) s :
  let maxTurns := default 10%Z (opt_maxTurns options) in
  (maxTurns <= 0)%Z ->
  chat userInput options s
  = (Returned "",
     set_console (console s ++ [LogReachedMaximumTurns maxTurns])
                 (set_messages (chat_messages s ++ [userMessage userInput]) s)).
Proof.
  intros maxTurns Hmax. rewrite chat_unfold. cbv zeta. fold maxTurns.
  replace (Z.to_nat maxTurns) with 0 by lia. cbn [chat_loop].
  unfold bind, ret. cbn [fst snd].
  assert (H : (maxTurns <=? 0)%Z = true) by (apply Z.leb_le; lia).
  rewrite H. reflexivity.
Qed.

End EngineMore.

Section ToolResultsMore.

Context {World : Type} {collab : Collaborators World} {Host : Type}.

Implicit Types s : State World Host.

Lemma find_app_found {A} (f : A -> bool) (l1 l2 : list A) (x : A) :
  find f l1 = Some x -> find f (l1 ++ l2) = Some x.
Proof.
  induction l1 as [|a l1 IH]; simpl; [discriminate|].
  destruct (f a); auto.
Qed.

(** One call executed without an observer, given what [executeToolCall]
    settles to. *)
Lemma executeToolCalls_single (toolCall : ToolCall) (args : Json) s :
  JSON_parse (tc_function_arguments toolCall) = Returned args ->
  executeToolCalls [toolCall] None s
  = (Returned [match fst (executeToolCall (tc_function_name toolCall) args s) with
               | Returned output => successResult toolCall output
               | Thrown e => errorResult toolCall e
               end],
     snd (executeToolCall (tc_function_name toolCall) args s)).
Proof.
  intros Hparse. unfold executeToolCalls. cbn [executeToolCalls_loop].
  unfold executeToolCalls_body, executeToolCalls_catch, notify.
  unfold bind, settle, ret. rewrite Hparse.
  destruct (executeToolCall (tc_function_name toolCall) args s) as [[output|e] s1];
    reflexivity.
Qed.

(** X11.  The error flag a tool server sets on its answer is not carried into the
    transcript: when the first server of the hub lists the tool and answers
    the call, the tool result holds the formatted content of the answer with
    [isError = false], whatever [isError] the answer had. *)
Theorem server_error_flag_is_dropped (toolCall : ToolCall) (args : Json)
    (name : string) (c : McpConnection) (others : list (string * McpConnection))
    (t : McpTool) (result : CallToolResult) (w : World) s :
  JSON_parse (tc_function_arguments toolCall) = Returned args ->
  hub_connections s = (name, c) :: others ->
  conn_connected c = true ->
  find (fun t => String.eqb (tool_name t) (tc_function_name toolCall)) (conn_tools c)
  = Some t ->
  request_tools_call (conn_config c) (tc_function_name toolCall) args None (world s)
  = (Returned result, w) ->
  fst (executeToolCalls [toolCall] None s)
  = Returned [{| tr_toolCallId := tc_id toolCall;
                 tr_content := formatContent (default [] (raw_content result));
                 tr_isError := Some false |}].
Proof.
  intros Hparse Hhub Hconn Hfind Hanswer.
  rewrite (executeToolCalls_single toolCall s Hparse). cbn [fst].
  unfold executeToolCall.
  rewrite (bind_returned _ _ s (a := s) (s1 := s)) by reflexivity.
  assert (Hlisted : find (fun t => String.eqb (tool_name t) (tc_function_name toolCall))
                         (getAvailableTools s) = Some t).
  { unfold getAvailableTools. rewrite collect_catalogUnion, Hhub.
    unfold catalogUnion. simpl. rewrite Hconn. simpl.
    now apply find_app_found. }
  rewrite Hlisted. unfold getServerNames. rewrite Hhub. cbn [map_keys map fst probeServers].
  assert (Hget : map_get name (hub_connections s) = Some c).
  { rewrite Hhub. unfold map_get. simpl. now rewrite String.eqb_refl. }
  pose proof (callTool_forwarded
                {| req_serverName := name; req_toolName := tc_function_name toolCall;
                   req_arguments := args |} s Hget Hconn Hfind) as E.
  cbv zeta in E. cbn [req_serverName req_toolName req_arguments] in E.
  rewrite Hanswer in E. cbn [fst snd] in E.
  unfold bind, settle. rewrite E. reflexivity.
Qed.

(** X12.  A call that cannot be sent leaves an error result and nothing else: when
    its arguments do not parse, or when no connected session lists a tool of
    its name, no request goes to any server and the state is as before. *)
Theorem unsendable_call_yields_an_error_result_only (toolCall : ToolCall) s :
  (forall e,
      JSON_parse (tc_function_arguments toolCall) = Thrown e ->
      executeToolCalls [toolCall] None s = (Returned [errorResult toolCall e], s))
  /\ (forall args,
        JSON_parse (tc_function_arguments toolCall) = Returned args ->
        (forall t, In t (getAvailableTools s) ->
                   tool_name t <> tc_function_name toolCall) ->
        executeToolCalls [toolCall] None s
        = (Returned [errorResult toolCall (ToolNotFound (tc_function_name toolCall))],
           s)).
Proof.
  split.
  - intros e Hparse. unfold executeToolCalls. cbn [executeToolCalls_loop].
    unfold executeToolCalls_body, executeToolCalls_catch, notify.
    unfold bind, settle, ret. rewrite Hparse. reflexivity.
  - intros args Hparse Hnone.
    rewrite (executeToolCalls_single toolCall s Hparse).
    assert (E : executeToolCall (tc_function_name toolCall) args s
                = (Thrown (ToolNotFound (tc_function_name toolCall)), s)).
    { unfold executeToolCall.
      rewrite (bind_returned _ _ s (a := s) (s1 := s)) by reflexivity.
      destruct (find (fun t => String.eqb (tool_name t) (tc_function_name toolCall))
                     (getAvailableTools s)) as [t|] eqn:Hf; [|reflexivity].
      destruct (find_some _ _ Hf) as [Hin Hname]. apply String.eqb_eq in Hname.
      exfalso. exact (Hnone t Hin Hname). }
    rewrite E. reflexivity.
Qed.

(** X13.  Without an observer, [chat] and what it calls ([executeToolCalls],
    [executeToolCall], [callTool]) write neither the hub nor the state of
    the caller: the map of sessions, with the connectivity flag and the
    catalogs of every session, and the caller's state are the same after the
    call as before, whether [chat] returns or throws. *)
Theorem chat_leaves_the_hub_as_it_is (userInput : string)
    (options : ChatOptions World Host) s :
  opt_onToolExecution options = None ->
  hub_connections (snd (chat userInput options s)) = hub_connections s
  /\ host (snd (chat userInput options s)) = host s.
Proof.
  intros Hobs.
  assert (H : maintains (both (keeps hub_connections) (keeps host))
                (chat userInput options)).
  { apply chat_local with (obs := None);
      try typeclasses eauto; try (frame_leaf; fail); auto.
    intros info. simpl. apply maintains_ret. typeclasses eauto. }
  exact (H s).
Qed.

End ToolResultsMore.

Section Answered.

Context {World : Type} {collab : Collaborators World} {Host : Type}.

Implicit Types s : State World Host.

(** A turn whose tool calls all have their result: the results attached to it
    carry the identifiers of its tool calls, in order (none of either for a
    turn without tool calls). *)
Definition answered (m : Message) : Prop :=
  map tr_toolCallId (default [] (msg_toolResults m))
  = map tc_id (default [] (msg_toolCalls m)).

Lemma chat_loop_last_turn_messages (options : ChatOptions World Host) (lo : LlmOptions)
    (maxTurns : Z) (auto : bool) (fuel : nat) (turnCount : Z)
    (finalResponse : string) s (response : LLMResponse) (w : World) :
  (turnCount < maxTurns)%Z ->
  llm_chat (chat_messages s) (getAvailableTools s) lo (world s) = (Returned response, w) ->
  (auto = false \/ llm_toolCalls response = None \/ llm_toolCalls response = Some []) ->
  chat_messages (snd (chat_loop (S fuel) options lo maxTurns auto turnCount finalResponse s))
  = chat_messages s ++ [plainMessage response].
Proof.
  intros Hlt Hllm Hcase. apply Z.ltb_lt in Hlt. cbn [chat_loop]. rewrite Hlt.
  rewrite (bind_returned _ _ s (a := s) (s1 := s)) by reflexivity.
  set (s0 := set_trace (trace s ++ [EvLlmChat (chat_messages s) (getAvailableTools s) lo]) s).
  rewrite (bind_returned _ _ s (a := tt) (s1 := s0)) by reflexivity.
  assert (Hask : ask (llm_chat (chat_messages s) (getAvailableTools s) lo) s0
                 = (Returned response, set_world w s0)).
  { unfold ask. simpl. now rewrite Hllm. }
  rewrite (bind_returned _ _ s0 Hask).
  destruct (llm_toolCalls response) as [[|toolCall rest]|] eqn:Hcalls;
    try (unfold plainMessage; rewrite Hcalls; reflexivity).
  destruct auto.
  - destruct Hcase as [H0|[H0|H0]]; discriminate.
  - unfold push_message, console_log, bind, modify, ret. cbn [fst snd].
    rewrite log_calls_returns. cbn [fst snd].
    match goal with |- context [log_calls ?c ?x] =>
      destruct (log_calls_console_only c x) as (Hm & _ & _) end.
    rewrite Hm. unfold plainMessage. rewrite Hcalls. reflexivity.
Qed.

Lemma chat_loop_answers (options : ChatOptions World Host) (lo : LlmOptions)
    (maxTurns : Z) :
  quiet (opt_onToolExecution options) ->
  forall fuel turnCount finalResponse s,
    grows answered s
          (snd (chat_loop fuel options lo maxTurns true turnCount finalResponse s)).
Proof.
  intros Hq.
  induction fuel as [|fuel IH]; intros turnCount finalResponse s.
  - apply (frame_refl (R := grows answered)).
  - destruct (turnCount <? maxTurns)%Z eqn:Hlt.
    2:{ cbn [chat_loop]. rewrite Hlt. apply (frame_refl (R := grows answered)). }
    apply Z.ltb_lt in Hlt.
    destruct (llm_chat (chat_messages s) (getAvailableTools s) lo (world s))
      as [[response|e0] w] eqn:Hllm.
    + destruct (llm_toolCalls response) as [[|toolCall rest]|] eqn:Hcalls.
      * exists [plainMessage response]. split.
        -- apply (@chat_loop_last_turn_messages options lo maxTurns true fuel turnCount
                    finalResponse s response w Hlt Hllm). auto.
        -- repeat constructor. unfold answered, plainMessage. simpl. now rewrite Hcalls.
      * destruct (@chat_loop_tool_turn _ _ _ options lo maxTurns fuel turnCount
                    finalResponse s response w toolCall rest Hlt Hq Hllm Hcalls)
          as (toolResults & s1 & evs & Hids & Hm1 & _ & _ & _ & Estep).
        rewrite Estep.
        apply (frame_trans (R := grows answered)) with (s2 := s1); [|apply IH].
        exists [resolvedMessage response toolResults]. split; [exact Hm1|].
        repeat constructor. unfold answered, resolvedMessage. simpl.
        now rewrite Hcalls.
      * exists [plainMessage response]. split.
        -- apply (@chat_loop_last_turn_messages options lo maxTurns true fuel turnCount
                    finalResponse s response w Hlt Hllm). auto.
        -- repeat constructor. unfold answered, plainMessage. simpl. now rewrite Hcalls.
    + rewrite (@chat_loop_llm_rejects _ _ _ options lo maxTurns true fuel turnCount
                 finalResponse s e0 w Hlt Hllm).
      exists []. simpl. rewrite app_nil_r. auto.
Qed.

(** X14.  With automatic execution and an observer that does not throw, [chat]
    leaves no tool call open: if every turn of the transcript had a result
    for each of its tool calls before the call, so it is after it, whether
    [chat] returns or throws. *)
Theorem chat_leaves_no_call_unanswered (userInput : string)
    (options : ChatOptions World Host) s :
  quiet (opt_onToolExecution options) ->
  default true (opt_autoExecuteTools options) = true ->
  Forall answered (chat_messages s) ->
  Forall answered (chat_messages (snd (chat userInput options s))).
Proof.
  intros Hq Hauto Hbefore. rewrite chat_unfold. cbv zeta. rewrite Hauto.
  set (s0 := set_messages (chat_messages s ++ [userMessage userInput]) s).
  set (maxTurns := default 10%Z (opt_maxTurns options)).
  destruct (@chat_loop_answers options (llmOptionsOf options) maxTurns Hq
              (Z.to_nat maxTurns) 0%Z "" s0) as (turns & Hm & Hturns).
  assert (Hafter : Forall answered
                     (chat_messages (snd (chat_loop (Z.to_nat maxTurns) options
                                            (llmOptionsOf options) maxTurns true 0%Z "" s0)))).
  { rewrite Hm. subst s0. simpl. apply Forall_app. split; [|exact Hturns].
    apply Forall_app. split; [exact Hbefore|]. repeat constructor. }
  unfold bind.
  destruct (chat_loop (Z.to_nat maxTurns) options (llmOptionsOf options) maxTurns
              true 0%Z "" s0) as [[out|e] s1]; simpl in *; [|exact Hafter].
  destruct (maxTurns <=? fst out)%Z; simpl; exact Hafter.
Qed.

End Answered.

(* ================================================================== *)
(** * More of the batch runner *)

Section BatchRecords.

Context {World : Type} {collab : Collaborators World}.

Implicit Types s : State World BatchHost.

Lemma update_record_absent (toolCallId : string)
    (f : ToolCallRecord -> ToolCallRecord) (records : list ToolCallRecord) :
  ~ In toolCallId (map rec_toolCallId records) ->
  update_record toolCallId f records = records.
Proof.
  induction records as [|record rest IH]; simpl; intros Hnot; auto.
  destruct (String.eqb_spec (rec_toolCallId record) toolCallId) as [E|E].
  - exfalso. apply Hnot. auto.
  - f_equal. apply IH. tauto.
Qed.

Lemma update_record_last (toolCallId : string)
    (f : ToolCallRecord -> ToolCallRecord) (records : list ToolCallRecord)
    (record : ToolCallRecord) :
  ~ In toolCallId (map rec_toolCallId records) ->
  rec_toolCallId record = toolCallId ->
  update_record toolCallId f (records ++ [record]) = records ++ [f record].
Proof.
  intros Hnot Hid.
  induction records as [|r rest IH]; simpl in *.
  - rewrite Hid, String.eqb_refl. reflexivity.
  - destruct (String.eqb_spec (rec_toolCallId r) toolCallId) as [E|E].
    + exfalso. apply Hnot. auto.
    + f_equal. apply IH. tauto.
Qed.

Lemma hasRecord_absent (toolCallId : string) (records : list ToolCallRecord) :
  ~ In toolCallId (map rec_toolCallId records) ->
  hasRecord toolCallId records = false.
Proof.
  intros Hnot. unfold hasRecord.
  destruct (find (fun record => String.eqb (rec_toolCallId record) toolCallId) records)
    as [record|] eqn:E; [|reflexivity].
  apply find_some in E. destruct E as [Hin Heq]. apply String.eqb_eq in Heq.
  exfalso. apply Hnot. rewrite <- Heq. now apply in_map.
Qed.

Lemma truthy_nonempty (x : string) : x <> "" -> truthy (Some x) = true.
Proof.
  intros Hx. unfold truthy. destruct (String.eqb_spec x ""); [contradiction|reflexivity].
Qed.

(** Whether [JSON.parse] accepts the arguments of a call. *)
Definition parses (toolCall : ToolCall) : bool :=
  match JSON_parse (tc_function_arguments toolCall) with
  | Returned _ => true
  | Thrown _ => false
  end.

(** A record of the report agrees with a call and the result it was given. *)
Definition reports (record : ToolCallRecord) (p : ToolCall * ToolResult) : Prop :=
  rec_toolCallId record = tc_id (fst p)
  /\ rec_toolName record = tc_function_name (fst p)
  /\ rec_output record = tr_content (snd p)
  /\ rec_success record = negb (isError_truthy (snd p)).

Lemma executeToolCall_keeps_host (toolName : string) (args : Json) s :
  host (snd (executeToolCall toolName args s)) = host s.
Proof.
  assert (H : maintains (keeps host) (executeToolCall (Host := BatchHost) toolName args)).
  { apply executeToolCall_local; try typeclasses eauto; frame_leaf. }
  exact (H s).
Qed.

(** One iteration of [executeToolCalls] under the observer of the batch
    runner, on a call whose identifier has no record yet. *)
Lemma executeToolCalls_body_records (results : list ToolResult)
    (toolCall : ToolCall) s :
  tc_id toolCall <> "" ->
  tc_function_name toolCall <> "" ->
  ~ In (tc_id toolCall) (map rec_toolCallId (batch_currentToolCalls (host s))) ->
  exists r new s',
    executeToolCalls_body (Some onToolExecution) results toolCall s
    = (Returned (results ++ [r]), s')
    /\ tr_toolCallId r = tc_id toolCall
    /\ batch_currentToolCalls (host s') = batch_currentToolCalls (host s) ++ new
    /\ Forall2 reports new (if parses toolCall then [(toolCall, r)] else []).
Proof.
  intros Hid Hname Hfresh.
  unfold executeToolCalls_body, executeToolCalls_catch, parses.
  unfold bind at 1. unfold settle at 1. unfold bind at 1.
  destruct (JSON_parse (tc_function_arguments toolCall)) as [args|e].
  - (* the arguments parse: a record is opened *)
    unfold bind at 1. unfold notify at 1. unfold onToolExecution at 1.
    cbn [toolStartInfo info_type info_toolName info_toolCallId info_input default].
    rewrite (truthy_nonempty Hname), (truthy_nonempty Hid). cbn [andb].
    rewrite (hasRecord_absent _ _ Hfresh).
    destruct (Date_now (world s)) as [timestamp w1]. cbn [fst snd].
    match goal with |- context [executeToolCall ?n ?a ?x] =>
      pose proof (executeToolCall_keeps_host n a x) as Hhost;
      destruct (executeToolCall n a x) as [[output|e] s2]
    end; cbn [fst snd host set_world set_host] in Hhost.
    + unfold bind, settle, ret, notify, onToolExecution.
      cbn [toolCompleteInfo info_type info_toolName info_toolCallId info_output default].
      rewrite (truthy_nonempty Hid). rewrite Hhost.
      cbn [batch_currentToolCalls set_currentToolCalls].
      rewrite (update_record_last _ _ _ Hfresh) by reflexivity.
      eexists. eexists. eexists. split; [reflexivity|]. split; [reflexivity|].
      split; [reflexivity|].
      repeat constructor. simpl.
      unfold truthy. destruct (String.eqb_spec output ""); simpl; congruence.
    + unfold bind, settle, ret, notify, onToolExecution.
      cbn [toolErrorInfo info_type info_toolName info_toolCallId info_output
             info_message default].
      rewrite (truthy_nonempty Hid). rewrite Hhost.
      cbn [batch_currentToolCalls set_currentToolCalls].
      rewrite (update_record_last _ _ _ Hfresh) by reflexivity.
      eexists. eexists. eexists. split; [reflexivity|]. split; [reflexivity|].
      split; [reflexivity|].
      repeat constructor.
  - (* they do not: the error is notified for an identifier without record *)
    unfold bind, ret, notify, onToolExecution.
    cbn [toolErrorInfo info_type info_toolName info_toolCallId info_output
           info_message default].
    rewrite (truthy_nonempty Hid).
    rewrite (update_record_absent _ _ _ Hfresh).
    eexists. exists []. eexists. split; [reflexivity|]. split; [reflexivity|].
    split; [now rewrite app_nil_r|constructor].
Qed.

Lemma executeToolCalls_loop_records (toolCalls : list ToolCall) :
  forall (results : list ToolResult) s,
  NoDup (map tc_id toolCalls) ->
  Forall (fun c => tc_id c <> "" /\ tc_function_name c <> "") toolCalls ->
  (forall c, In c toolCalls ->
             ~ In (tc_id c) (map rec_toolCallId (batch_currentToolCalls (host s)))) ->
  exists rs new s',
    executeToolCalls_loop (Some onToolExecution) toolCalls results s
    = (Returned (results ++ rs), s')
    /\ map tr_toolCallId rs = map tc_id toolCalls
    /\ batch_currentToolCalls (host s') = batch_currentToolCalls (host s) ++ new
    /\ Forall2 reports new
         (filter (fun p => parses (fst p)) (combine toolCalls rs)).
Proof.
  induction toolCalls as [|toolCall rest IH]; intros results s Hnodup Hnames Hfresh.
  - exists [], [], s. simpl. rewrite !app_nil_r. repeat split. constructor.
  - inversion Hnodup as [|? ? Hhead Htail]; subst.
    inversion Hnames as [|? ? [Hid Hname] Hrest]; subst.
    destruct (@executeToolCalls_body_records results toolCall s Hid Hname
                (Hfresh toolCall (or_introl eq_refl)))
      as (r & new1 & s1 & E1 & Hr & Hrec1 & Hrep1).
    cbn [executeToolCalls_loop]. rewrite (bind_returned _ _ s E1).
    destruct (IH (results ++ [r]) s1 Htail Hrest)
      as (rs & new2 & s2 & E2 & Hids & Hrec2 & Hrep2).
    { intros c Hc. rewrite Hrec1, map_app, in_app_iff. intros [Hold|Hnew].
      - exact (Hfresh c (or_intror Hc) Hold).
      - destruct (parses toolCall).
        + inversion Hrep1 as [|? ? ? ? [Hx _] Hnil]; subst.
          inversion Hnil; subst. simpl in Hnew. destruct Hnew as [Hnew|[]].
          apply Hhead. simpl in Hx. rewrite <- Hx, Hnew. now apply in_map.
        + inversion Hrep1; subst. contradiction. }
    exists (r :: rs), (new1 ++ new2), s2.
    rewrite E2, <- app_assoc. split; [reflexivity|].
    split; [simpl; congruence|].
    split; [rewrite Hrec2, Hrec1, <- app_assoc; reflexivity|].
    cbn [combine filter fst].
    destruct (parses toolCall).
    + inversion Hrep1 as [|? ? ? ? Hx Hnil]; subst. inversion Hnil; subst.
      simpl. constructor; auto.
    + inversion Hrep1; subst. exact Hrep2.
Qed.

(** X15.  The report of the batch runner lists exactly the calls whose arguments
    parsed.  For tool calls with distinct, non-empty identifiers and
    non-empty tool names, none of them on record yet, [executeToolCalls]
    under the observer of the batch runner returns one result per call and
    appends one record per call whose arguments [JSON.parse] accepted, in
    order, each with the identifier and tool name of its call, the text of
    its result as output and [success] exactly when the result is no error.
    A call whose arguments do not parse gets its error result and no record
    at all. *)
Theorem batch_records_list_the_calls_that_parsed (toolCalls : list ToolCall) s :
  NoDup (map tc_id toolCalls) ->
  Forall (fun c => tc_id c <> "" /\ tc_function_name c <> "") toolCalls ->
  (forall c, In c toolCalls ->
             ~ In (tc_id c) (map rec_toolCallId (batch_currentToolCalls (host s)))) ->
  let run := executeToolCalls toolCalls (Some onToolExecution) s in
  exists results new,
    fst run = Returned results
    /\ map tr_toolCallId results = map tc_id toolCalls
    /\ batch_currentToolCalls (host (snd run))
       = batch_currentToolCalls (host s) ++ new
    /\ Forall2 reports new
         (filter (fun p => parses (fst p)) (combine toolCalls results)).
Proof.
  intros Hnodup Hnames Hfresh run.
  destruct (@executeToolCalls_loop_records toolCalls [] s Hnodup Hnames Hfresh)
    as (rs & new & s' & E & Hids & Hrec & Hrep).
  subst run. unfold executeToolCalls. rewrite E.
  exists rs, new. auto.
Qed.

End BatchRecords.

Section LlmSettings.

Context {World : Type} {collab : Collaborators World} {Host : Type}.

Implicit Types s : State World Host.

(** An LLM call on record was made with the settings [lo]. *)
Definition asksWith (lo : LlmOptions) (ev : Event) : Prop :=
  match ev with
  | EvLlmChat _ _ lo' => lo' = lo
  | _ => True
  end.

Lemma logs_weaken (P Q : Event -> Prop) s s' :
  (forall ev, P ev -> Q ev) -> logs P s s' -> logs Q s s'.
Proof.
  intros HPQ (evs & Ht & Hevs). exists evs. split; [exact Ht|].
  revert Hevs. apply Forall_impl. exact HPQ.
Qed.

Lemma executeToolCalls_asks (lo : LlmOptions) (toolCalls : list ToolCall)
    (obs : option (Observer World Host)) :
  maintains (logs (asksWith lo)) (executeToolCalls toolCalls obs).
Proof.
  intros s. destruct (executeToolCalls_maintains toolCalls obs s) as (_ & _ & Hl).
  revert Hl. apply logs_weaken. intros [] Hb; simpl in *; auto; contradiction.
Qed.

Lemma chat_loop_asks_with (options : ChatOptions World Host) (lo : LlmOptions)
    (maxTurns : Z) (auto : bool) (fuel : nat) :
  forall turnCount finalResponse,
    maintains (logs (asksWith lo))
              (chat_loop fuel options lo maxTurns auto turnCount finalResponse).
Proof.
  induction fuel as [|fuel IH]; intros turnCount finalResponse;
    cbn [chat_loop]; unfold emit, console_log, push_message; frame.
  - apply executeToolCalls_asks.
  - apply log_results_maintains; [typeclasses eauto|frame_leaf].
  - apply IH.
  - apply log_calls_maintains; [typeclasses eauto|frame_leaf].
Qed.

Lemma chat_asks_with (userInput : string) (options : ChatOptions World Host) :
  maintains (logs (asksWith (llmOptionsOf options))) (chat userInput options).
Proof.
  unfold chat, push_message, console_log.
  fold (llmOptionsOf options). frame. apply chat_loop_asks_with.
Qed.

Lemma chat_bounded (userInput : string) (options : ChatOptions World Host) :
  bounded (Z.to_nat (default 10%Z (opt_maxTurns options))) (chat userInput options).
Proof.
  set (maxTurns := default 10%Z (opt_maxTurns options)).
  apply bounded_weaken with (a := 0 + (Z.to_nat maxTurns + (0 + 0))); [lia|].
  unfold chat. fold maxTurns.
  apply bounded_bind; [|intros u].
  { apply bounded_silent. unfold push_message. frame. }
  apply bounded_bind; [apply chat_loop_bounded|intros out].
  apply bounded_bind; [|intros u'].
  - destruct (maxTurns <=? fst out)%Z; apply bounded_silent; unfold console_log; frame.
  - apply bounded_silent. frame.
Qed.

End LlmSettings.

Section BatchSettings.

Context {World : Type} {collab : Collaborators World}.

Implicit Types s : State World BatchHost.

(** The settings [processQuestion] passes to [chat]. *)
Definition batchLlmOptions : LlmOptions :=
  {| lo_temperature := (7 # 10)%Q; lo_maxTokens := 2000%Z |}.

Lemma seeded_trace (question : BatchQuestion) s :
  trace (seeded question s) = trace s.
Proof.
  unfold seeded. destruct (Date_now (world s)) as [t w].
  destruct (truthy (q_context question)); reflexivity.
Qed.

Lemma processQuestion_asks (question : BatchQuestion) (questionNumber : nat) s :
  logs (asksWith batchLlmOptions) s (snd (processQuestion question questionNumber s))
  /\ llm_calls (trace (snd (processQuestion question questionNumber s)))
     <= llm_calls (trace s) + 10.
Proof.
  destruct (processQuestion_spec question questionNumber s) as (r & _ & _ & _ & Hs).
  rewrite Hs. cbv zeta. cbn [trace set_world].
  pose proof (chat_asks_with (q_question question) questionOptions (seeded question s))
    as (evs & Ht & Hevs).
  pose proof (chat_bounded (q_question question) questionOptions (seeded question s))
    as Hb.
  rewrite seeded_trace in *. split.
  - exists evs. split; [exact Ht|exact Hevs].
  - exact Hb.
Qed.

Lemma sequentialLoop_asks (continueOnError : bool) (questions : list BatchQuestion) :
  forall i s,
    logs (asksWith batchLlmOptions) s
         (snd (sequentialLoop continueOnError questions i s))
    /\ llm_calls (trace (snd (sequentialLoop continueOnError questions i s)))
       <= llm_calls (trace s) + 10 * length questions.
Proof.
  induction questions as [|question rest IH]; intros i s.
  - split; [apply (frame_refl (R := logs (asksWith batchLlmOptions)))|simpl; lia].
  - destruct (sequentialLoop_cons continueOnError question rest i s)
      as (result & Hr & Eloop).
    cbv zeta in Eloop. rewrite Eloop.
    destruct (processQuestion_asks question (i + 1) s) as [Hl Hb].
    set (s1 := snd (processQuestion question (i + 1) s)) in *.
    set (s2 := set_host (set_results (batch_results (host s1) ++ [result]) (host s1)) s1).
    destruct (br_success result || continueOnError).
    + destruct (IH (i + 1) (set_messages [] s2)) as [Hl' Hb']. split.
      * apply (frame_trans (R := logs (asksWith batchLlmOptions))) with (s2 := s1);
          [exact Hl|].
        destruct Hl' as (evs & Ht & Hevs). exists evs. split; [exact Ht|exact Hevs].
      * change (trace (set_messages [] s2)) with (trace s1) in Hb'.
        cbn [length]. lia.
    + split.
      * destruct Hl as (evs & Ht & Hevs). exists evs. split; [exact Ht|exact Hevs].
      * change (trace (snd (Returned tt, s2))) with (trace s1). cbn [length]. lia.
Qed.

(** X16.  Every LLM call of a sequential batch run is made with temperature 0.7
    and at most 2000 tokens, and a record takes at most ten LLM calls: the
    options of the run reach neither the settings of the LLM nor the turn
    ceiling. *)
Theorem batch_runs_with_fixed_llm_settings (questions : list BatchQuestion)
    (options : BatchOptions) s :
  let run := processSequentially questions options s in
  logs (asksWith batchLlmOptions) s (snd run)
  /\ llm_calls (trace (snd run)) <= llm_calls (trace s) + 10 * length questions.
Proof.
  intros run. subst run. unfold processSequentially.
  set (continueOnError := default true (bo_continueOnError options)).
  set (s0 := set_host (set_results [] (host s)) s).
  rewrite (bind_returned _ _ s (a := tt) (s1 := s0)) by reflexivity.
  destruct (sequentialLoop_asks continueOnError questions 0 s0) as [Hl Hb].
  unfold bind, get_state, ret.
  destruct (sequentialLoop continueOnError questions 0 s0) as [[[]|e] s1];
    cbn [fst snd] in *; split; auto.
Qed.

End BatchSettings.

(** A row of the input file as the CSV parser returns it (an object keyed by
    the header line): the columns [loadQuestionsFromFile] reads. *)
Record CsvRecord : Type := {
  csv_id : option string;
  csv_question : option string;
  csv_Question : option string;
  csv_context : option string;
  csv_Context : option string;
  csv_expectedResult : option string;
  csv_expected_result : option string;
  csv_Expected : option string
}.

(** [a || b] on optional strings. *)
Definition orElse (a b : option string) : option string :=
  if truthy a then a else b.

(** The callback of [records.map] in [loadQuestionsFromFile]. *)
Definition questionOfRecord (record : CsvRecord) (index : nat) : BatchQuestion :=
  {| q_id := orElse (csv_id record) (Some (questionLabel (index + 1)));
     q_question :=
       default ""
         (orElse (orElse (csv_question record) (csv_Question record)) (Some ""));
     q_context := orElse (orElse (csv_context record) (csv_Context record)) None;
     q_expectedResult :=
       orElse (orElse (orElse (csv_expectedResult record) (csv_expected_result record))
                      (csv_Expected record))
              None |}.

Fixpoint mapRecords (records : list CsvRecord) (index : nat) : list BatchQuestion :=
  match records with
  | [] => []
  | record :: rest => questionOfRecord record index :: mapRecords rest (index + 1)
  end.

(** [loadQuestionsFromFile] after the file was read and parsed into [records]. *)
Definition loadQuestionsFromFile (records : list CsvRecord) : list BatchQuestion :=
  mapRecords records 0.

(** The identifier a row is reported under: its [id] column when that is not
    empty, else [Q] and the number of the row, counted from 1. *)
Fixpoint rowIds (records : list CsvRecord) (index : nat) : list string :=
  match records with
  | [] => []
  | record :: rest =>
      (if truthy (csv_id record) then default "" (csv_id record)
       else questionLabel (index + 1))
      :: rowIds rest (index + 1)
  end.

Section BatchRows.

Context {World : Type} {collab : Collaborators World}.

Implicit Types s : State World BatchHost.

(** The identifier [processQuestion] gives the result of a record. *)
Definition resultId (question : BatchQuestion) (questionNumber : nat) : string :=
  if truthy (q_id question) then default "" (q_id question)
  else questionLabel questionNumber.

Fixpoint resultIds (questions : list BatchQuestion) (i : nat) : list string :=
  match questions with
  | [] => []
  | question :: rest => resultId question (i + 1) :: resultIds rest (i + 1)
  end.

Lemma processQuestion_id (question : BatchQuestion) (questionNumber : nat) s :
  exists result,
    fst (processQuestion question questionNumber s) = Returned result
    /\ br_id result = resultId question questionNumber.
Proof.
  unfold processQuestion, resultId, now, addMessage, push_message.
  unfold bind, try_catch, modify, get_state, ret.
  destruct (Date_now (world s)) as [startTime w]. cbn [fst snd].
  destruct (truthy (q_context question)); cbn [fst snd host set_world];
    match goal with |- context [chat ?q ?o ?x] => destruct (chat q o x) as [[response|e] s3] end;
    cbn [fst snd]; destruct (Date_now (world s3)) as [endTime w3]; cbn [fst snd];
    eexists; repeat split.
Qed.

Lemma sequentialLoop_ids (continueOnError : bool) (questions : list BatchQuestion) :
  forall i s,
  exists new,
    batch_results (host (snd (sequentialLoop continueOnError questions i s)))
    = batch_results (host s) ++ new
    /\ map br_id new = firstn (length new) (resultIds questions i).
Proof.
  induction questions as [|question rest IH]; intros i s.
  - exists []. simpl. now rewrite app_nil_r.
  - destruct (sequentialLoop_cons continueOnError question rest i s)
      as (result & Hr & Eloop).
    cbv zeta in Eloop. rewrite Eloop.
    destruct (processQuestion_id question (i + 1) s) as (r' & Hr' & Hid).
    assert (r' = result) by congruence. subst r'.
    pose proof (processQuestion_keeps_results question (i + 1) s) as Hkeep.
    set (s1 := snd (processQuestion question (i + 1) s)) in *.
    set (s2 := set_host (set_results (batch_results (host s1) ++ [result]) (host s1)) s1).
    destruct (br_success result || continueOnError).
    + destruct (IH (i + 1) (set_messages [] s2)) as (new & Hres & Hids).
      exists (result :: new). split.
      * rewrite Hres. subst s2. simpl. rewrite Hkeep, <- app_assoc. reflexivity.
      * simpl. now rewrite Hid, Hids.
    + exists [result]. split.
      * subst s2. simpl. now rewrite Hkeep.
      * simpl. now rewrite Hid.
Qed.

Lemma questionLabel_nonempty (n : nat) : questionLabel n <> "".
Proof. unfold questionLabel. simpl. discriminate. Qed.

Lemma resultIds_of_rows (records : list CsvRecord) :
  forall index, resultIds (mapRecords records index) index = rowIds records index.
Proof.
  induction records as [|record rest IH]; intros index; simpl; [reflexivity|].
  rewrite IH. f_equal.
  unfold resultId, questionOfRecord, orElse. cbn [q_id].
  destruct (truthy (csv_id record)) eqn:Hid.
  - now rewrite Hid.
  - rewrite (truthy_nonempty (@questionLabel_nonempty (index + 1))). reflexivity.
Qed.

Lemma rowIds_nonempty (records : list CsvRecord) :
  forall index, Forall (fun id => id <> "") (rowIds records index).
Proof.
  induction records as [|record rest IH]; intros index; simpl; constructor; auto.
  destruct (csv_id record) as [x|]; simpl.
  - destruct (String.eqb_spec x ""); simpl; auto. apply (@questionLabel_nonempty _).
  - apply (@questionLabel_nonempty _).
Qed.

(** X17.  The results of a sequential run over the rows of a file carry the
    identifiers of the rows, in order: the [id] column of the row when it is
    not empty, else [Q] followed by the number of the row.  No result has an
    empty identifier. *)
Theorem batch_results_carry_the_row_ids (records : list CsvRecord)
    (options : BatchOptions) s :
  let run := processSequentially (loadQuestionsFromFile records) options s in
  exists results,
    fst run = Returned results
    /\ map br_id results = firstn (length results) (rowIds records 0)
    /\ Forall (fun r => br_id r <> "") results.
Proof.
  intros run. subst run. unfold processSequentially, loadQuestionsFromFile.
  set (continueOnError := default true (bo_continueOnError options)).
  set (s0 := set_host (set_results [] (host s)) s).
  rewrite (bind_returned _ _ s (a := tt) (s1 := s0)) by reflexivity.
  destruct (sequentialLoop_results continueOnError (mapRecords records 0) 0 s0)
    as (new0 & Hret & _).
  destruct (sequentialLoop_ids continueOnError (mapRecords records 0) 0 s0)
    as (new & Hres & Hids).
  rewrite resultIds_of_rows in Hids.
  unfold bind, get_state, ret.
  destruct (sequentialLoop continueOnError (mapRecords records 0) 0 s0) as [o s1].
  cbn [fst snd] in *. subst o. cbn [fst snd]. rewrite Hres. subst s0. simpl.
  exists new. split; [reflexivity|]. split; [exact Hids|].
  assert (Hall : Forall (fun id => id <> "") (map br_id new)).
  { rewrite Hids. apply Forall_forall. intros id Hin.
    pose proof (rowIds_nonempty records 0) as Hne. rewrite Forall_forall in Hne.
    apply Hne. revert Hin. generalize (length new) as n. generalize (rowIds records 0) as l.
    induction l as [|a l IHl]; intros [|n]; simpl; try tauto.
    intros [Ha|Hin]; auto. right. eapply IHl. exact Hin. }
  rewrite Forall_map in Hall. exact Hall.
Qed.

Lemma processQuestion_keeps_hub (question : BatchQuestion) (questionNumber : nat) s :
  hub_connections (snd (processQuestion question questionNumber s)) = hub_connections s.
Proof.
  destruct (processQuestion_spec question questionNumber s) as (r & _ & _ & _ & Hs).
  rewrite Hs. cbv zeta. cbn [hub_connections set_world].
  assert (H : maintains (keeps hub_connections)
                (chat (World := World) (q_question question) questionOptions)).
  { apply chat_local with (obs := Some onToolExecution);
      try typeclasses eauto; try (frame_leaf; fail); try reflexivity.
    intros info. apply maintains_notify; [typeclasses eauto|frame_leaf]. }
  rewrite (H (seeded question s)).
  unfold seeded. destruct (Date_now (world s)) as [t w].
  destruct (truthy (q_context question)); reflexivity.
Qed.

Lemma sequentialLoop_leaves (continueOnError : bool) (questions : list BatchQuestion) :
  forall i s,
    hub_connections (snd (sequentialLoop continueOnError questions i s))
    = hub_connections s
    /\ (continueOnError = true -> questions <> [] ->
        chat_messages (snd (sequentialLoop continueOnError questions i s)) = []).
Proof.
  induction questions as [|question rest IH]; intros i s.
  - split; [reflexivity|]. intros _ Hne. contradiction.
  - destruct (sequentialLoop_cons continueOnError question rest i s)
      as (result & Hr & Eloop).
    cbv zeta in Eloop. rewrite Eloop.
    pose proof (processQuestion_keeps_hub question (i + 1) s) as Hhub.
    set (s1 := snd (processQuestion question (i + 1) s)) in *.
    set (s2 := set_host (set_results (batch_results (host s1) ++ [result]) (host s1)) s1).
    destruct (br_success result || continueOnError) eqn:Hgo.
    + destruct (IH (i + 1) (set_messages [] s2)) as [Hh Hm]. split.
      * rewrite Hh. exact Hhub.
      * intros Hc _. destruct rest as [|question' rest'].
        -- reflexivity.
        -- apply Hm; [exact Hc|discriminate].
    + split; [exact Hhub|].
      intros Hc. rewrite Hc, orb_true_r in Hgo. discriminate.
Qed.

(** X18.  A sequential batch run leaves the hub as it found it.  With
    [continueOnError = true] (the default) and at least one record it leaves
    the engine with an empty transcript, whatever the transcript held before
    the run. *)
Theorem batch_run_leaves_the_hub_and_clears_the_transcript
    (questions : list BatchQuestion) (options : BatchOptions) s :
  let run := processSequentially questions options s in
  hub_connections (snd run) = hub_connections s
  /\ (default true (bo_continueOnError options) = true -> questions <> [] ->
      chat_messages (snd run) = []).
Proof.
  intros run. subst run. unfold processSequentially.
  set (continueOnError := default true (bo_continueOnError options)).
  set (s0 := set_host (set_results [] (host s)) s).
  rewrite (bind_returned _ _ s (a := tt) (s1 := s0)) by reflexivity.
  destruct (sequentialLoop_leaves continueOnError questions 0 s0) as [Hh Hm].
  unfold bind, get_state, ret.
  destruct (sequentialLoop continueOnError questions 0 s0) as [[[]|e] s1];
    cbn [fst snd] in *; split; auto.
Qed.

End BatchRows.

(* ================================================================== *)
(** ** Chunks of the concurrent branch *)

(** [array.slice(start, end)] on integer bounds: a negative bound counts from
    the end of the array, and both are clamped to the array. *)
Definition slice {T} (array : list T) (start final : Z) : list T :=
  let len := Z.of_nat (length array) in
  let from := if (start <? 0)%Z then Z.max (len + start) 0 else Z.min start len in
  let to := if (final <? 0)%Z then Z.max (len + final) 0 else Z.min final len in
  firstn (Z.to_nat (to - from)) (skipn (Z.to_nat from) array).

(** The loop of [chunkArray], [for (let i = 0; i < array.length; i += chunkSize)],
    entered at [i] with [chunks] collected so far.  [fuel] bounds the number of
    iterations; [None] is a loop still running when the fuel is spent. *)
Fixpoint chunkArray_loop {T} (fuel : nat) (array : list T) (chunkSize i : Z)
    (chunks : list (list T)) : option (list (list T)) :=
  match fuel with
  | O => None
  | S fuel' =>
      if (i <? Z.of_nat (length array))%Z
      then chunkArray_loop fuel' array chunkSize (i + chunkSize)%Z
             (chunks ++ [slice array i (i + chunkSize)])
      else Some chunks
  end.

Definition chunkArray {T} (fuel : nat) (array : list T) (chunkSize : Z)
  : option (list (list T)) :=
  chunkArray_loop fuel array chunkSize 0%Z [].

Section Chunks.

Variable T : Type.

Implicit Types array : list T.

Lemma slice_forward array (n k : nat) :
  n < length array -> 1 <= k ->
  slice array (Z.of_nat n) (Z.of_nat n + Z.of_nat k) = firstn k (skipn n array).
Proof.
  intros Hn Hk. unfold slice.
  destruct (Z.ltb_spec (Z.of_nat n) 0) as [H0|_]; [lia|].
  destruct (Z.ltb_spec (Z.of_nat n + Z.of_nat k) 0) as [H0|_]; [lia|].
  rewrite (Z.min_l (Z.of_nat n)) by lia. rewrite Nat2Z.id.
  destruct (Z.min_spec (Z.of_nat n + Z.of_nat k) (Z.of_nat (length array)))
    as [[Hlt E]|[Hge E]]; rewrite E.
  - f_equal. lia.
  - replace (Z.to_nat (Z.of_nat (length array) - Z.of_nat n)) with (length array - n) by lia.
    rewrite !firstn_all2; auto; rewrite length_skipn; lia.
Qed.

Lemma chunkArray_loop_from (array : list T) (k : nat) :
  1 <= k ->
  forall m n,
    length array - n <= m ->
    exists cs,
      (forall fuel chunks,
          m < fuel ->
          chunkArray_loop fuel array (Z.of_nat k) (Z.of_nat n) chunks = Some (chunks ++ cs))
      /\ concat cs = skipn n array
      /\ Forall (fun c => length c = k) (removelast cs)
      /\ Forall (fun c => c <> [] /\ length c <= k) cs.
Proof.
  intros Hk. induction m as [|m IH]; intros n Hm.
  - exists []. split; [|split; [|split]].
    + intros [|fuel] chunks Hfuel; [lia|]. cbn [chunkArray_loop].
      destruct (Z.ltb_spec (Z.of_nat n) (Z.of_nat (length array))); [lia|].
      now rewrite app_nil_r.
    + rewrite skipn_all2; [reflexivity|lia].
    + constructor.
    + constructor.
  - destruct (Nat.lt_ge_cases n (length array)) as [Hlt|Hge].
    + destruct (IH (n + k)) as (cs & Hrun & Hcat & Hfull & Hall); [lia|].
      exists (firstn k (skipn n array) :: cs). split; [|split; [|split]].
      * intros [|fuel] chunks Hfuel; [lia|]. cbn [chunkArray_loop].
        destruct (Z.ltb_spec (Z.of_nat n) (Z.of_nat (length array))); [|lia].
        rewrite (slice_forward array Hlt Hk).
        replace (Z.of_nat n + Z.of_nat k)%Z with (Z.of_nat (n + k)) by lia.
        rewrite Hrun by lia. now rewrite <- app_assoc.
      * simpl. rewrite Hcat.
        replace (n + k) with (k + n) by lia.
        rewrite <- skipn_skipn. apply firstn_skipn.
      * destruct cs as [|c cs']; [constructor|].
        change (removelast (firstn k (skipn n array) :: c :: cs'))
          with (firstn k (skipn n array) :: removelast (c :: cs')).
        constructor; [|exact Hfull].
        assert (Hmore : n + k < length array).
        { destruct (Nat.lt_ge_cases (n + k) (length array)) as [|Hover]; auto.
          rewrite skipn_all2 in Hcat by lia.
          inversion Hall as [|? ? [Hc _] _]; subst.
          simpl in Hcat. destruct c; [contradiction|discriminate]. }
        rewrite length_firstn, length_skipn. lia.
      * constructor; [|exact Hall]. split.
        -- intros E. apply (f_equal (@length T)) in E.
           rewrite length_firstn, length_skipn in E. simpl in E. lia.
        -- rewrite length_firstn. lia.
    + exists []. split; [|split; [|split]].
      * intros [|fuel] chunks Hfuel; [lia|]. cbn [chunkArray_loop].
        destruct (Z.ltb_spec (Z.of_nat n) (Z.of_nat (length array))); [lia|].
        now rewrite app_nil_r.
      * rewrite skipn_all2; [reflexivity|lia].
      * constructor.
      * constructor.
Qed.

(** X19.  With a chunk size of at least 1, [chunkArray] ends within
    [array.length + 1] tests of its loop condition and cuts the array into
    consecutive chunks: their concatenation is the array, none is empty, and
    all have [chunkSize] elements except possibly the last, which has at most
    that many. *)
Theorem chunkArray_partitions_the_array array (chunkSize : Z) :
  (1 <= chunkSize)%Z ->
  exists chunks,
    (forall fuel, length array < fuel -> chunkArray fuel array chunkSize = Some chunks)
    /\ concat chunks = array
    /\ Forall (fun c => Z.of_nat (length c) = chunkSize) (removelast chunks)
    /\ Forall (fun c => c <> [] /\ (Z.of_nat (length c) <= chunkSize)%Z) chunks.
Proof.
  intros Hk.
  destruct (@chunkArray_loop_from array (Z.to_nat chunkSize) ltac:(lia)
              (length array) 0 ltac:(lia)) as (cs & Hrun & Hcat & Hfull & Hall).
  rewrite Z2Nat.id in Hrun by lia.
  exists cs. split; [|split; [|split]].
  - intros fuel Hfuel. unfold chunkArray. exact (Hrun fuel [] Hfuel).
  - exact Hcat.
  - revert Hfull. apply Forall_impl. intros c Hc. lia.
  - revert Hall. apply Forall_impl. intros c [Hc Hlen]. split; [exact Hc|lia].
Qed.

(** X20.  With a chunk size of 0 or less the loop of [chunkArray] never ends on a
    non-empty array: the index never passes the length of the array, so no
    amount of iterations returns. *)
Theorem chunkArray_never_returns_without_progress array (chunkSize : Z) :
  (chunkSize <= 0)%Z ->
  array <> [] ->
  forall fuel, chunkArray fuel array chunkSize = None.
Proof.
  intros Hk Hne fuel. unfold chunkArray.
  assert (L : forall fuel i chunks,
             (i <= 0)%Z -> chunkArray_loop fuel array chunkSize i chunks = None).
  { clear fuel. induction fuel as [|fuel IH]; intros i chunks Hi; [reflexivity|].
    cbn [chunkArray_loop].
    destruct (Z.ltb_spec i (Z.of_nat (length array))) as [_|Hge].
    - apply IH. lia.
    - destruct array; [contradiction|]. simpl length in Hge. lia. }
  apply L. lia.
Qed.

End Chunks.

(* ================================================================== *)
(** * The LLM providers *)

(** ** OpenAIProvider (llm/openai.ts) *)

Module OpenAIProvider.

(** A chat-completion message: a [user], [system] or [assistant] message, the
    last with the tool calls it requests, or a [tool] message answering one
    call. *)
Inductive OpenAIMessage : Type :=
| ChatMessage (role : Role) (content : string) (tool_calls : option (list ToolCall))
| ToolMessage (tool_call_id : string) (content : string).

Definition toolCallParam (call : ToolCall) : ToolCall :=
  {| tc_id := tc_id call;
     tc_function_name := tc_function_name call;
     tc_function_arguments := tc_function_arguments call |}.

Definition toolMessage (result : ToolResult) : OpenAIMessage :=
  ToolMessage (tr_toolCallId result) (tr_content result).

(** What one turn of the transcript pushes on [openaiMessages]. *)
Definition convertMessage (message : Message) : list OpenAIMessage :=
  match msg_role message with
  | assistant =>
      ChatMessage assistant (msg_content message)
                  (option_map (map toolCallParam) (msg_toolCalls message))
      :: match msg_toolResults message with
         | Some results => map toolMessage results
         | None => []
         end
  | role => [ChatMessage role (msg_content message) None]
  end.

Fixpoint convertMessages_loop (messages : list Message)
    (openaiMessages : list OpenAIMessage) : list OpenAIMessage :=
  match messages with
  | [] => openaiMessages
  | message :: rest =>
      convertMessages_loop rest (openaiMessages ++ convertMessage message)
  end.

Definition convertMessages (messages : list Message) : list OpenAIMessage :=
  convertMessages_loop messages [].

(** A message list in which every tool call is answered in place: each chat
    message is followed at once by one [tool] message per tool call it
    requests, with the identifiers of the calls, in order, and no [tool]
    message stands anywhere else. *)
Inductive answersFollow : list OpenAIMessage -> Prop :=
| answersFollow_nil : answersFollow []
| answersFollow_turn role content tool_calls answers rest :
    map tr_toolCallId answers = map tc_id (default [] tool_calls) ->
    answersFollow rest ->
    answersFollow (ChatMessage role content tool_calls
                   :: map toolMessage answers ++ rest).

Definition isToolMessage (m : OpenAIMessage) : bool :=
  match m with
  | ToolMessage _ _ => true
  | ChatMessage _ _ _ => false
  end.

Lemma convertMessages_loop_acc (messages : list Message) :
  forall acc, convertMessages_loop messages acc = acc ++ convertMessages messages.
Proof.
  unfold convertMessages.
  induction messages as [|message rest IH]; intros acc; simpl.
  - now rewrite app_nil_r.
  - rewrite IH, (IH (convertMessage message)). now rewrite app_assoc.
Qed.

Lemma convertMessages_cons (message : Message) (rest : list Message) :
  convertMessages (message :: rest) = convertMessage message ++ convertMessages rest.
Proof.
  unfold convertMessages at 1. simpl. apply convertMessages_loop_acc.
Qed.

Lemma convertMessages_head (messages : list Message) :
  match convertMessages messages with
  | m :: _ => isToolMessage m = false
  | [] => True
  end.
Proof.
  destruct messages as [|message rest]; [exact I|].
  rewrite convertMessages_cons. unfold convertMessage.
  destruct (msg_role message); reflexivity.
Qed.

Lemma answersFollow_head (l : list OpenAIMessage) :
  answersFollow l ->
  match l with
  | m :: _ => isToolMessage m = false
  | [] => True
  end.
Proof. intros H. destruct H; simpl; auto. Qed.

(** A run of [tool] messages before a list that does not start with one is
    determined by the whole. *)
Lemma tool_run_unique (a b : list ToolResult) (r1 r2 : list OpenAIMessage) :
  match r1 with m :: _ => isToolMessage m = false | [] => True end ->
  match r2 with m :: _ => isToolMessage m = false | [] => True end ->
  map toolMessage a ++ r1 = map toolMessage b ++ r2 ->
  map tr_toolCallId a = map tr_toolCallId b /\ r1 = r2.
Proof.
  revert b. induction a as [|x a IH]; intros [|y b] H1 H2 E; simpl in *.
  - auto.
  - subst r1. simpl in H1. discriminate.
  - subst r2. simpl in H2. discriminate.
  - inversion E as [[Hid Hc Hrest]].
    destruct (IH b H1 H2 Hrest) as [Hids Hr]. split; congruence.
Qed.

Lemma toolCallParam_ids (calls : option (list ToolCall)) :
  map tc_id (default [] (option_map (map toolCallParam) calls))
  = map tc_id (default [] calls).
Proof.
  destruct calls as [calls|]; simpl; [|reflexivity].
  rewrite map_map. reflexivity.
Qed.

(** X21.  The message list sent to the provider answers every tool call in place
    exactly when every assistant turn of the transcript is answered: a
    transcript with an assistant turn whose results do not match its tool
    calls (a call left to the caller and not resolved yet, a call resolved
    twice) converts to a list in which some tool call lacks its [tool]
    message or some [tool] message has no call. *)
Theorem openai_answers_follow_iff_turns_are_answered (messages : list Message) :
  answersFollow (convertMessages messages)
  <-> Forall (fun m => msg_role m = assistant -> answered m) messages.
Proof.
  induction messages as [|message rest IH].
  - split; intros _; constructor.
  - rewrite convertMessages_cons. unfold convertMessage.
    destruct (msg_role message) eqn:Hrole.
    + (* user *)
      split.
      * intros H. simpl in H.
        inversion H as [|role content calls answers tail Hids Htail]; subst.
        destruct answers; [|discriminate Hids]. simpl in *. subst.
        constructor; [congruence|]. apply IH. exact Htail.
      * intros H. inversion H as [|? ? _ Hrest]; subst.
        apply (answersFollow_turn user (msg_content message) None [] (rest := convertMessages rest));
          [reflexivity|]. apply IH. exact Hrest.
    + (* assistant *)
      set (results := match msg_toolResults message with
                      | Some results => results
                      | None => []
                      end).
      assert (Hres : match msg_toolResults message with
                     | Some results => map toolMessage results
                     | None => []
                     end = map toolMessage results).
      { subst results. destruct (msg_toolResults message); reflexivity. }
      assert (Hdef : default [] (msg_toolResults message) = results).
      { subst results. destruct (msg_toolResults message); reflexivity. }
      rewrite Hres. split.
      * intros H. simpl in H.
        inversion H as [|role content calls answers tail Hids Htail]; subst.
        match goal with
        | E : map toolMessage answers ++ tail = _ |- _ =>
            destruct (tool_run_unique results answers (convertMessages rest) tail
                        (convertMessages_head rest) (answersFollow_head Htail)
                        (eq_sym E))
              as [Hsame Htl]
        end.
        constructor.
        -- intros _. unfold answered. rewrite Hdef, Hsame, Hids.
           apply toolCallParam_ids.
        -- apply IH. rewrite Htl. exact Htail.
      * intros H. inversion H as [|? ? Hm Hrest]; subst.
        simpl. apply answersFollow_turn.
        -- rewrite toolCallParam_ids. specialize (Hm Hrole).
           unfold answered in Hm. now rewrite Hdef in Hm.
        -- apply IH. exact Hrest.
    + (* system *)
      split.
      * intros H. simpl in H.
        inversion H as [|role content calls answers tail Hids Htail]; subst.
        destruct answers; [|discriminate Hids]. simpl in *. subst.
        constructor; [congruence|]. apply IH. exact Htail.
      * intros H. inversion H as [|? ? _ Hrest]; subst.
        apply (answersFollow_turn system (msg_content message) None [] (rest := convertMessages rest));
          [reflexivity|]. apply IH. exact Hrest.
Qed.

End OpenAIProvider.

(** ** AnthropicProvider (llm/anthropic.ts) *)

Module AnthropicProvider.

Inductive ContentBlock : Type :=
| TextBlock (text : string)
| ToolUseBlock (id name : string) (input : Json)
| ToolResultBlock (tool_use_id content : string) (is_error : option bool).

Inductive MessageContent : Type :=
| Text (text : string)
| Blocks (blocks : list ContentBlock).

Record MessageParam : Type := {
  mp_role : Role;
  mp_content : MessageContent
}.

Section Convert.

Context {World : Type} {collab : Collaborators World}.

(** The [for (const call of message.toolCalls)] loop of [convertMessages] on
    the local array [content]; [JSON.parse] may throw. *)
Fixpoint toolUseBlocks (toolCalls : list ToolCall) (content : list ContentBlock)
  : Outcome (list ContentBlock) :=
  match toolCalls with
  | [] => Returned content
  | call :: rest =>
      match JSON_parse (tc_function_arguments call) with
      | Returned input =>
          toolUseBlocks rest
            (content ++ [ToolUseBlock (tc_id call) (tc_function_name call) input])
      | Thrown e => Thrown e
      end
  end.

Definition toolResultBlock (result : ToolResult) : ContentBlock :=
  ToolResultBlock (tr_toolCallId result) (tr_content result) (tr_isError result).

(** The messages an assistant turn pushes once its content blocks are built. *)
Definition assistantMessages (message : Message) (content : list ContentBlock)
  : list MessageParam :=
  {| mp_role := assistant; mp_content := Blocks content |}
  :: match msg_toolResults message with
     | Some results =>
         let toolResultContent := map toolResultBlock results in
         if Nat.ltb 0 (length toolResultContent)
         then [{| mp_role := user; mp_content := Blocks toolResultContent |}]
         else []
     | None => []
     end.

(** The loop of [convertMessages] on its locals [systemMessage] and
    [anthropicMessages]. *)
Fixpoint convertMessages_loop (messages : list Message)
    (systemMessage : option string) (anthropicMessages : list MessageParam)
  : Outcome (option string * list MessageParam) :=
  match messages with
  | [] => Returned (systemMessage, anthropicMessages)
  | message :: rest =>
      match msg_role message with
      | system =>
          convertMessages_loop rest (Some (msg_content message)) anthropicMessages
      | user =>
          convertMessages_loop rest systemMessage
            (anthropicMessages
             ++ [{| mp_role := user; mp_content := Text (msg_content message) |}])
      | assistant =>
          let content :=
            if negb (String.eqb (msg_content message) "")
            then [TextBlock (msg_content message)] else [] in
          match match msg_toolCalls message with
                | Some toolCalls => toolUseBlocks toolCalls content
                | None => Returned content
                end with
          | Returned content =>
              convertMessages_loop rest systemMessage
                (anthropicMessages ++ assistantMessages message content)
          | Thrown e => Thrown e
          end
      end
  end.

Definition convertMessages (messages : list Message)
  : Outcome (option string * list MessageParam) :=
  convertMessages_loop messages None [].

(** A turn the conversion cannot get past: an assistant turn with a tool
    call whose arguments [JSON.parse] rejects. *)
Definition malformed (message : Message) : Prop :=
  msg_role message = assistant
  /\ Exists (fun call => parses call = false) (default [] (msg_toolCalls message)).

Definition isSystem (message : Message) : bool :=
  match msg_role message with
  | system => true
  | _ => false
  end.

Lemma toolUseBlocks_spec (toolCalls : list ToolCall) :
  forall content,
    match toolUseBlocks toolCalls content with
    | Returned _ => Forall (fun call => parses call = true) toolCalls
    | Thrown _ => Exists (fun call => parses call = false) toolCalls
    end.
Proof.
  induction toolCalls as [|call rest IH]; intros content; simpl.
  - constructor.
  - destruct (JSON_parse (tc_function_arguments call)) as [input|e] eqn:Hparse.
    + specialize (IH (content ++ [ToolUseBlock (tc_id call) (tc_function_name call) input])).
      destruct (toolUseBlocks rest _).
      * constructor; auto. unfold parses. now rewrite Hparse.
      * now apply Exists_cons_tl.
    + apply Exists_cons_hd. unfold parses. now rewrite Hparse.
Qed.

Lemma convertMessages_loop_spec (messages : list Message) :
  forall systemMessage anthropicMessages,
    match convertMessages_loop messages systemMessage anthropicMessages with
    | Returned _ => Forall (fun m => ~ malformed m) messages
    | Thrown _ => Exists malformed messages
    end.
Proof.
  induction messages as [|message rest IH]; intros systemMessage anthropicMessages;
    cbn [convertMessages_loop].
  - constructor.
  - assert (Hother : msg_role message <> assistant -> ~ malformed message).
    { intros Hr [Ha _]. contradiction. }
    destruct (msg_role message) eqn:Hrole.
    + specialize (IH systemMessage
                     (anthropicMessages
                      ++ [{| mp_role := user; mp_content := Text (msg_content message) |}])).
      destruct (convertMessages_loop rest _ _).
      * constructor; auto. apply Hother. discriminate.
      * now apply Exists_cons_tl.
    + cbv zeta.
      set (content := if negb (String.eqb (msg_content message) "")
                      then [TextBlock (msg_content message)] else []).
      assert (Hcalls :
                match match msg_toolCalls message with
                      | Some toolCalls => toolUseBlocks toolCalls content
                      | None => Returned content
                      end with
                | Returned _ => ~ malformed message
                | Thrown _ => malformed message
                end).
      { unfold malformed. destruct (msg_toolCalls message) as [toolCalls|]; simpl.
        - pose proof (toolUseBlocks_spec toolCalls content) as Hspec.
          destruct (toolUseBlocks toolCalls content).
          + intros [_ Hex]. rewrite Forall_forall in Hspec. rewrite Exists_exists in Hex.
            destruct Hex as (call & Hin & Hno). rewrite (Hspec call Hin) in Hno.
            discriminate.
          + split; [exact Hrole|exact Hspec].
        - intros [_ Hex]. inversion Hex. }
      destruct (match msg_toolCalls message with
                | Some toolCalls => toolUseBlocks toolCalls content
                | None => Returned content
                end) as [blocks|e].
      * specialize (IH systemMessage
                       (anthropicMessages ++ assistantMessages message blocks)).
        destruct (convertMessages_loop rest _ _).
        -- constructor; auto.
        -- now apply Exists_cons_tl.
      * now apply Exists_cons_hd.
    + specialize (IH (Some (msg_content message)) anthropicMessages).
      destruct (convertMessages_loop rest _ _).
      * constructor; auto. apply Hother. discriminate.
      * now apply Exists_cons_tl.
Qed.

Lemma convertMessages_loop_thrown_app (messages more : list Message) :
  forall systemMessage anthropicMessages e,
    convertMessages_loop messages systemMessage anthropicMessages = Thrown e ->
    convertMessages_loop (messages ++ more) systemMessage anthropicMessages = Thrown e.
Proof.
  induction messages as [|message rest IH]; intros systemMessage anthropicMessages e;
    cbn [convertMessages_loop app].
  - discriminate.
  - destruct (msg_role message); cbv zeta.
    + apply IH.
    + destruct (match msg_toolCalls message with
                | Some toolCalls => toolUseBlocks toolCalls _
                | None => _
                end); [apply IH|auto].
    + apply IH.
Qed.

Lemma convertMessages_throws_iff (messages : list Message) :
  (exists e, convertMessages messages = Thrown e) <-> Exists malformed messages.
Proof.
  pose proof (convertMessages_loop_spec messages None []) as Hspec.
  fold (convertMessages messages) in Hspec.
  destruct (convertMessages messages) as [r|e].
  - split.
    + intros (e & He). discriminate.
    + intros Hex. rewrite Forall_forall in Hspec. rewrite Exists_exists in Hex.
      destruct Hex as (m & Hin & Hm). exfalso. exact (Hspec m Hin Hm).
  - split; eauto.
Qed.

(** X22.  The conversion of the transcript throws exactly when some assistant turn
    holds a tool call whose arguments do not parse as JSON, and once it
    throws it throws the same error on every longer transcript: such a tool
    call, which the engine keeps on the transcript with its error result,
    makes every later request through this provider fail until the
    transcript is cleared. *)
Theorem anthropic_conversion_fails_on_unparsable_arguments
    (messages : list Message) :
  ((exists e, convertMessages messages = Thrown e) <-> Exists malformed messages)
  /\ (forall e more,
        convertMessages messages = Thrown e ->
        convertMessages (messages ++ more) = Thrown e).
Proof.
  split.
  - apply convertMessages_throws_iff.
  - intros e more. apply convertMessages_loop_thrown_app.
Qed.

(** The content of the last system turn, if any. *)
Definition lastSystem (messages : list Message) : option string :=
  match rev (filter isSystem messages) with
  | message :: _ => Some (msg_content message)
  | [] => None
  end.

Lemma lastSystem_cons (message : Message) (rest : list Message) :
  lastSystem (message :: rest)
  = match lastSystem rest with
    | Some c => Some c
    | None => if isSystem message then Some (msg_content message) else None
    end.
Proof.
  unfold lastSystem. cbn [filter].
  destruct (isSystem message); cbn [rev];
    destruct (rev (filter isSystem rest)); reflexivity.
Qed.

Lemma convertMessages_loop_system (messages : list Message) :
  forall systemMessage acc sys out,
    convertMessages_loop messages systemMessage acc = Returned (sys, out) ->
    sys = match lastSystem messages with
          | Some c => Some c
          | None => systemMessage
          end
    /\ exists new,
         out = acc ++ new
         /\ Forall (fun m => mp_role m <> system) new
         /\ forall systemMessage' acc',
              convertMessages_loop (filter (fun m => negb (isSystem m)) messages)
                                   systemMessage' acc'
              = Returned (systemMessage', acc' ++ new).
Proof.
  induction messages as [|message rest IH]; intros systemMessage acc sys out.
  - cbn [convertMessages_loop].
    intros E. inversion E; subst. split; [reflexivity|].
    exists []. rewrite app_nil_r. split; [reflexivity|]. split; [constructor|].
    intros s' a'. simpl. now rewrite app_nil_r.
  - rewrite lastSystem_cons. cbn [convertMessages_loop filter].
    destruct (msg_role message) eqn:Hrole; cbv zeta.
    + assert (Hs : isSystem message = false) by (unfold isSystem; now rewrite Hrole).
      rewrite Hs. cbn [negb].
      intros E. destruct (IH _ _ _ _ E) as (Hsys & new & Hout & Hroles & Hfilter).
      split; [rewrite Hsys; destruct (lastSystem rest); reflexivity|].
      exists ({| mp_role := user; mp_content := Text (msg_content message) |} :: new).
      split; [rewrite Hout, <- app_assoc; reflexivity|].
      split; [constructor; [discriminate|exact Hroles]|].
      intros s' a'. cbn [convertMessages_loop]. rewrite Hrole.
      rewrite Hfilter, <- app_assoc. reflexivity.
    + assert (Hs : isSystem message = false) by (unfold isSystem; now rewrite Hrole).
      rewrite Hs. cbn [negb].
      destruct (match msg_toolCalls message with
                | Some toolCalls => toolUseBlocks toolCalls _
                | None => _
                end) as [blocks|e] eqn:Hblocks; [|discriminate].
      intros E. destruct (IH _ _ _ _ E) as (Hsys & new & Hout & Hroles & Hfilter).
      split; [rewrite Hsys; destruct (lastSystem rest); reflexivity|].
      exists (assistantMessages message blocks ++ new).
      split; [rewrite Hout, <- app_assoc; reflexivity|].
      split.
      * apply Forall_app. split; [|exact Hroles].
        unfold assistantMessages. constructor; [discriminate|].
        destruct (msg_toolResults message) as [results|]; [|constructor].
        cbv zeta. destruct (Nat.ltb 0 (length (map toolResultBlock results)));
          repeat constructor; discriminate.
      * intros s' a'. cbn [convertMessages_loop]. rewrite Hrole. cbv zeta.
        rewrite Hblocks. rewrite Hfilter, <- app_assoc. reflexivity.
    + assert (Hs : isSystem message = true) by (unfold isSystem; now rewrite Hrole).
      rewrite Hs. cbn [negb].
      intros E. destruct (IH _ _ _ _ E) as (Hsys & new & Hout & Hroles & Hfilter).
      split.
      * rewrite Hsys. destruct (lastSystem rest); reflexivity.
      * exists new. split; [exact Hout|]. split; [exact Hroles|].
        exact Hfilter.
Qed.

(** X23.  Of the system turns of a transcript only the last one reaches the
    provider, as the [system] parameter of the request, wherever the turns
    stand; the message list holds no system message and is the one the
    transcript without its system turns converts to. *)
Theorem anthropic_sends_the_last_system_turn_only (messages : list Message)
    (systemMessage : option string) (anthropicMessages : list MessageParam) :
  convertMessages messages = Returned (systemMessage, anthropicMessages) ->
  systemMessage = lastSystem messages
  /\ Forall (fun m => mp_role m <> system) anthropicMessages
  /\ convertMessages (filter (fun m => negb (isSystem m)) messages)
     = Returned (None, anthropicMessages).
Proof.
  intros E. unfold convertMessages in *.
  destruct (convertMessages_loop_system _ _ _ E) as (Hsys & new & Hout & Hroles & Hfilter).
  simpl in Hout. subst anthropicMessages. split; [|split].
  - rewrite Hsys. destruct (lastSystem messages); reflexivity.
  - exact Hroles.
  - apply (Hfilter None []).
Qed.

End Convert.

End AnthropicProvider.

(** ** The engine and the providers together *)

Section EngineAndProviders.

Context {World : Type} {collab : Collaborators World} {Host : Type}.

Implicit Types s : State World Host.



End EngineAndProviders.

(* ================================================================== *)
(** * More concrete runs *)

Module MoreRuns.

Import Sim.

(** A descriptor for a process transport that names no command, added under
    the name of a registered session. *)
Definition noCommand : McpServerWithName :=
  {| cfg_name := "a"; cfg_type := "stdio"; cfg_command := None;
     cfg_args := None; cfg_env := None; cfg_url := None; cfg_disabled := false;
     cfg_timeout := 60%Z; cfg_autoApprove := [] |}.

Lemma incomplete_descriptor_is_refused_before_connecting_witness :
  addServer noCommand Runs.hub_with_a
  = (Thrown StdioRequiresCommand, snd (removeServer "a" Runs.hub_with_a))
  /\ map_get "a" (hub_connections (snd (addServer noCommand Runs.hub_with_a))) = None
  /\ filter reaches_out (trace (snd (addServer noCommand Runs.hub_with_a)))
     = filter reaches_out (trace Runs.hub_with_a).
Proof.
  destruct (@incomplete_descriptor_is_refused_before_connecting World collab unit
              noCommand Runs.hub_with_a StdioRequiresCommand eq_refl)
    as (_ & Ha & Hg & Ht).
  split; [exact Ha|]. split; [exact Hg|exact Ht].
Defined.

(** A server that lists its tools and rejects the listing of resources. *)
Definition world_no_resources : World :=
  worldOf [ {| srv_name := "a"; srv_up := true; srv_tools := Some [tool "read"];
               srv_resources := None; srv_failing := [] |} ]
          [] (say "done").

Lemma discovery_needs_tools_and_tolerates_missing_resources_witness :
  fst (createConnection (stdio "a") (start tt world_no_resources))
  = Returned {| conn_config := stdio "a"; conn_process := None;
                conn_connected := true;
                conn_tools := [tool "read"]; conn_resources := [] |}
  /\ trace (snd (createConnection (stdio "a") (start tt world_no_resources)))
     = [EvConnect (stdio "a"); EvRequest (stdio "a") ToolsList None;
        EvRequest (stdio "a") ResourcesList None].
Proof.
  apply (@discovery_needs_tools_and_tolerates_missing_resources World collab unit
           (stdio "a") (start tt world_no_resources)
           world_no_resources world_no_resources world_no_resources
           (Returned {| lt_tools := Some [tool "read"] |}) (Thrown refused));
    reflexivity.
Defined.

(** A session that refuses to close. *)
Definition stubborn : Collaborators World := {|
  new_URL := new_URL (Collaborators := collab);
  client_connect := client_connect (Collaborators := collab);
  client_close := fun _ w => (Some refused, w);
  request_tools_list := request_tools_list (Collaborators := collab);
  request_resources_list := request_resources_list (Collaborators := collab);
  request_tools_call := request_tools_call (Collaborators := collab);
  request_resources_read := request_resources_read (Collaborators := collab);
  llm_chat := llm_chat (Collaborators := collab);
  JSON_parse := JSON_parse (Collaborators := collab);
  JSON_stringify := JSON_stringify (Collaborators := collab);
  Date_now := Date_now (Collaborators := collab)
|}.

Lemma removeServer_survives_a_failing_close_witness :
  fst (removeServer (collab := stubborn) "a" Runs.hub_with_a) = Returned tt
  /\ hub_connections (snd (removeServer (collab := stubborn) "a" Runs.hub_with_a)) = []
  /\ console (snd (removeServer (collab := stubborn) "a" Runs.hub_with_a))
     = console Runs.hub_with_a ++ [LogErrorClosingClient refused; LogDisconnected "a"].
Proof.
  destruct (@removeServer_survives_a_failing_close World stubborn unit "a"
              Runs.hub_with_a) as [_ H].
  apply (H Runs.conn_a refused Runs.world_down); reflexivity.
Defined.

Definition hub_a_b : State World unit :=
  snd (run_ops [OpAddServer (stdio "a"); OpAddServer (stdio "b")]
               (start tt Runs.world_up)).

Lemma addServer_registers_the_name_last_witness :
  getServerNames hub_a_b = ["a"; "b"]
  /\ getServerNames (snd (addServer (stdio "a") hub_a_b)) = ["b"; "a"].
Proof.
  split; [reflexivity|].
  apply (@addServer_registers_the_name_last World collab unit (stdio "a") hub_a_b).
  reflexivity.
Defined.

(** Three servers configured, the second unknown to the world. *)
Lemma startup_loop_keeps_the_configured_order_witness :
  fst (connectAll [stdio "b"; stdio "c"; stdio "a"] (start tt Runs.world_up))
  = Returned tt
  /\ getServerNames
       (snd (connectAll [stdio "b"; stdio "c"; stdio "a"] (start tt Runs.world_up)))
     = ["b"; "a"].
Proof.
  apply (@startup_loop_keeps_the_configured_order World collab unit
           [stdio "b"; stdio "c"; stdio "a"] (start tt Runs.world_up)).
  - reflexivity.
  - repeat constructor; simpl; intuition discriminate.
Defined.

Definition world_quiet : World := worldOf [] [] (say "done").

Definition oneTurn : ChatOptions World unit :=
  {| opt_temperature := None; opt_maxTokens := None; opt_maxTurns := Some 1%Z;
     opt_autoExecuteTools := None; opt_onToolExecution := None |}.

(** With [maxTurns = 1] an answer that ends the conversation still prints
    the warning. *)
Lemma answer_without_tools_ends_the_call_witness :
  fst (chat "hello" oneTurn (start tt world_quiet)) = Returned "done"
  /\ console (snd (chat "hello" oneTurn (start tt world_quiet)))
     = [LogReachedMaximumTurns 1%Z].
Proof.
  destruct (@answer_without_tools_ends_the_call World collab unit "hello" oneTurn
              (start tt world_quiet)
              {| llm_content := "done"; llm_toolCalls := None; llm_usage := None |}
              world_quiet)
    as (Hr & _ & _ & Hc & _).
  - simpl. lia.
  - reflexivity.
  - left. reflexivity.
  - split; [exact Hr|exact Hc].
Defined.

Definition manual : ChatOptions World unit :=
  {| opt_temperature := None; opt_maxTokens := None; opt_maxTurns := None;
     opt_autoExecuteTools := Some false; opt_onToolExecution := None |}.

Definition goResponse : LLMResponse :=
  {| llm_content := "go";
     llm_toolCalls := Some [call "c1" "read" "{}"; call "c2" "read" ""];
     llm_usage := None |}.

Definition world_after_go : World :=
  snd (llm_chat [] [] (llmOptionsOf plainOptions) Runs.world_route).

Lemma manual_mode_leaves_calls_to_the_caller_witness :
  let run := chat "hello" manual Runs.hub_route in
  fst run = Returned "go"
  /\ chat_messages (snd run) = [userMessage "hello"; plainMessage goResponse]
  /\ Runs.toolCallsOf (trace (snd run)) = []
  /\ chat_messages (snd (executeToolManually "c2" "by hand" None (snd run)))
     = [userMessage "hello";
        pushToolResult {| tr_toolCallId := "c2"; tr_content := "by hand";
                          tr_isError := Some false |} (plainMessage goResponse)].
Proof.
  destruct (@manual_mode_leaves_calls_to_the_caller World collab unit "hello" manual
              Runs.hub_route goResponse world_after_go
              (call "c1" "read" "{}") [call "c2" "read" ""])
    as (Hr & Hm & _ & Hmanual).
  - simpl. lia.
  - reflexivity.
  - reflexivity.
  - reflexivity.
  - cbv zeta. split; [exact Hr|]. split; [exact Hm|]. split; [reflexivity|].
    pose proof (Hmanual (call "c2" "read" "") "by hand" None
                        (or_intror (or_introl eq_refl))) as E.
    cbn [tc_id call] in E. rewrite E. reflexivity.
Defined.

Definition noTurns : ChatOptions World unit :=
  {| opt_temperature := None; opt_maxTokens := None; opt_maxTurns := Some 0%Z;
     opt_autoExecuteTools := None; opt_onToolExecution := None |}.

Lemma chat_without_turns_returns_the_empty_string_witness :
  fst (chat "hello" noTurns (start tt world_quiet)) = Returned ""
  /\ trace (snd (chat "hello" noTurns (start tt world_quiet))) = [].
Proof.
  rewrite (@chat_without_turns_returns_the_empty_string World collab unit "hello"
             noTurns (start tt world_quiet)).
  - split; reflexivity.
  - simpl. lia.
Defined.

(** A server that answers every call with an error flagged in its response. *)
Definition flagging : Collaborators World := {|
  new_URL := new_URL (Collaborators := collab);
  client_connect := client_connect (Collaborators := collab);
  client_close := client_close (Collaborators := collab);
  request_tools_list := request_tools_list (Collaborators := collab);
  request_resources_list := request_resources_list (Collaborators := collab);
  request_tools_call := fun _ _ _ _ w =>
    (Returned {| raw_content := Some [textItem "no such file"];
                 raw_isError := Some true |}, w);
  request_resources_read := request_resources_read (Collaborators := collab);
  llm_chat := llm_chat (Collaborators := collab);
  JSON_parse := JSON_parse (Collaborators := collab);
  JSON_stringify := JSON_stringify (Collaborators := collab);
  Date_now := Date_now (Collaborators := collab)
|}.

Lemma server_error_flag_is_dropped_witness :
  fst (executeToolCalls (collab := flagging) [call "c1" "read" "{}"] None
         Runs.hub_with_a)
  = Returned [{| tr_toolCallId := "c1"; tr_content := "no such file";
                 tr_isError := Some false |}].
Proof.
  apply (@server_error_flag_is_dropped World flagging unit (call "c1" "read" "{}")
           (JObj []) "a" Runs.conn_a [] (tool "read")
           {| raw_content := Some [textItem "no such file"];
              raw_isError := Some true |}
           Runs.world_down Runs.hub_with_a); reflexivity.
Defined.

Lemma unsendable_call_yields_an_error_result_only_witness :
  executeToolCalls [call "c2" "read" ""] None Runs.hub_route
  = (Returned [{| tr_toolCallId := "c2";
                  tr_content := "Error: Unexpected end of JSON input";
                  tr_isError := Some true |}],
     Runs.hub_route)
  /\ executeToolCalls [call "c3" "write" "{}"] None Runs.hub_route
     = (Returned [{| tr_toolCallId := "c3";
                     tr_content := "Error: Tool write not found";
                     tr_isError := Some true |}],
        Runs.hub_route).
Proof.
  split.
  - destruct (@unsendable_call_yields_an_error_result_only World collab unit
                (call "c2" "read" "") Runs.hub_route) as [H _].
    apply (H (ExternalError "SyntaxError" "Unexpected end of JSON input")).
    reflexivity.
  - destruct (@unsendable_call_yields_an_error_result_only World collab unit
                (call "c3" "write" "{}") Runs.hub_route) as [_ H].
    apply (H (JObj [])); [reflexivity|].
    intros t Hin. vm_compute in Hin.
    destruct Hin as [E|[E|[]]]; subst t; discriminate.
Defined.

Lemma chat_leaves_the_hub_as_it_is_witness :
  hub_connections (snd (chat "hello" plainOptions Runs.hub_route))
  = hub_connections Runs.hub_route
  /\ host (snd (chat "hello" plainOptions Runs.hub_route)) = host Runs.hub_route.
Proof.
  apply (@chat_leaves_the_hub_as_it_is World collab unit "hello" plainOptions
           Runs.hub_route).
  reflexivity.
Defined.

Lemma chat_leaves_no_call_unanswered_witness :
  Forall answered (chat_messages (snd (chat "hello" plainOptions Runs.hub_route))).
Proof.
  apply (@chat_leaves_no_call_unanswered World collab unit "hello" plainOptions
           Runs.hub_route).
  - apply no_observer_is_quiet.
  - reflexivity.
  - constructor.
Defined.

(** The hub of [Runs.hub_route] under a batch runner. *)
Definition batch_route : State World BatchHost :=
  snd (run_ops [OpAddServer (stdio "a"); OpAddServer (stdio "b")]
               (start {| batch_results := []; batch_currentToolCalls := [] |}
                      Runs.world_route)).

Lemma batch_records_list_the_calls_that_parsed_witness :
  exists results new,
    fst (executeToolCalls [call "c1" "read" "{}"; call "c2" "read" ""]
           (Some onToolExecution) batch_route) = Returned results
    /\ map tr_toolCallId results = ["c1"; "c2"]
    /\ batch_currentToolCalls
         (host (snd (executeToolCalls [call "c1" "read" "{}"; call "c2" "read" ""]
                       (Some onToolExecution) batch_route)))
       = [] ++ new
    /\ Forall2 reports new
         (filter (fun p => parses (fst p))
                 (combine [call "c1" "read" "{}"; call "c2" "read" ""] results)).
Proof.
  apply (@batch_records_list_the_calls_that_parsed World collab
           [call "c1" "read" "{}"; call "c2" "read" ""] batch_route).
  - repeat constructor; simpl; intuition discriminate.
  - repeat constructor; discriminate.
  - intros c _ [].
Defined.

Lemma chunkArray_partitions_the_array_witness :
  exists chunks,
    (forall fuel, 5 < fuel -> chunkArray fuel [1; 2; 3; 4; 5] 2%Z = Some chunks)
    /\ concat chunks = [1; 2; 3; 4; 5]
    /\ Forall (fun c => Z.of_nat (length c) = 2%Z) (removelast chunks)
    /\ Forall (fun c => c <> [] /\ (Z.of_nat (length c) <= 2)%Z) chunks.
Proof.
  apply (@chunkArray_partitions_the_array nat [1; 2; 3; 4; 5] 2%Z). lia.
Defined.

Lemma chunkArray_never_returns_without_progress_witness :
  chunkArray 1000 ["q1"; "q2"] 0%Z = None
  /\ chunkArray 1000 ["q1"; "q2"] (-1)%Z = None.
Proof.
  split.
  - apply (@chunkArray_never_returns_without_progress string ["q1"; "q2"] 0%Z).
    + lia.
    + discriminate.
  - apply (@chunkArray_never_returns_without_progress string ["q1"; "q2"] (-1)%Z).
    + lia.
    + discriminate.
Defined.

Definition systemTurn (text : string) : Message :=
  {| msg_role := system; msg_content := text;
     msg_toolCalls := None; msg_toolResults := None |}.

Lemma anthropic_sends_the_last_system_turn_only_witness :
  Some "be kind" = AnthropicProvider.lastSystem
                     [systemTurn "be brief"; userMessage "hello"; systemTurn "be kind"]
  /\ AnthropicProvider.convertMessages [userMessage "hello"]
     = Returned (None, [{| AnthropicProvider.mp_role := user;
                           AnthropicProvider.mp_content := AnthropicProvider.Text "hello" |}]).
Proof.
  destruct (@AnthropicProvider.anthropic_sends_the_last_system_turn_only World collab
              [systemTurn "be brief"; userMessage "hello"; systemTurn "be kind"]
              (Some "be kind")
              [{| AnthropicProvider.mp_role := user;
                  AnthropicProvider.mp_content := AnthropicProvider.Text "hello" |}]
              eq_refl) as (Hs & _ & Hc).
  split; [exact Hs|exact Hc].
Defined.


Lemma batch_run_leaves_the_hub_and_clears_the_transcript_witness :
  chat_messages
    (snd (processSequentially Runs.threeRecords
            {| bo_maxConcurrency := None; bo_continueOnError := None |}
            Runs.batchStart)) = [].
Proof.
  destruct (@batch_run_leaves_the_hub_and_clears_the_transcript World collab
              Runs.threeRecords
              {| bo_maxConcurrency := None; bo_continueOnError := None |}
              Runs.batchStart) as [_ H].
  apply H; [reflexivity|discriminate].
Defined.

End MoreRuns.
